(** * A verified model of the FANG+ base-price estimator ([src/main.py])

    The script fetches the last published base price and net assets of a
    fund, downloads a week of closing prices for the ten holdings and the
    USDJPY rate, back-computes implied share counts from a fixed weight
    table, revalues them at the latest prices, renders a text report and
    pushes it to a messaging endpoint.

    The embedding follows the script function by function.

    - Numbers.  Every quantity of the script is an IEEE-754 binary64
      value.  The code below is written once over an interface of the
      four arithmetic operations, decimal literals and a decimal view
      (class [Arith]) and read at two carriers: [spec_float] with
      precision 53 and exponent bound 1024 (the arithmetic the script
      really runs on, including rounding, signed zeros, infinities and
      NaN), and [Q] (the same formulas without rounding, used for the
      algebraic laws of the estimator).
    - Scalars.  Python distinguishes the built-in [float] from NumPy's
      [float64], which is what indexing a pandas object yields.  The two
      differ on division by zero, so a scalar carries its kind.
    - Errors.  A raised exception is a value of [exn]; pure code lives in
      the error monad [result].
    - Effects.  Network access, the environment, the clock and standard
      output are modelled by a read-only [World] of oracles and a trace of
      [event]s; effectful code lives in the monad [M]. *)

From Stdlib Require Import ZArith NArith QArith List String Ascii Bool.
From Stdlib Require Import Lia Lqa Qpower DecimalString SpecFloat.
From ExtLib Require Import Structures.Monad.
Import ListNotations.
Import MonadNotation.
Local Open Scope monad_scope.
Local Open Scope Z_scope.
Local Open Scope list_scope.

Notation "a +++ b" := (String.append a b) (at level 60, right associativity).

(** ** Python run-time: exceptions and results *)

(** The exceptions the script can meet.  All of them derive from
    [Exception].  [OtherError] stands for an exception raised inside a
    library call (requests, pandas, yfinance), named by its class. *)
Inductive exn : Type :=
| ZeroDivisionError
| KeyError (key : string)
| IndexError
| ValueError
| OtherError (cls : string) (msg : string).

Definition exc_name (e : exn) : string :=
  match e with
  | ZeroDivisionError => "ZeroDivisionError"
  | KeyError _ => "KeyError"
  | IndexError => "IndexError"
  | ValueError => "ValueError"
  | OtherError cls _ => cls
  end.

Inductive result (A : Type) : Type :=
| Ok (a : A)
| Raise (e : exn).
Arguments Ok {A} a.
Arguments Raise {A} e.

#[export] Instance Monad_result : Monad result :=
  {| ret := fun _ a => Ok a;
     bind := fun _ _ c k => match c with Ok a => k a | Raise e => Raise e end |}.

Definition of_option {A} (o : option A) (e : exn) : result A :=
  match o with Some a => Ok a | None => Raise e end.

Fixpoint mapM_result {A B} (f : A -> result B) (l : list A) : result (list B) :=
  match l with
  | [] => Ok []
  | a :: r => b <- f a ;; bs <- mapM_result f r ;; ret (b :: bs)
  end.

(** ** Dictionaries

    A Python [dict] (and the label index of a pandas object) keeps its
    keys in insertion order; assigning to an existing key keeps its
    position. *)
Definition dict (V : Type) : Type := list (string * V).

Fixpoint dict_get {V} (d : dict V) (k : string) : option V :=
  match d with
  | [] => None
  | (k', v) :: r => if String.eqb k k' then Some v else dict_get r k
  end.

Fixpoint dict_set {V} (k : string) (v : V) (d : dict V) : dict V :=
  match d with
  | [] => [(k, v)]
  | (k', v') :: r =>
      if String.eqb k k' then (k', v) :: r else (k', v') :: dict_set k v r
  end.

Definition keys {V} (d : dict V) : list string := map fst d.

(** [d[k]]: a missing key raises [KeyError]. *)
Definition getitem {V} (d : dict V) (k : string) : result V :=
  of_option (dict_get d k) (KeyError k).

(** ** Numbers *)

(** What a number looks like to the decimal formatter and to the zero
    test: not-a-number, a signed infinity, or a signed exact fraction. *)
Inductive decimal_view : Type :=
| VNaN
| VInf (neg : bool)
| VFin (neg : bool) (num : N) (den : positive).

Class Arith (F : Type) : Type := {
  fadd : F -> F -> F;
  fsub : F -> F -> F;
  fmul : F -> F -> F;
  fdiv : F -> F -> F;
  (** [fdec m k] is the literal [m / 10^k] as the reader of the language
      produces it. *)
  fdec : Z -> N -> F;
  fview : F -> decimal_view
}.

(** *** Binary64 *)

Definition prec64 : Z := 53.
Definition emax64 : Z := 1024.

Definition Z2B64 (z : Z) : spec_float := binary_normalize prec64 emax64 z 0 false.

Definition view_b64 (x : spec_float) : decimal_view :=
  match x with
  | S754_nan => VNaN
  | S754_infinity s => VInf s
  | S754_zero s => VFin s 0%N 1%positive
  | S754_finite s m e =>
      match e with
      | Zneg p => VFin s (Npos m) (Pos.pow 2 p)
      | _ => VFin s (Z.to_N (Zpos m * 2 ^ e)) 1%positive
      end
  end.

(** A decimal literal with at most 15 significant digits and at most 22
    decimal places is the correctly rounded quotient of two integers that
    binary64 holds exactly. *)
#[export] Instance Binary64 : Arith spec_float :=
  {| fadd := SFadd prec64 emax64;
     fsub := SFsub prec64 emax64;
     fmul := SFmul prec64 emax64;
     fdiv := SFdiv prec64 emax64;
     fdec := fun m k => SFdiv prec64 emax64 (Z2B64 m) (Z2B64 (10 ^ Z.of_N k));
     fview := view_b64 |}.

(** *** Exact rationals: the same formulas without rounding.  Division by
    zero has no meaning here ([Qdiv] returns 0); every statement made at
    this carrier excludes it. *)
#[export] Instance Exact : Arith Q :=
  {| fadd := Qplus;
     fsub := Qminus;
     fmul := Qmult;
     fdiv := Qdiv;
     fdec := fun m k => Qmake m (Z.to_pos (10 ^ Z.of_N k));
     fview := fun q => VFin (Qnum q <? 0) (Z.abs_N (Qnum q)) (Qden q) |}.

Section Program.

Context {F : Type} {AF : Arith F}.

(** [x == 0.0] and [x != x]. *)
Definition is_zero (x : F) : bool :=
  match fview x with VFin _ 0%N _ => true | _ => false end.

Definition is_nan (x : F) : bool :=
  match fview x with VNaN => true | _ => false end.

(** *** Scalars: [float] and [numpy.float64] *)
Inductive scalar : Type :=
| PyFloat (x : F)
| NpFloat64 (x : F).

Definition raw (a : scalar) : F :=
  match a with PyFloat x => x | NpFloat64 x => x end.

Definition is_np (a : scalar) : bool :=
  match a with PyFloat _ => false | NpFloat64 _ => true end.

Definition wrap (np : bool) (x : F) : scalar :=
  if np then NpFloat64 x else PyFloat x.

(** [float(a)]. *)
Definition py_float (a : scalar) : scalar := PyFloat (raw a).

(** [a + b], [a - b], [a * b]: NumPy's operator is chosen as soon as one
    operand is a [float64] ([float64] subclasses [float], so its reflected
    method has priority); the value is the IEEE result either way. *)
Definition py_add (a b : scalar) : scalar :=
  wrap (is_np a || is_np b) (fadd (raw a) (raw b)).
Definition py_sub (a b : scalar) : scalar :=
  wrap (is_np a || is_np b) (fsub (raw a) (raw b)).
Definition py_mul (a b : scalar) : scalar :=
  wrap (is_np a || is_np b) (fmul (raw a) (raw b)).

(** [a / b]: [float.__truediv__] raises [ZeroDivisionError] on a zero
    divisor; NumPy's scalar division only warns and returns the IEEE
    result (an infinity or NaN). *)
Definition py_truediv (a b : scalar) : result scalar :=
  match a, b with
  | PyFloat x, PyFloat y =>
      if is_zero y then Raise ZeroDivisionError else Ok (PyFloat (fdiv x y))
  | _, _ => Ok (NpFloat64 (fdiv (raw a) (raw b)))
  end.

(** *** pandas objects

    A [DataFrame] of [float64] columns over a shared row index of
    [df_len] dates; a column and a row are both label-indexed. *)
Record DataFrame : Type := { df_len : nat; df_cols : dict (list F) }.

(** Every column has one value per row of the index. *)
Definition frame_wf (df : DataFrame) : Prop :=
  Forall (fun c => List.length (snd c) = df_len df) (df_cols df).

(** [df[labels]]: the listed columns, in the listed order. *)
Definition select_columns (df : DataFrame) (labels : list string)
  : result DataFrame :=
  cols <- mapM_result (fun l => col <- getitem (df_cols df) l ;; ret (l, col)) labels ;;
  ret {| df_len := df_len df; df_cols := cols |}.

(** [.ffill()] along the date axis: a NaN takes the last value seen
    above it; a NaN with nothing above it stays. *)
Fixpoint ffill_from (last : option F) (col : list F) : list F :=
  match col with
  | [] => []
  | x :: r =>
      if is_nan x
      then match last with
           | Some y => y :: ffill_from last r
           | None => x :: ffill_from None r
           end
      else x :: ffill_from (Some x) r
  end.

Definition ffill (col : list F) : list F := ffill_from None col.

Definition ffill_frame (df : DataFrame) : DataFrame :=
  {| df_len := df_len df;
     df_cols := map (fun c => (fst c, ffill (snd c))) (df_cols df) |}.

(** [col.iloc[-k]] for [k >= 1]. *)
Definition iloc_back (col : list F) (k : nat) : result scalar :=
  if (List.length col <? k)%nat then Raise IndexError
  else x <- of_option (nth_error col (List.length col - k)) IndexError ;;
       ret (NpFloat64 x).

(** [df.iloc[-k]] for [k >= 1]: the row as a label-indexed series. *)
Definition iloc_row_back (df : DataFrame) (k : nat) : result (dict scalar) :=
  if (df_len df <? k)%nat then Raise IndexError
  else mapM_result
         (fun c => x <- of_option (nth_error (snd c) (df_len df - k)) IndexError ;;
                   ret (fst c, NpFloat64 x))
         (df_cols df).

(** *** Text *)

Definition nl : string := String (ascii_of_nat 10) EmptyString.

(** ["sep".join(lines)]. *)
Fixpoint join (sep : string) (lines : list string) : string :=
  match lines with
  | [] => EmptyString
  | [l] => l
  | l :: r => l +++ sep +++ join sep r
  end.

Definition str_of_N (n : N) : string := NilEmpty.string_of_uint (N.to_uint n).

Definition str_of_Z (z : Z) : string := NilZero.string_of_int (Z.to_int z).

(** Thousands separators, walking the digits from the right. *)
Fixpoint group_rev (rev_digits : list ascii) (seen : nat) : list ascii :=
  match rev_digits with
  | [] => []
  | c :: r =>
      match seen with
      | 3%nat => ","%char :: c :: group_rev r 1
      | _ => c :: group_rev r (S seen)
      end
  end.

Definition group_thousands (digits : string) : string :=
  string_of_list_ascii (rev (group_rev (rev (list_ascii_of_string digits)) 0)).

Fixpoint zeros (n : nat) : string :=
  match n with O => EmptyString | S m => String "0"%char (zeros m) end.

Definition pad_left (width : nat) (s : string) : string :=
  zeros (width - String.length s) +++ s.

(** Nearest integer to [num / den], ties to even. *)
Definition round_half_even (num : N) (den : positive) : N :=
  let q := (num / Npos den)%N in
  let r := (num mod Npos den)%N in
  match (2 * r ?= Npos den)%N with
  | Lt => q
  | Gt => (q + 1)%N
  | Eq => if N.even q then q else (q + 1)%N
  end.

(** The format specifications [.df] and [,.df] ([comma] set) of
    [float.__format__], which [numpy.float64] inherits: the exact value
    rounded to [d] decimals, ties to even. *)
Definition format_view (comma : bool) (d : nat) (v : decimal_view) : string :=
  match v with
  | VNaN => "nan"
  | VInf neg => if neg then "-inf" else "inf"
  | VFin neg num den =>
      let scale := (10 ^ N.of_nat d)%N in
      let n := round_half_even (num * scale)%N den in
      let ip := str_of_N (n / scale)%N in
      let fp := pad_left d (str_of_N (n mod scale)%N) in
      (if neg then "-" else "") +++
      (if comma then group_thousands ip else ip) +++
      match d with O => "" | _ => "." +++ fp end
  end.

Definition format_float (comma : bool) (d : nat) (a : scalar) : string :=
  format_view comma d (fview (raw a)).

(** ** The outside world *)

Inductive cell : Type :=
| CellNum (x : F)
| CellStr (s : string).

#[warnings="-register-all"]
Inductive json : Type :=
| JStr (s : string)
| JArr (items : list json)
| JObj (fields : list (string * json)).

(** What a run does to the outside, in order. *)
Inductive event : Type :=
| EvGet (url : string)
| EvDownload (symbols : list string) (start stop : Z)
| EvPrint (text : string)
| EvPost (url : string) (headers : dict string) (data : string).

(** What the outside answers.  A library call that fails answers with
    the exception it raises. *)
Record World : Type := {
  (** [datetime.now()], in seconds. *)
  now : Z;
  (** [requests.get(url)], decoded as Shift-JIS and read by
      [pandas.read_csv]: the rows of the table, oldest first. *)
  get_csv : string -> result (list (dict cell));
  (** [float(s)] on text. *)
  float_of_str : string -> option F;
  (** [yfinance.download(symbols, start, end)["Close"]]. *)
  download_close : list string -> Z -> Z -> result DataFrame;
  (** [os.getenv(name)]. *)
  getenv : string -> option string;
  (** [requests.post(url, headers, data)]: status code and body. *)
  post : string -> dict string -> string -> result (Z * string);
  (** [json.dumps]. *)
  json_dumps : json -> string;
  (** [traceback.format_exc()] while the given exception is handled. *)
  format_exc : exn -> string
}.

(** Effectful code: reads the world, returns or raises, and leaves a
    trace. *)
Definition M (A : Type) : Type := World -> result A * list event.

#[export] Instance Monad_M : Monad M :=
  {| ret := fun _ a => fun _ => (Ok a, []);
     bind := fun _ _ c k => fun w =>
       match c w with
       | (Ok a, t) => let (r, t') := k a w in (r, t ++ t')
       | (Raise e, t) => (Raise e, t)
       end |}.

Definition lift {A} (r : result A) : M A := fun _ => (r, []).
Definition ask {A} (f : World -> A) : M A := fun w => (Ok (f w), []).
Definition call {A} (f : World -> result A) : M A := fun w => (f w, []).
Definition emit (e : event) : M unit := fun _ => (Ok tt, [e]).
(** [print(text)], on a standard output that takes the text. *)
Definition print (text : string) : M unit := emit (EvPrint text).

(** [try: body except Exception as e: handler e]. *)
Definition try_except {A} (body : M A) (handler : exn -> M A) : M A :=
  fun w =>
    match body w with
    | (Ok a, t) => (Ok a, t)
    | (Raise e, t) => let (r, t') := handler e w in (r, t ++ t')
    end.

(** [float(c)] on a cell of the reference table. *)
Definition float_of_cell (c : cell) : M scalar :=
  match c with
  | CellNum x => ret (PyFloat x)
  | CellStr s =>
      o <- ask (fun w => float_of_str w s) ;;
      lift (of_option (option_map PyFloat o) ValueError)
  end.

(** [rows.iloc[-1]]. *)
Definition last_row {A} (rows : list A) : result A :=
  of_option (nth_error rows (List.length rows - 1)) IndexError.

(** *** Section 1 of the script: the reference feed *)
Definition fetch_daiwa_csv_last_row (fund_code : string) : M (dict cell) :=
  let url := "https://www.daiwa-am.co.jp/funds/detail/csv_out.php?code="
             +++ fund_code +++ "&type=1" in
  emit (EvGet url) ;;
  df <- call (fun w => get_csv w url) ;;
  lift (last_row df).

Section Script.

(** *** Section 2 of the script: the weight table, a module-level
    constant there and a parameter here; the shipped table is [WEIGHTS]
    below. *)
Variable WEIGHTS : dict F.

Definition TICKERS : list string := keys WEIGHTS.

(** *** Section 3 of the script: market data *)
Definition get_prices_and_fx : M (DataFrame * list F) :=
  stop <- ask now ;;
  let start := stop - 7 * 86400 in
  let symbols := TICKERS ++ ["USDJPY=X"%string] in
  emit (EvDownload symbols start stop) ;;
  close <- call (fun w => download_close w symbols start stop) ;;
  prices <- lift (select_columns close TICKERS) ;;
  fx <- lift (getitem (df_cols close) "USDJPY=X") ;;
  ret (ffill_frame prices, ffill fx).

(** *** Section 4 of the script: [estimate_shares] *)

(** The body of [for ticker, weight in WEIGHTS.items()]. *)
Fixpoint estimate_shares_loop (previous_nav : scalar) (prev_prices : dict scalar)
  (prev_fx : scalar) (items : dict F) (shares : dict scalar)
  : result (dict scalar) :=
  match items with
  | [] => Ok shares
  | (ticker, weight) :: rest =>
      usd_value <- py_truediv (py_mul previous_nav (PyFloat weight)) prev_fx ;;
      price <- getitem prev_prices ticker ;;
      s <- py_truediv usd_value price ;;
      estimate_shares_loop previous_nav prev_prices prev_fx rest
        (dict_set ticker s shares)
  end.

Definition estimate_shares (previous_nav previous_base_price : scalar)
  (prev_prices : dict scalar) (prev_fx : scalar)
  : result (dict scalar * scalar) :=
  units <- py_truediv previous_nav previous_base_price ;;
  shares <- estimate_shares_loop previous_nav prev_prices prev_fx WEIGHTS [] ;;
  ret (shares, units).

(** *** Section 5 of the script: [calculate_today_nav]

    The function is cut at its stages: reading the inputs (lines 72-76),
    the revaluation (lines 86-89 and the two changes of lines 95-96) and
    the rendering (lines 91-104); lines 78-104 touch nothing outside. *)

(** The summands of [sum(shares[t] * last_prices[t] for t in TICKERS)],
    each with the ticker it belongs to. *)
Definition nav_terms (shares last_prices : dict scalar)
  : result (list (string * scalar)) :=
  mapM_result
    (fun t => s <- getitem shares t ;;
              p <- getitem last_prices t ;;
              ret (t, py_mul s p))
    TICKERS.

(** [sum(xs)]: the integer start value [0] enters the first addition as
    [0.0], and the additions run left to right (the summands of the
    script are NumPy values, which the built-in adds one by one). *)
Definition py_sum (xs : list scalar) : scalar :=
  fold_left py_add xs (PyFloat (fdec 0 0)).

(** Estimated base price, absolute change and percentage change. *)
Definition nav_projector (shares : dict scalar) (units : scalar)
  (last_prices : dict scalar) (last_fx previous_base_price : scalar)
  : result (scalar * scalar * scalar) :=
  terms <- nav_terms shares last_prices ;;
  let total_usd := py_sum (map snd terms) in
  let total_jpy := py_mul total_usd last_fx in
  estimated_base_price <- py_truediv total_jpy units ;;
  let diff := py_sub estimated_base_price previous_base_price in
  ratio <- py_truediv diff previous_base_price ;;
  ret (estimated_base_price, diff, py_mul ratio (PyFloat (fdec 100 0))).

Definition report_title : string := "📈【FANG+ 推定基準価額（最新構成銘柄版）】".

(** The lines of the report. *)
Definition report_lines (previous_base_price estimated_base_price diff pct
  prev_fx last_fx : scalar) (shares : dict scalar) : result (list string) :=
  holdings <- mapM_result
                (fun t => s <- getitem shares t ;;
                          ret (t +++ ": " +++ format_float true 1 s +++ "株"))
                TICKERS ;;
  ret ([ report_title;
         "前日基準価額: " +++ format_float true 2 previous_base_price +++ " 円";
         "推定基準価額: " +++ format_float true 2 estimated_base_price +++ " 円";
         "前日比: " +++ format_float true 2 diff +++ " 円 ("
           +++ format_float false 2 pct +++ "%)";
         ""%string;
         "USDJPY: " +++ format_float false 2 prev_fx +++ " → "
           +++ format_float false 2 last_fx;
         nl +++ "保有株数推定：" ] ++ holdings).

Definition format_report (previous_base_price estimated_base_price diff pct
  prev_fx last_fx : scalar) (shares : dict scalar) : result string :=
  msg <- report_lines previous_base_price estimated_base_price diff pct
           prev_fx last_fx shares ;;
  ret (join nl msg).

(** Lines 72-76: what the run reads from the outside. *)
Definition read_inputs : M (scalar * scalar * DataFrame * list F) :=
  row <- fetch_daiwa_csv_last_row "3346" ;;
  c1 <- lift (getitem row "基準価額") ;;
  previous_base_price <- float_of_cell c1 ;;
  c2 <- lift (getitem row "純資産総額") ;;
  previous_nav <- float_of_cell c2 ;;
  pf <- get_prices_and_fx ;;
  ret (previous_base_price, previous_nav, fst pf, snd pf).

(** Lines 78-104: from the inputs to the text of the report. *)
Definition compute_report (previous_base_price previous_nav : scalar)
  (prices : DataFrame) (fx : list F) : result string :=
  prev_prices <- iloc_row_back prices 2 ;;
  last_prices <- iloc_row_back prices 1 ;;
  prev_fx0 <- iloc_back fx 2 ;;
  let prev_fx := py_float prev_fx0 in
  last_fx0 <- iloc_back fx 1 ;;
  let last_fx := py_float last_fx0 in
  su <- estimate_shares previous_nav previous_base_price prev_prices prev_fx ;;
  let (shares, units) := (su : dict scalar * scalar) in
  est <- nav_projector shares units last_prices last_fx previous_base_price ;;
  let '(estimated_base_price, diff, pct) := (est : scalar * scalar * scalar) in
  format_report previous_base_price estimated_base_price diff pct
    prev_fx last_fx shares.

Definition calculate_today_nav : M string :=
  inputs <- read_inputs ;;
  let '(previous_base_price, previous_nav, prices, fx) :=
    (inputs : scalar * scalar * DataFrame * list F) in
  lift (compute_report previous_base_price previous_nav prices fx).

(** *** Section 6 of the script: the notifier *)

Definition skip_notice : string := "❌ LINE の環境変数が設定されていません".

(** [not s] for a value of [os.getenv]. *)
Definition falsy (s : option string) : bool :=
  match s with
  | None | Some EmptyString => true
  | Some (String _ _) => false
  end.

Definition push_url : string := "https://api.line.me/v2/bot/message/push".

Definition send_line_message (text : string) : M unit :=
  token <- ask (fun w => getenv w "LINE_CHANNEL_ACCESS_TOKEN") ;;
  user_id <- ask (fun w => getenv w "LINE_TO_USER_ID") ;;
  if falsy token || falsy user_id then print skip_notice
  else
    let token := match token with Some s => s | None => EmptyString end in
    let user_id := match user_id with Some s => s | None => EmptyString end in
    let headers := [ ("Content-Type"%string, "application/json"%string);
                     ("Authorization"%string, "Bearer " +++ token) ] in
    let body := JObj [ ("to"%string, JStr user_id);
                       ("messages"%string,
                        JArr [ JObj [ ("type"%string, JStr "text");
                                      ("text"%string, JStr text) ] ]) ] in
    data <- ask (fun w => json_dumps w body) ;;
    emit (EvPost push_url headers data) ;;
    r <- call (fun w => post w push_url headers data) ;;
    print ("LINE API レスポンス:" +++ " " +++ str_of_Z (fst r) +++ " " +++ snd r).

(** *** Section 7 of the script: [main] *)

Definition error_marker : string := "⚠️ NAV推定でエラー" +++ nl +++ nl.

Definition main : M unit :=
  try_except
    (msg <- calculate_today_nav ;;
     print msg ;;
     send_line_message msg)
    (fun e =>
       trace <- ask (fun w => format_exc w e) ;;
       let error_text := error_marker +++ trace in
       print error_text ;;
       send_line_message error_text).

End Script.

End Program.

(** The weight table shipped with the script. *)
Definition WEIGHTS {F : Type} {AF : Arith F} : dict F :=
  [ ("CRWD"%string, fdec 1110 4);
    ("NVDA"%string, fdec 1100 4);
    ("AAPL"%string, fdec 1050 4);
    ("GOOGL"%string, fdec 1040 4);
    ("AVGO"%string, fdec 1000 4);
    ("MSFT"%string, fdec 950 4);
    ("NOW"%string, fdec 910 4);
    ("AMZN"%string, fdec 890 4);
    ("NFLX"%string, fdec 820 4);
    ("META"%string, fdec 790 4) ].

(** ** Notions used in the statements *)

Section Notions.

Context {F : Type} {AF : Arith F}.

(** The share count the loop body stores for a holding of weight [w]
    priced [p]. *)
Definition implied_shares (nav fx w : F) (p : @scalar F) : @scalar F :=
  wrap (is_np p) (fdiv (fdiv (fmul nav w) fx) (raw p)).

(** The no-change scenario of the pipeline: the shares are estimated and
    then revalued at the very prices and FX rate they were estimated
    from. *)
Definition no_change_estimate (WEIGHTS : dict F) (previous_nav
  previous_base_price : scalar) (prices : dict scalar) (fx : scalar)
  : result scalar :=
  su <- estimate_shares WEIGHTS previous_nav previous_base_price prices fx ;;
  est <- nav_projector WEIGHTS (fst su) (snd su) prices fx previous_base_price ;;
  ret (fst (fst est)).

End Notions.

(** ** A concrete run over binary64, used to evaluate the model *)

Module Sample.

Definition b64 (m : Z) (k : N) : spec_float := fdec m k.

(** A pandas row giving every shipped ticker the same price. *)
Definition flat_row (x : spec_float) : dict (@scalar spec_float) :=
  map (fun t => (t, NpFloat64 x)) (TICKERS WEIGHTS).

Definition nav : @scalar spec_float := PyFloat (b64 1000000000 0).
Definition base : @scalar spec_float := PyFloat (b64 10000 0).
Definition usdjpy : @scalar spec_float := PyFloat (b64 150 0).

(** The last row of the reference table. *)
Definition reference_row : dict (@cell spec_float) :=
  [ ("基準価額"%string, CellNum (b64 10000 0));
    ("純資産総額"%string, CellNum (b64 1000000000 0)) ].

(** Closing prices: every ticker at the listed closes, USDJPY at the
    listed rates, one entry per date. *)
Definition close_frame (closes rates : list spec_float) : @DataFrame spec_float :=
  {| df_len := List.length closes;
     df_cols := map (fun t => (t, closes)) (TICKERS (F:=spec_float) WEIGHTS)
                ++ [("USDJPY=X"%string, rates)] |}.

Definition no_credentials (name : string) : option string := None.

Definition credentials (name : string) : option string :=
  if String.eqb name "LINE_CHANNEL_ACCESS_TOKEN" then Some "token"%string
  else if String.eqb name "LINE_TO_USER_ID" then Some "user"%string
  else None.

Definition world (feed : result (list (dict (@cell spec_float))))
  (close : result (@DataFrame spec_float)) (env : string -> option string)
  : @World spec_float :=
  {| now := 1762128000;
     get_csv := fun _ => feed;
     float_of_str := fun _ => None;
     download_close := fun _ _ _ => close;
     getenv := env;
     post := fun _ _ _ => Ok (200, "{}"%string);
     json_dumps := fun _ => "{...}"%string;
     format_exc := fun e => "Traceback (most recent call last): " +++ exc_name e |}.

(** The float that follows 160.0, and the one that follows 100.0. *)
Definition after_160 : spec_float := S754_finite false 5629499534213121 (-45).
Definition after_100 : spec_float := S754_finite false 7036874417766401 (-46).

(** The previous prices with one holding quoted at zero. *)
Definition zero_price_row : dict (@scalar spec_float) :=
  dict_set "CRWD" (NpFloat64 (b64 0 0)) (flat_row (b64 100 0)).

(** The latest prices with one holding one float above 100.0. *)
Definition bumped_row : dict (@scalar spec_float) :=
  dict_set "CRWD" (NpFloat64 after_100) (flat_row (b64 100 0)).

(** Two trading days, with credentials. *)
Definition good_world : @World spec_float :=
  world (Ok [reference_row])
        (Ok (close_frame [b64 100 0; b64 101 0] [b64 150 0; b64 151 0]))
        credentials.

(** A single trading day in the window, no credentials. *)
Definition thin_world : @World spec_float :=
  world (Ok [reference_row])
        (Ok (close_frame [b64 100 0] [b64 150 0]))
        no_credentials.

(** The reference feed cannot be reached. *)
Definition offline : exn := OtherError "ConnectionError" "Max retries exceeded".

Definition offline_world : @World spec_float :=
  world (Raise offline)
        (Ok (close_frame [b64 100 0; b64 101 0] [b64 150 0; b64 151 0]))
        credentials.

(** The same scenario over exact rationals. *)
Definition exact_row (x : Q) : dict (@scalar Q) :=
  map (fun t => (t, NpFloat64 x)) (TICKERS (F:=Q) WEIGHTS).

End Sample.

(** The sum of a list of rationals. *)
Definition Qsum (l : list Q) : Q := fold_right Qplus (0#1) l.

(** ** Binary64 rounding, read on exact values

    [SpecFloat] rounds by shifting a mantissa to the right while it keeps
    a round bit and a sticky bit.  The notions below say what that
    computes: the nearest multiple of the unit of the format, ties to
    even, of an exact dyadic fraction. *)

(** The record [(m, r, s)] stands for the fraction [a / b]: [m] is its
    integer part, [r] tells whether the rest reaches one half, [s]
    whether the rest is neither zero nor one half. *)
Definition stands_for (mrs : shr_record) (a b : Z) : Prop :=
  0 <= a /\ 0 < b
  /\ shr_m mrs = a / b
  /\ shr_r mrs = (b <=? 2 * (a mod b))
  /\ shr_s mrs = negb (a mod b =? 0) && negb (2 * (a mod b) =? b).

Definition rne (a b : Z) : Z :=
  match 2 * (a mod b) ?= b with
  | Lt => a / b
  | Eq => if Z.even (a / b) then a / b else a / b + 1
  | Gt => a / b + 1
  end.

Definition fexp64 (e : Z) : Z := fexp prec64 emax64 e.

(** From the rounded mantissa [q] at exponent [E] to the float. *)
Definition finish (q E : Z) : spec_float :=
  if q =? 0 then S754_zero false
  else if q =? 2 ^ 53
       then if E + 1 <=? 971
            then S754_finite false (Z.to_pos (2 ^ 52)) (E + 1)
            else S754_infinity false
       else if E <=? 971
            then S754_finite false (Z.to_pos q) E
            else S754_infinity false.

(** A dyadic fraction [(a / b) * 2^e] ready for rounding: the exponent of
    its format is not below [e]. *)
Definition roundable (a b e : Z) : Prop :=
  0 <= a /\ 0 < b /\ e <= fexp64 (Zdigits2 (a / b) + e).

(** The exponent of the format and the rounded mantissa. *)
Definition target (a b e : Z) : Z := fexp64 (Zdigits2 (a / b) + e).
Definition mantissa (a b e : Z) : Z := rne a (b * 2 ^ (target a b e - e)).

(** [(a1 / b1) * 2^e1 <= (a2 / b2) * 2^e2], in integers. *)
Definition value_le (a1 b1 e1 a2 b2 e2 : Z) : Prop :=
  a1 * b2 * 2 ^ (e1 - Z.min e1 e2) <= a2 * b1 * 2 ^ (e2 - Z.min e1 e2).

(** A positive finite binary64 number in canonical form. *)
Definition pos_finite (x : spec_float) : bool :=
  match x with
  | S754_finite false m e => bounded prec64 emax64 m e
  | _ => false
  end.

(** Zero, a positive finite number, or plus infinity. *)
Definition nonneg (x : spec_float) : bool :=
  match x with
  | S754_zero false => true
  | S754_infinity false => true
  | S754_finite false m e => bounded prec64 emax64 m e
  | _ => false
  end.

(** ** Rounding errors, read on exact values

    Away from overflow and from the subnormal range, one binary64
    operation returns its exact result times a factor between
    [1 - 2^-53] and [1 / (1 - 2^-53)].  The notions below count such
    factors along a computation. *)

(** The value of a float (zero for what is not a finite number). *)
Definition B2Q (x : spec_float) : Q :=
  match x with
  | S754_finite s m e => (inject_Z (cond_Zopp s (Zpos m)) * 2 ^ e)%Q
  | _ => 0%Q
  end.

(** One rounding keeps at least the fraction [1 - 2^-53] of a value. *)
Definition keep : Q := (9007199254740991 # 9007199254740992)%Q.

(** [q] to the power [n]. *)
Fixpoint qpow (q : Q) (n : nat) : Q :=
  match n with
  | O => 1%Q
  | S k => (q * qpow q k)%Q
  end.

(** [x] is [v] up to [k] roundings: each of the two is at least
    [(1 - 2^-53)^k] times the other. *)
Definition near (k : nat) (v x : Q) : Prop :=
  (qpow keep k * v <= x)%Q /\ (qpow keep k * x <= v)%Q.

(** [x] is a positive canonical float whose exponent lies between [lo] and
    [hi] and whose value is [v] up to [k] roundings. *)
Definition approx (k : nat) (lo hi : Z) (v : Q) (x : spec_float) : Prop :=
  exists m e, x = S754_finite false m e /\ bounded prec64 emax64 m e = true
    /\ (lo <= e <= hi)%Z /\ near k v (B2Q x).

(** A positive normal binary64 number between [2^-100] and [2^101]: far
    enough from both ends of the format for the pipeline, on a table of at
    most 100 holdings, to neither overflow nor lose precision to
    underflow. *)
Definition moderate (x : spec_float) : bool :=
  match x with
  | S754_finite false m e => bounded prec64 emax64 m e && (-152 <=? e)%Z && (e <=? 48)%Z
  | _ => false
  end.

(** ** Notions used in the further properties *)

(** The address [fetch_daiwa_csv_last_row] requests for a fund code. *)
Definition reference_url (fund_code : string) : string :=
  "https://www.daiwa-am.co.jp/funds/detail/csv_out.php?code=" +++ fund_code +++ "&type=1".

(** The headers and the body [send_line_message] posts. *)
Definition push_headers (token : string) : dict string :=
  [ ("Content-Type"%string, "application/json"%string);
    ("Authorization"%string, "Bearer " +++ token) ].

Definition push_body (user_id text : string) : json :=
  JObj [ ("to"%string, JStr user_id);
         ("messages"%string,
          JArr [ JObj [ ("type"%string, JStr "text");
                        ("text"%string, JStr text) ] ]) ].

(** The column of a frame, empty when the label is absent. *)
Definition column {F : Type} (df : @DataFrame F) (l : string) : list F :=
  match dict_get (df_cols df) l with Some c => c | None => [] end.

(** The frame with [k] older rows in front of every column. *)
Definition with_older_rows {F : Type} (k : nat) (older : string -> list F)
  (df : @DataFrame F) : @DataFrame F :=
  {| df_len := k + df_len df;
     df_cols := map (fun c => (fst c, older (fst c) ++ snd c)) (df_cols df) |}.

(** The exceptions the computation of lines 78-104 can raise. *)
Definition computation_error (e : exn) : Prop :=
  e = IndexError \/ e = ZeroDivisionError \/ exists k, e = KeyError k.

(** The observation [k] rows before the end is missing: a held ticker, or
    the FX series, has NaN there. *)
Definition observation_missing {F : Type} {AF : Arith F} (prices : @DataFrame F)
  (fx : list F) (k : nat) : Prop :=
  (exists t col x,
      dict_get (df_cols prices) t = Some col
      /\ nth_error col (df_len prices - k) = Some x /\ is_nan x = true)
  \/ (exists x, nth_error fx (List.length fx - k) = Some x /\ is_nan x = true).

(** ** Further concrete cases *)

Module Cases.

Import Sample.

(** Closing prices of the held tickers alone, every ticker at the listed
    closes. *)
Definition price_frame (closes : list spec_float) : @DataFrame spec_float :=
  {| df_len := List.length closes;
     df_cols := map (fun t => (t, closes)) (TICKERS (F:=spec_float) WEIGHTS) |}.

(** A feed, a market and credentials as in [good_world], with a push
    endpoint that cannot be reached. *)
Definition down_world : @World spec_float :=
  {| now := 1762128000;
     get_csv := fun _ => Ok [reference_row];
     float_of_str := fun _ => None;
     download_close := fun _ _ _ =>
       Ok (close_frame [b64 100 0; b64 101 0] [b64 150 0; b64 151 0]);
     getenv := credentials;
     post := fun _ _ _ => Raise offline;
     json_dumps := fun _ => "{...}"%string;
     format_exc := fun e => "Traceback (most recent call last): " +++ exc_name e |}.

(** Two trading days, the first without a quote for any ticker. *)
Definition gap_world : @World spec_float :=
  world (Ok [reference_row])
        (Ok (close_frame [S754_nan; b64 101 0] [b64 150 0; b64 151 0]))
        credentials.

(** The report of [good_world] and of [down_world]. *)
Definition report : string :=
  match fst (calculate_today_nav WEIGHTS good_world) with
  | Ok msg => msg
  | Raise _ => EmptyString
  end.

(** A table of two holdings. *)
Definition two_holdings : dict spec_float :=
  [("A"%string, b64 5 1); ("B"%string, b64 5 1)].

Definition two_prices (a b : spec_float) : dict (@scalar spec_float) :=
  [("A"%string, NpFloat64 a); ("B"%string, NpFloat64 b)].

End Cases.

(** * Properties *)

(** ** Dictionaries *)

Section DictFacts.

Context {V : Type}.

Lemma dict_set_fresh (k : string) (v : V) (d : dict V) :
  ~ In k (keys d) -> dict_set k v d = d ++ [(k, v)].
Proof.
  induction d as [|[k' v'] d IH]; simpl; intros Hk; [reflexivity|].
  destruct (String.eqb_spec k k') as [->|Hne].
  - exfalso. apply Hk. now left.
  - rewrite IH; [reflexivity|]. intros Hin. apply Hk. now right.
Qed.

Lemma dict_get_None (d : dict V) (k : string) :
  ~ In k (keys d) -> dict_get d k = None.
Proof.
  induction d as [|[k' v'] d IH]; simpl; intros Hk; [reflexivity|].
  destruct (String.eqb_spec k k') as [->|Hne].
  - exfalso. apply Hk. now left.
  - apply IH. intros Hin. apply Hk. now right.
Qed.

Lemma dict_get_In (d : dict V) (k : string) (v : V) :
  NoDup (keys d) -> In (k, v) d -> dict_get d k = Some v.
Proof.
  induction d as [|[k' v'] d IH]; simpl; intros Hnd Hin; [contradiction|].
  inversion Hnd as [|? ? Hfresh Hnd']; subst.
  destruct Hin as [Heq|Hin].
  - inversion Heq; subst. now rewrite String.eqb_refl.
  - destruct (String.eqb_spec k k') as [->|Hne]; [|now apply IH].
    exfalso. apply Hfresh. change k' with (fst (k', v)). now apply in_map.
Qed.

Lemma dict_get_Some_In (d : dict V) (k : string) (v : V) :
  dict_get d k = Some v -> In (k, v) d.
Proof.
  induction d as [|[k' v'] d IH]; simpl; [discriminate|].
  destruct (String.eqb_spec k k') as [->|Hne]; intros H.
  - inversion H; subst. now left.
  - right. now apply IH.
Qed.

Lemma dict_get_app (d1 d2 : dict V) (k : string) :
  dict_get (d1 ++ d2) k =
  match dict_get d1 k with Some v => Some v | None => dict_get d2 k end.
Proof.
  induction d1 as [|[k' v'] d1 IH]; simpl; [reflexivity|].
  now destruct (String.eqb k k').
Qed.

Lemma keys_app (d1 d2 : dict V) : keys (d1 ++ d2) = keys d1 ++ keys d2.
Proof. unfold keys. apply map_app. Qed.

End DictFacts.

(** ** The error monad *)

Lemma mapM_result_keys {A B} (f : A -> result (string * B)) (g : A -> string)
  (l : list A) (out : list (string * B)) :
  (forall a b, f a = Ok b -> fst b = g a) ->
  mapM_result f l = Ok out -> map fst out = map g l.
Proof.
  intros Hf. revert out.
  induction l as [|a l IH]; simpl; intros out H.
  - inversion H. reflexivity.
  - destruct (f a) as [b|e] eqn:Ea; [|discriminate].
    destruct (mapM_result f l) as [bs|e] eqn:El; [|discriminate].
    inversion H; subst. simpl. now rewrite (Hf _ _ Ea), (IH bs).
Qed.

(** ** The share estimator *)

Section EstimatorFacts.

Context {F : Type} {AF : Arith F}.

Lemma py_truediv_nonzero (a b : scalar) :
  is_zero (raw b) = false ->
  py_truediv a b = Ok (wrap (is_np a || is_np b) (fdiv (raw a) (raw b))).
Proof.
  intros Hb. destruct a as [x|x], b as [y|y]; simpl in *; try reflexivity.
  now rewrite Hb.
Qed.

(** A division does not raise when the divisor is a NumPy value or is
    not zero. *)
Lemma py_truediv_ok (a b : scalar) :
  is_np b = true \/ is_zero (raw b) = false ->
  py_truediv a b = Ok (wrap (is_np a || is_np b) (fdiv (raw a) (raw b))).
Proof.
  intros [Hb|Hb]; [|now apply py_truediv_nonzero].
  destruct a as [x|x], b as [y|y]; simpl in *; try reflexivity. discriminate.
Qed.

Lemma py_truediv_numpy (a : scalar) (y : F) :
  py_truediv a (NpFloat64 y) = Ok (NpFloat64 (fdiv (raw a) y)).
Proof. now destruct a. Qed.

Lemma py_truediv_zero (x y : F) :
  is_zero y = true -> py_truediv (PyFloat x) (PyFloat y) = Raise ZeroDivisionError.
Proof. intros Hy. simpl. now rewrite Hy. Qed.

Lemma estimate_shares_loop_ok (nav fx : F) (prices : dict scalar) :
  is_zero fx = false ->
  forall (items : dict F) (acc : dict scalar),
    NoDup (keys items) ->
    (forall h, In h (keys items) -> ~ In h (keys acc)) ->
    (forall h, In h (keys items) ->
       exists p, dict_get prices h = Some p
                 /\ (is_np p = true \/ is_zero (raw p) = false)) ->
    exists new,
      estimate_shares_loop (PyFloat nav) prices (PyFloat fx) items acc
        = Ok (acc ++ new)
      /\ keys new = keys items
      /\ forall h w p, In (h, w) items -> dict_get prices h = Some p ->
           dict_get new h = Some (implied_shares nav fx w p).
Proof.
  intros Hfx. induction items as [|[h w] items IH]; intros acc Hnd Hfresh Hpr.
  - exists []. simpl. rewrite app_nil_r. repeat split. intros ? ? ? [].
  - inversion Hnd as [|? ? Hh Hnd']; subst.
    destruct (Hpr h (or_introl eq_refl)) as [p [Hget Hnz]].
    cbn [estimate_shares_loop].
    rewrite (py_truediv_nonzero _ (PyFloat fx) Hfx). cbn [bind Monad_result].
    unfold getitem. rewrite Hget. cbn [of_option bind Monad_result].
    rewrite (py_truediv_ok _ p Hnz). cbn [bind Monad_result].
    change (wrap _ _) with (implied_shares nav fx w p).
    rewrite dict_set_fresh by (apply Hfresh; now left).
    destruct (IH (acc ++ [(h, implied_shares nav fx w p)])) as [new [Hrun [Hkeys Hval]]].
    + exact Hnd'.
    + intros k Hk Hin. rewrite keys_app in Hin. apply in_app_or in Hin.
      destruct Hin as [Hin|[<-|[]]].
      * apply (Hfresh k); [now right|exact Hin].
      * now apply Hh.
    + intros k Hk. apply Hpr. now right.
    + exists ((h, implied_shares nav fx w p) :: new). split; [|split].
      * rewrite Hrun. now rewrite <- app_assoc.
      * simpl. now rewrite Hkeys.
      * intros k w' p' [Heq|Hin] Hk.
        -- inversion Heq; subst. simpl. rewrite String.eqb_refl.
           rewrite Hget in Hk. now inversion Hk.
        -- simpl. destruct (String.eqb_spec k h) as [->|Hne].
           ++ exfalso. apply Hh. change h with (fst (h, w')). now apply in_map.
           ++ now apply Hval.
Qed.

Lemma estimate_shares_ok (WEIGHTS : dict F) (nav base fx : F)
  (prev_prices : dict scalar) :
  NoDup (keys WEIGHTS) ->
  is_zero base = false ->
  is_zero fx = false ->
  (forall h, In h (keys WEIGHTS) ->
     exists p, dict_get prev_prices h = Some p
               /\ (is_np p = true \/ is_zero (raw p) = false)) ->
  exists shares,
    estimate_shares WEIGHTS (PyFloat nav) (PyFloat base) prev_prices (PyFloat fx)
      = Ok (shares, PyFloat (fdiv nav base))
    /\ keys shares = keys WEIGHTS
    /\ forall h w p, In (h, w) WEIGHTS -> dict_get prev_prices h = Some p ->
         dict_get shares h
           = Some (wrap (is_np p) (fdiv (fdiv (fmul nav w) fx) (raw p))).
Proof.
  intros Hnd Hbase Hfx Hpr.
  destruct (estimate_shares_loop_ok nav fx prev_prices Hfx WEIGHTS [] Hnd)
    as [new [Hrun [Hkeys Hval]]]; [intros ? ? []|exact Hpr|].
  exists new. unfold estimate_shares.
  rewrite (py_truediv_nonzero _ (PyFloat base) Hbase). cbn [bind Monad_result].
  rewrite Hrun. cbn [bind ret Monad_result app]. auto.
Qed.

End EstimatorFacts.

(** ** The NAV projector *)

Section ProjectorFacts.

Context {F : Type} {AF : Arith F}.

Lemma scalar_eta (a : @scalar F) : a = wrap (is_np a) (raw a).
Proof. now destruct a. Qed.

Lemma raw_wrap (b : bool) (x : F) : raw (wrap b x) = x.
Proof. now destruct b. Qed.

Lemma is_np_wrap (b : bool) (x : F) : is_np (wrap b x) = b.
Proof. now destruct b. Qed.

Lemma raw_fold_py_add (xs : list scalar) (acc : scalar) :
  raw (fold_left py_add xs acc) = fold_left fadd (map raw xs) (raw acc).
Proof.
  revert acc. induction xs as [|x xs IH]; intros acc; simpl; [reflexivity|].
  rewrite IH. unfold py_add. now rewrite raw_wrap.
Qed.

Lemma is_np_fold_py_add (xs : list scalar) (acc : scalar) :
  is_np (fold_left py_add xs acc) = is_np acc || existsb is_np xs.
Proof.
  revert acc. induction xs as [|x xs IH]; intros acc; simpl.
  - now rewrite orb_false_r.
  - rewrite IH. unfold py_add. rewrite is_np_wrap. now rewrite orb_assoc.
Qed.

(** The summands, one per listed ticker, when every ticker has a share
    count and a latest price read from a pandas row. *)
Lemma mapM_terms_ok (shares last_prices : dict scalar) (sh pr : string -> F)
  (ts : list string) :
  (forall t, In t ts -> exists s, dict_get shares t = Some s /\ raw s = sh t) ->
  (forall t, In t ts -> dict_get last_prices t = Some (NpFloat64 (pr t))) ->
  exists terms,
    mapM_result
      (fun t => s <- getitem shares t ;;
                p <- getitem last_prices t ;;
                ret (t, py_mul s p)) ts = Ok terms
    /\ map fst terms = ts
    /\ map raw (map snd terms) = map (fun t => fmul (sh t) (pr t)) ts
    /\ existsb is_np (map snd terms) = negb (Nat.eqb (List.length ts) 0).
Proof.
  induction ts as [|t ts IH]; intros Hs Hp.
  - exists []. repeat split.
  - destruct IH as [terms [Hrun [Hk [Hv Hnp]]]].
    + intros u Hu. apply Hs. now right.
    + intros u Hu. apply Hp. now right.
    + destruct (Hs t (or_introl eq_refl)) as [s [Hget Hraw]].
      exists ((t, py_mul s (NpFloat64 (pr t))) :: terms).
      assert (Hgs : getitem shares t = Ok s) by (unfold getitem; now rewrite Hget).
      assert (Hgp : getitem last_prices t = Ok (NpFloat64 (pr t)))
        by (unfold getitem; now rewrite (Hp t (or_introl eq_refl))).
      cbn [mapM_result]. rewrite Hgs, Hgp.
      cbn [bind ret Monad_result] in Hrun |- *. rewrite Hrun.
      repeat split.
      * simpl. now rewrite Hk.
      * simpl. rewrite Hv. unfold py_mul. now rewrite raw_wrap, Hraw.
      * simpl. unfold py_mul at 1. rewrite is_np_wrap. simpl.
        now rewrite orb_true_r.
Qed.

Lemma nav_projector_ok (WEIGHTS : dict F)
  (shares last_prices : dict scalar) (units last_fx previous_base_price : scalar)
  (sh pr : string -> F) :
  WEIGHTS <> [] ->
  is_zero (raw units) = false ->
  (forall t, In t (TICKERS WEIGHTS) ->
     exists s, dict_get shares t = Some s /\ raw s = sh t) ->
  (forall t, In t (TICKERS WEIGHTS) ->
     dict_get last_prices t = Some (NpFloat64 (pr t))) ->
  let total_usd :=
    fold_left fadd (map (fun t => fmul (sh t) (pr t)) (TICKERS WEIGHTS)) (fdec 0 0) in
  let estimated_base_price := fdiv (fmul total_usd (raw last_fx)) (raw units) in
  let diff := fsub estimated_base_price (raw previous_base_price) in
  let pct := fmul (fdiv diff (raw previous_base_price)) (fdec 100 0) in
  nav_projector WEIGHTS shares units last_prices last_fx previous_base_price
    = Ok (NpFloat64 estimated_base_price, NpFloat64 diff, NpFloat64 pct).
Proof.
  intros Hne Hunits Hs Hp total_usd estimated_base_price diff pct.
  destruct (mapM_terms_ok shares last_prices sh pr (TICKERS WEIGHTS) Hs Hp)
    as [terms [Hrun [Hk [Hv Hnp]]]].
  unfold nav_projector, nav_terms. rewrite Hrun. cbn [bind Monad_result].
  assert (Hsum : py_sum (map snd terms) = NpFloat64 total_usd).
  { rewrite (scalar_eta (py_sum _)). unfold py_sum.
    rewrite raw_fold_py_add, is_np_fold_py_add, Hv, Hnp.
    destruct WEIGHTS; [congruence|reflexivity]. }
  rewrite Hsum.
  change (py_mul (NpFloat64 total_usd) last_fx)
    with (NpFloat64 (fmul total_usd (raw last_fx))).
  rewrite (py_truediv_nonzero _ units Hunits). cbn [bind Monad_result].
  cbn [is_np orb wrap raw].
  change (py_sub (NpFloat64 estimated_base_price) previous_base_price)
    with (NpFloat64 diff).
  destruct previous_base_price as [b|b]; reflexivity.
Qed.

End ProjectorFacts.

(** ** The estimator over exact arithmetic *)

Section ExactFacts.

Local Open Scope Q_scope.

Lemma is_zero_exact (q : Q) : is_zero q = false <-> ~ q == 0.
Proof.
  unfold is_zero. cbn [fview Exact]. unfold Qeq. simpl.
  destruct q as [n d]. simpl.
  destruct n; simpl; split; intros H; try lia; try reflexivity; try discriminate.
Qed.

Lemma fold_left_Qplus (l : list Q) (a : Q) : fold_left Qplus l a == a + Qsum l.
Proof.
  revert a. induction l as [|x l IH]; intros a; simpl.
  - ring.
  - rewrite IH. ring.
Qed.

(** Revaluing each implied share count at the price it was implied from
    gives back the holding's slice of the net assets, in dollars. *)
Lemma Qsum_revalued (nav fx : Q) (sh pr : string -> Q) (l : dict Q) :
  ~ fx == 0 ->
  (forall h w, In (h, w) l -> sh h == nav * w / fx / pr h /\ ~ pr h == 0) ->
  Qsum (map (fun t => sh t * pr t) (keys l)) == nav / fx * Qsum (map snd l).
Proof.
  intros Hfx. induction l as [|[h w] l IH]; intros Hl; simpl.
  - ring.
  - destruct (Hl h w (or_introl eq_refl)) as [Hs Hp].
    rewrite IH by (intros k v Hin; apply Hl; now right).
    rewrite Hs. field. split; assumption.
Qed.

End ExactFacts.

Section ExactOrder.

Local Open Scope Q_scope.

Lemma Qsum_le (f g : string -> Q) (l : list string) :
  (forall t, In t l -> f t <= g t) -> Qsum (map f l) <= Qsum (map g l).
Proof.
  induction l as [|t l IH]; intros H; simpl.
  - apply Qle_refl.
  - apply Qplus_le_compat; [apply H; now left|apply IH; intros; apply H; now right].
Qed.

Lemma Qsum_lt (f g : string -> Q) (l : list string) (h : string) :
  (forall t, In t l -> f t <= g t) -> In h l -> f h < g h ->
  Qsum (map f l) < Qsum (map g l).
Proof.
  induction l as [|t l IH]; intros H Hin Hlt; simpl; [contradiction|].
  destruct Hin as [->|Hin].
  - apply Qplus_lt_le_compat; [exact Hlt|].
    apply Qsum_le. intros; apply H; now right.
  - rewrite (Qplus_comm (f t)), (Qplus_comm (g t)).
    apply Qplus_lt_le_compat; [|apply H; now left].
    apply IH; auto. intros; apply H; now right.
Qed.

Lemma Qsum_pos (f : string -> Q) (l : list string) :
  l <> [] -> (forall t, In t l -> 0 < f t) -> 0 < Qsum (map f l).
Proof.
  destruct l as [|t l]; [congruence|]. intros _ H. simpl.
  apply Qlt_le_trans with (f t + 0).
  - rewrite Qplus_0_r. apply H. now left.
  - apply Qplus_le_compat; [apply Qle_refl|].
    clear -H. induction l as [|u l IH]; simpl; [apply Qle_refl|].
    apply Qle_trans with (0 + 0); [apply Qle_refl|].
    apply Qplus_le_compat.
    + apply Qlt_le_weak, H. right. now left.
    + apply IH. intros v [->|Hv]; apply H; [now left|right; now right].
Qed.

(** The closed form of the estimate is strictly monotone. *)
Lemma scaled_total_lt (a b fx1 fx2 u : Q) :
  0 < a -> a <= b -> 0 < fx1 -> fx1 <= fx2 -> 0 < u ->
  fx1 < fx2 \/ a < b ->
  a * fx1 / u < b * fx2 / u.
Proof.
  intros Ha Hab Hfx Hle Hu Hstrict.
  unfold Qdiv. apply Qmult_lt_compat_r; [now apply Qinv_lt_0_compat|].
  destruct Hstrict as [Hlt|Hlt]; nra.
Qed.

End ExactOrder.

Lemma dict_get_of_key {V} (d : dict V) (k : string) :
  In k (keys d) -> exists v, dict_get d k = Some v.
Proof.
  induction d as [|[k' v'] d IH]; simpl; [contradiction|].
  intros [->|Hin].
  - rewrite String.eqb_refl. eauto.
  - destruct (String.eqb k k'); eauto.
Qed.

Section NoChange.

Local Open Scope Q_scope.

(** Before rounding the no-change estimate is the previous base price
    scaled by the total weight.  Over exact arithmetic, with a non-empty
    weight table and non-zero previous net assets, base price, FX rate
    and prices: when the latest prices and FX rate equal the previous
    ones, the estimated base price is the previous base price times the
    sum of the weights (which the estimator does not normalise); it is
    the previous base price itself exactly when that product is, in
    particular when the weights sum to 1. *)
Theorem no_change_estimate_exact (WEIGHTS : dict Q) (nav base fx : Q)
  (prices : dict scalar) (pr : string -> Q) :
  WEIGHTS <> [] ->
  NoDup (keys WEIGHTS) ->
  ~ nav == 0 -> ~ base == 0 -> ~ fx == 0 ->
  (forall h, In h (keys WEIGHTS) ->
     dict_get prices h = Some (NpFloat64 (pr h)) /\ ~ pr h == 0) ->
  exists est,
    no_change_estimate WEIGHTS (PyFloat nav) (PyFloat base) prices (PyFloat fx)
      = Ok est
    /\ raw est == Qsum (map snd WEIGHTS) * base.
Proof.
  intros Hne Hnd Hnav Hbase Hfx Hpr.
  destruct (estimate_shares_ok WEIGHTS nav base fx prices Hnd) as [shares [Hrun [Hkeys Hval]]].
  { now apply is_zero_exact. }
  { now apply is_zero_exact. }
  { intros h Hh. destruct (Hpr h Hh) as [Hget Hp]. eexists; split; [exact Hget|].
    now left. }
  set (sh := fun t => match dict_get shares t with Some s => raw s | None => 0 end).
  pose proof (nav_projector_ok WEIGHTS shares prices (PyFloat (fdiv nav base))
                (PyFloat fx) (PyFloat base) sh pr Hne) as Hproj.
  cbv zeta in Hproj.
  unfold no_change_estimate. rewrite Hrun. cbn [bind Monad_result fst snd].
  rewrite Hproj; clear Hproj.
  - cbn [bind ret Monad_result fst raw]. eexists; split; [reflexivity|].
    cbn [raw fdiv fmul fadd fdec Exact]. rewrite fold_left_Qplus.
    rewrite (Qsum_revalued nav fx sh pr WEIGHTS Hfx).
    + change (Qmake 0 _) with (0#1). field. repeat split; assumption.
    + intros h w Hin.
      assert (Hh : In h (keys WEIGHTS)) by (change h with (fst (h, w)); now apply in_map).
      destruct (Hpr h Hh) as [Hget Hp]. split; [|exact Hp].
      unfold sh. rewrite (Hval h w _ Hin Hget). cbn. reflexivity.
  - apply is_zero_exact. cbn [raw fdiv Exact]. intros H. apply Hnav.
    setoid_replace nav with (nav / base * base) by (field; assumption).
    rewrite H. ring.
  - intros t Ht. unfold TICKERS in Ht. rewrite <- Hkeys in Ht.
    destruct (dict_get_of_key shares t Ht) as [s Hs]. exists s. split; [exact Hs|].
    unfold sh. now rewrite Hs.
  - intros t Ht. now apply Hpr.
Qed.

End NoChange.

(** ** Raised exceptions *)

Section ErrorFacts.

Context {F : Type} {AF : Arith F}.

Lemma mapM_result_raises {A B} (f : A -> result B) (P : exn -> Prop)
  (l : list A) (e : exn) :
  (forall a e', f a = Raise e' -> P e') ->
  mapM_result f l = Raise e -> P e.
Proof.
  intros Hf. induction l as [|a l IH]; simpl; [discriminate|].
  destruct (f a) as [b|e'] eqn:Ea.
  - destruct (mapM_result f l) as [bs|e'']; [discriminate|].
    intros H. inversion H; subst. now apply IH.
  - intros H. inversion H; subst. now apply (Hf a).
Qed.

(** Positional indexing fails with [IndexError] and nothing else. *)
Lemma iloc_row_back_raises (df : @DataFrame F) (k : nat) (e : exn) :
  iloc_row_back df k = Raise e -> e = IndexError.
Proof.
  unfold iloc_row_back. destruct (df_len df <? k)%nat.
  - now inversion 1.
  - apply (mapM_result_raises _ (fun e => e = IndexError)). intros c e'.
    destruct (nth_error (snd c) (df_len df - k)); simpl; [discriminate|now inversion 1].
Qed.

Lemma iloc_row_back_short (df : @DataFrame F) (k : nat) :
  (df_len df < k)%nat -> iloc_row_back df k = Raise IndexError.
Proof.
  intros H. unfold iloc_row_back.
  destruct (Nat.ltb_spec (df_len df) k); [reflexivity|lia].
Qed.

Lemma iloc_back_short (col : list F) (k : nat) :
  (List.length col < k)%nat -> iloc_back col k = Raise IndexError.
Proof.
  intros H. unfold iloc_back.
  destruct (Nat.ltb_spec (List.length col) k); [reflexivity|lia].
Qed.

Lemma compute_report_too_short (WEIGHTS : dict F) (pb pn : scalar)
  (prices : DataFrame) (fx : list F) :
  (df_len prices < 2 \/ List.length fx < 2)%nat ->
  compute_report WEIGHTS pb pn prices fx = Raise IndexError.
Proof.
  intros H. unfold compute_report.
  destruct (iloc_row_back prices 2) as [prev|e] eqn:E2.
  2:{ now rewrite (iloc_row_back_raises _ _ _ E2). }
  destruct H as [H|H].
  { rewrite iloc_row_back_short in E2 by exact H. discriminate. }
  cbn [bind Monad_result].
  destruct (iloc_row_back prices 1) as [last|e] eqn:E1.
  2:{ now rewrite (iloc_row_back_raises _ _ _ E1). }
  cbn [bind Monad_result].
  now rewrite (iloc_back_short fx 2 H).
Qed.

End ErrorFacts.

(** ** Running effectful code *)

Section RunFacts.

Context {F : Type} {AF : Arith F}.

Lemma run_bind_ok {A B} (c : @M F A) (k : A -> @M F B) (w : World) (a : A)
  (t : list event) :
  c w = (Ok a, t) ->
  (x <- c ;; k x) w = (fst (k a w), t ++ snd (k a w)).
Proof.
  intros H. cbn [bind Monad_M]. rewrite H. now destruct (k a w).
Qed.

Lemma run_bind_raise {A B} (c : @M F A) (k : A -> @M F B) (w : World) (e : exn)
  (t : list event) :
  c w = (Raise e, t) ->
  (x <- c ;; k x) w = (Raise e, t).
Proof.
  intros H. cbn [bind Monad_M]. now rewrite H.
Qed.


(** The error path of [main]. *)
Lemma main_on_error (WEIGHTS : dict F) (w : World) (e : exn) (t : list event) :
  calculate_today_nav WEIGHTS w = (Raise e, t) ->
  let error_text := error_marker +++ format_exc w e in
  main WEIGHTS w
  = (fst (send_line_message error_text w),
     t ++ EvPrint error_text :: snd (send_line_message error_text w)).
Proof.
  intros H error_text. unfold main, try_except.
  rewrite (run_bind_raise _ _ w e t H).
  unfold ask, print, emit. cbn [bind Monad_M app].
  fold error_text. now destruct (send_line_message error_text w).
Qed.

(** The success path of [main], when the notifier does not raise. *)
Lemma main_on_success (WEIGHTS : dict F) (w : World) (msg : string)
  (t t' : list event) :
  calculate_today_nav WEIGHTS w = (Ok msg, t) ->
  send_line_message msg w = (Ok tt, t') ->
  main WEIGHTS w = (Ok tt, t ++ EvPrint msg :: t').
Proof.
  intros Hnav Hsend. unfold main, try_except.
  rewrite (run_bind_ok _ _ w msg t Hnav).
  unfold print, emit. cbn [bind Monad_M fst snd app]. now rewrite Hsend.
Qed.

Lemma get_prices_and_fx_request (WEIGHTS : dict F) (w : World)
  (prices : DataFrame) (fx : list F) (t : list event) :
  get_prices_and_fx WEIGHTS w = (Ok (prices, fx), t) ->
  t = [EvDownload (keys WEIGHTS ++ ["USDJPY=X"%string]) (now w - 7 * 86400) (now w)]
  /\ keys (df_cols prices) = keys WEIGHTS.
Proof.
  unfold get_prices_and_fx, ask, emit, call, lift, TICKERS. cbn [bind ret Monad_M app].
  destruct (download_close w _ _ _) as [close|e]; [|discriminate].
  unfold select_columns.
  destruct (mapM_result _ (keys WEIGHTS)) as [cols|e] eqn:Ecols; [|discriminate].
  cbn [bind ret Monad_result app].
  destruct (getitem (df_cols close) "USDJPY=X") as [col|e]; [|discriminate].
  cbn [app]. intros H. inversion H; subst. split; [reflexivity|].
  unfold ffill_frame, keys. cbn [df_cols]. rewrite map_map. cbn [fst].
  rewrite <- (map_id (map fst WEIGHTS)).
  apply (mapM_result_keys _ (fun l => l) _ _) in Ecols; [exact Ecols|].
  intros a b. destruct (getitem (df_cols close) a); cbn.
  - intros Hb. now inversion Hb.
  - discriminate.
Qed.

End RunFacts.

(** ** Which holdings the stages range over *)

Section HoldingFacts.

Context {F : Type} {AF : Arith F}.

Lemma estimate_shares_loop_keys (nav fx : scalar) (prices : dict scalar) :
  forall (items : dict F) (acc out : dict scalar),
    NoDup (keys items) ->
    (forall h, In h (keys items) -> ~ In h (keys acc)) ->
    estimate_shares_loop nav prices fx items acc = Ok out ->
    keys out = keys acc ++ keys items.
Proof.
  induction items as [|[h w] items IH]; intros acc out Hnd Hfresh Hrun.
  - simpl in Hrun. inversion Hrun; subst. simpl. now rewrite app_nil_r.
  - inversion Hnd as [|? ? Hh Hnd']; subst.
    cbn [estimate_shares_loop] in Hrun.
    destruct (py_truediv (py_mul nav (PyFloat w)) fx) as [usd|e]; [|discriminate].
    cbn [bind Monad_result] in Hrun.
    destruct (getitem prices h) as [p|e]; [|discriminate].
    cbn [bind Monad_result] in Hrun.
    destruct (py_truediv usd p) as [s|e]; [|discriminate].
    cbn [bind Monad_result] in Hrun.
    rewrite dict_set_fresh in Hrun by (apply Hfresh; now left).
    apply IH in Hrun; [|exact Hnd'|].
    + rewrite Hrun, keys_app. simpl. now rewrite <- app_assoc.
    + intros k Hk Hin. rewrite keys_app in Hin. apply in_app_or in Hin.
      destruct Hin as [Hin|[<-|[]]].
      * apply (Hfresh k); [now right|exact Hin].
      * now apply Hh.
Qed.

Lemma estimate_shares_keys (WEIGHTS : dict F) (nav base fx : scalar)
  (prices shares : dict scalar) (units : scalar) :
  NoDup (keys WEIGHTS) ->
  estimate_shares WEIGHTS nav base prices fx = Ok (shares, units) ->
  keys shares = keys WEIGHTS.
Proof.
  intros Hnd. unfold estimate_shares.
  destruct (py_truediv nav base) as [u|e]; [|discriminate].
  cbn [bind Monad_result].
  destruct (estimate_shares_loop nav prices fx WEIGHTS []) as [out|e] eqn:Eloop;
    [|discriminate].
  cbn [bind ret Monad_result]. intros H. inversion H; subst.
  apply (estimate_shares_loop_keys nav fx prices WEIGHTS [] shares Hnd) in Eloop.
  - exact Eloop.
  - intros ? ? [].
Qed.

Lemma nav_terms_keys (WEIGHTS : dict F) (shares last_prices : dict scalar)
  (terms : list (string * scalar)) :
  nav_terms WEIGHTS shares last_prices = Ok terms ->
  map fst terms = keys WEIGHTS.
Proof.
  unfold nav_terms, TICKERS. intros H.
  rewrite <- (map_id (keys WEIGHTS)).
  apply (mapM_result_keys _ (fun t => t) _ _) in H; [exact H|].
  intros t b. destruct (getitem shares t); cbn; [|discriminate].
  destruct (getitem last_prices t); cbn; [|discriminate].
  intros Hb. now inversion Hb.
Qed.

(** A zero previous base price or FX rate. *)
Lemma estimate_shares_raises (WEIGHTS : dict F) (nav base fx : F)
  (prev_prices : dict scalar) :
  WEIGHTS <> [] ->
  is_zero base = true \/ is_zero fx = true ->
  estimate_shares WEIGHTS (PyFloat nav) (PyFloat base) prev_prices (PyFloat fx)
    = Raise ZeroDivisionError.
Proof.
  intros Hne Hz. unfold estimate_shares.
  destruct (is_zero base) eqn:Hb.
  - now rewrite (py_truediv_zero nav base Hb).
  - destruct Hz as [Hz|Hfx]; [discriminate|].
    rewrite (py_truediv_nonzero _ (PyFloat base) Hb). cbn [bind Monad_result].
    destruct WEIGHTS as [|[h w] rest]; [congruence|].
    cbn [estimate_shares_loop].
    change (py_mul (PyFloat nav) (PyFloat w)) with (PyFloat (fmul nav w)).
    now rewrite (py_truediv_zero _ fx Hfx).
Qed.

End HoldingFacts.

Lemma WEIGHTS_keys_NoDup {F : Type} {AF : Arith F} : NoDup (keys (@WEIGHTS F AF)).
Proof.
  unfold keys, WEIGHTS. cbn [map fst].
  repeat (constructor; [cbn [In]; intuition discriminate|]). constructor.
Qed.

Lemma WEIGHTS_sum : (Qsum (map snd (@WEIGHTS Q Exact)) == 966 # 1000)%Q.
Proof. reflexivity. Qed.

(** The binary64 zeros are the only values that compare equal to zero. *)
Lemma is_zero_finite_b64 (s : bool) (m : positive) (e : Z) :
  is_zero (S754_finite s m e) = false.
Proof.
  unfold is_zero. cbn [fview Binary64 view_b64].
  assert (Hpos : forall z, 0 <= z -> Z.to_N (Zpos m * 2 ^ z) <> 0%N).
  { intros z Hz H.
    assert (Hp : 0 < Zpos m * 2 ^ z).
    { apply Z.mul_pos_pos; [reflexivity|apply Z.pow_pos_nonneg; [reflexivity|exact Hz]]. }
    apply (f_equal Z.of_N) in H. rewrite Z2N.id in H by (apply Z.lt_le_incl, Hp).
    rewrite H in Hp. discriminate Hp. }
  destruct e as [|p|p]; [| |reflexivity].
  - specialize (Hpos 0 ltac:(lia)). now destruct (Z.to_N (Zpos m * 2 ^ 0)).
  - specialize (Hpos (Zpos p) ltac:(lia)). now destruct (Z.to_N (Zpos m * 2 ^ Zpos p)).
Qed.

(** A division by a binary64 zero yields an infinity or NaN. *)
Lemma fdiv_zero_b64 (x y : spec_float) :
  is_zero y = true ->
  fdiv x y = S754_nan \/ exists s, fdiv x y = S754_infinity s.
Proof.
  destruct y as [sy|sy| |sy my ey]; try discriminate.
  - intros _. destruct x; cbn; eauto.
  - now rewrite is_zero_finite_b64.
Qed.

(** With non-zero previous base price and FX rate and the previous prices
    read from a pandas row, [estimate_shares] returns, and a holding
    priced at zero gets an infinite or NaN share count. *)
Lemma estimate_shares_zero_price (WEIGHTS : dict spec_float)
  (nav base fx : spec_float) (prev_prices : dict scalar) :
  NoDup (keys WEIGHTS) ->
  (forall h, In h (keys WEIGHTS) ->
     exists x, dict_get prev_prices h = Some (NpFloat64 x)) ->
  is_zero base = false -> is_zero fx = false ->
  exists shares units,
    estimate_shares WEIGHTS (PyFloat nav) (PyFloat base) prev_prices (PyFloat fx)
      = Ok (shares, units)
    /\ forall h x, In h (keys WEIGHTS) ->
         dict_get prev_prices h = Some (NpFloat64 x) -> is_zero x = true ->
         exists s, dict_get shares h = Some (NpFloat64 s)
                   /\ (s = S754_nan \/ exists sign, s = S754_infinity sign).
Proof.
  intros Hnd Hpr Hbase Hfx.
  destruct (estimate_shares_ok WEIGHTS nav base fx prev_prices Hnd Hbase Hfx)
    as [shares [Hrun [_ Hval]]].
  { intros h Hh. destruct (Hpr h Hh) as [x Hx]. exists (NpFloat64 x). auto. }
  exists shares, (PyFloat (fdiv nav base)). split; [exact Hrun|].
  intros h x Hh Hx Hz. unfold keys in Hh. apply in_map_iff in Hh.
  destruct Hh as [[h' w] [Heq Hin]]. simpl in Heq. subst h'.
  rewrite (Hval h w _ Hin Hx). cbn [is_np wrap raw].
  eexists. split; [reflexivity|]. now apply fdiv_zero_b64.
Qed.

(** The report never starts with the marker of the error report. *)
Lemma error_marker_distinct {F : Type} {AF : Arith F} (WEIGHTS : dict F)
  (pb est diff pct pfx lfx : scalar) (shares : dict scalar) (msg : string) :
  format_report WEIGHTS pb est diff pct pfx lfx shares = Ok msg ->
  String.prefix error_marker msg = false.
Proof.
  unfold format_report, report_lines.
  destruct (mapM_result _ (TICKERS WEIGHTS)) as [holdings|e]; [|discriminate].
  cbn [bind ret Monad_result]. intros H. inversion H. reflexivity.
Qed.

Lemma compute_report_marker_free {F : Type} {AF : Arith F} (WEIGHTS : dict F)
  (pb pn : scalar) (prices : DataFrame) (fx : list F) (msg : string) :
  compute_report WEIGHTS pb pn prices fx = Ok msg ->
  String.prefix error_marker msg = false.
Proof.
  unfold compute_report.
  destruct (iloc_row_back prices 2) as [prev|e]; [|discriminate].
  destruct (iloc_row_back prices 1) as [last|e]; [|discriminate].
  destruct (iloc_back fx 2) as [pfx|e]; [|discriminate].
  destruct (iloc_back fx 1) as [lfx|e]; [|discriminate].
  cbn [bind Monad_result].
  destruct (estimate_shares WEIGHTS pn pb prev (py_float pfx)) as [[shares units]|e];
    [|discriminate].
  cbn [bind Monad_result].
  destruct (nav_projector WEIGHTS shares units last (py_float lfx) pb)
    as [[[est diff] pct]|e]; [|discriminate].
  cbn [bind Monad_result]. apply error_marker_distinct.
Qed.

(** No report that [calculate_today_nav] returns starts with the marker. *)
Lemma calculate_today_nav_marker_free {F : Type} {AF : Arith F} (WEIGHTS : dict F)
  (w : World) (msg : string) (t : list event) :
  calculate_today_nav WEIGHTS w = (Ok msg, t) ->
  String.prefix error_marker msg = false.
Proof.
  unfold calculate_today_nav. cbn [bind Monad_M].
  destruct (read_inputs WEIGHTS w) as [[[[[pb pn] prices] fx]|e] t0]; [|discriminate].
  unfold lift.
  destruct (compute_report WEIGHTS pb pn prices fx) as [report|e] eqn:E; [|discriminate].
  intros H. inversion H; subst. now apply (compute_report_marker_free WEIGHTS pb pn prices fx).
Qed.

(** * Binary64 rounding is monotone *)

(** ** Digits *)

Lemma digits2_pos_bounds (m : positive) :
  2 ^ (Zpos (digits2_pos m) - 1) <= Zpos m < 2 ^ Zpos (digits2_pos m).
Proof.
  induction m as [m IH|m IH|]; cbn [digits2_pos].
  - rewrite Pos2Z.inj_succ. replace (Z.succ (Zpos (digits2_pos m)) - 1) with (Z.succ (Zpos (digits2_pos m) - 1)) by lia.
    rewrite !Z.pow_succ_r by lia. lia.
  - rewrite Pos2Z.inj_succ. replace (Z.succ (Zpos (digits2_pos m)) - 1) with (Z.succ (Zpos (digits2_pos m) - 1)) by lia.
    rewrite !Z.pow_succ_r by lia. lia.
  - simpl. lia.
Qed.

Lemma Zdigits2_bounds (q : Z) :
  0 < q -> 2 ^ (Zdigits2 q - 1) <= q < 2 ^ Zdigits2 q.
Proof. destruct q as [|p|p]; try lia. intros _. apply digits2_pos_bounds. Qed.

Lemma Zdigits2_nonneg (q : Z) : 0 <= Zdigits2 q.
Proof. destruct q; simpl; lia. Qed.

Lemma Zdigits2_pos (q : Z) : 0 < q -> 0 < Zdigits2 q.
Proof. destruct q; simpl; lia. Qed.

Lemma pow2_pos (k : Z) : 0 <= k -> 0 < 2 ^ k.
Proof. intros. apply Z.pow_pos_nonneg; lia. Qed.

Lemma pow2_lt_inv (a b : Z) : 0 <= b -> 2 ^ a < 2 ^ b -> a < b.
Proof. intros Hb H. apply (Z.pow_lt_mono_r_iff 2); lia. Qed.

Lemma Zdigits2_unique (q d : Z) :
  0 < d -> 2 ^ (d - 1) <= q < 2 ^ d -> Zdigits2 q = d.
Proof.
  intros Hd [Hlo Hhi].
  assert (Hq : 0 < q) by (pose proof (pow2_pos (d - 1)); lia).
  pose proof (Zdigits2_bounds q Hq) as [Hlo' Hhi'].
  pose proof (Zdigits2_pos q Hq) as Hp.
  assert (d - 1 < Zdigits2 q) by (apply pow2_lt_inv; lia).
  assert (Zdigits2 q - 1 < d) by (apply pow2_lt_inv; lia).
  lia.
Qed.

Lemma Zdigits2_le (q d : Z) : 0 <= d -> 0 <= q < 2 ^ d -> Zdigits2 q <= d.
Proof.
  intros Hd [Hq Hhi]. destruct (Z.eq_dec q 0) as [->|Hne]; [simpl; lia|].
  pose proof (Zdigits2_bounds q ltac:(lia)) as [Hlo _].
  assert (Zdigits2 q - 1 < d) by (apply pow2_lt_inv; lia). lia.
Qed.

Lemma Zdigits2_ge (q d : Z) : 2 ^ (d - 1) <= q -> 0 < d -> d <= Zdigits2 q.
Proof.
  intros Hlo Hd.
  assert (Hq : 0 < q) by (pose proof (pow2_pos (d - 1)); lia).
  pose proof (Zdigits2_bounds q Hq) as [_ Hhi].
  pose proof (Zdigits2_pos q Hq).
  assert (d - 1 < Zdigits2 q) by (apply pow2_lt_inv; lia). lia.
Qed.

(** ** Shifting a record to the right *)

Lemma shr_1_fields (m : Z) (r s : bool) :
  0 <= m ->
  shr_1 {| shr_m := m; shr_r := r; shr_s := s |}
  = {| shr_m := m / 2; shr_r := Z.odd m; shr_s := r || s |}.
Proof.
  intros Hm. rewrite <- Z.div2_div.
  destruct m as [|[p|p|]|p]; try reflexivity. lia.
Qed.

Lemma shr_1_stands_for (mrs : shr_record) (a b : Z) :
  stands_for mrs a b -> stands_for (shr_1 mrs) a (2 * b).
Proof.
  destruct mrs as [m r s]. unfold stands_for. cbn [shr_m shr_r shr_s].
  intros (Ha & Hb & Hm & Hr & Hs).
  assert (Hrem : 0 <= a mod b < b) by (apply Z.mod_pos_bound; lia).
  assert (Hdiv : a / (2 * b) = (a / b) / 2).
  { rewrite (Z.mul_comm 2 b). now rewrite Z.div_div by lia. }
  assert (Hmod : a mod (2 * b) = a mod b + b * ((a / b) mod 2)).
  { rewrite (Z.mul_comm 2 b). apply Z.rem_mul_r; lia. }
  assert (Hq : 0 <= a / b) by (apply Z.div_pos; lia).
  assert (Hors : r || s = negb (a mod b =? 0)).
  { rewrite Hr, Hs.
    destruct (Z.leb_spec b (2 * (a mod b))), (Z.eqb_spec (a mod b) 0),
      (Z.eqb_spec (2 * (a mod b)) b); simpl; try reflexivity; lia. }
  rewrite shr_1_fields by lia. cbn [shr_m shr_r shr_s].
  rewrite Hdiv, Hmod, <- Hm, Hors.
  assert (Hodd : m mod 2 = if Z.odd m then 1 else 0) by apply Zmod_odd.
  rewrite Hodd.
  repeat split; try lia; destruct (Z.odd m).
  - symmetry. apply Z.leb_le. lia.
  - symmetry. apply Z.leb_gt. lia.
  - destruct (Z.eqb_spec (a mod b) 0), (Z.eqb_spec (a mod b + b * 1) 0),
      (Z.eqb_spec (2 * (a mod b + b * 1)) (2 * b)); simpl; try reflexivity; lia.
  - destruct (Z.eqb_spec (a mod b) 0), (Z.eqb_spec (a mod b + b * 0) 0),
      (Z.eqb_spec (2 * (a mod b + b * 0)) (2 * b)); simpl; try reflexivity; lia.
Qed.

Lemma stands_for_ext (mrs : shr_record) (a b b' : Z) :
  b = b' -> stands_for mrs a b -> stands_for mrs a b'.
Proof. now intros ->. Qed.

Lemma pow2_xO (p : positive) : 2 ^ Zpos p~0 = 2 ^ Zpos p * 2 ^ Zpos p.
Proof.
  replace (Zpos p~0) with (Zpos p + Zpos p) by lia.
  apply Z.pow_add_r; lia.
Qed.

Lemma pow2_xI (p : positive) : 2 ^ Zpos p~1 = 2 * (2 ^ Zpos p * 2 ^ Zpos p).
Proof.
  replace (Zpos p~1) with (1 + (Zpos p + Zpos p)) by lia.
  rewrite Z.pow_add_r, Z.pow_add_r by lia. reflexivity.
Qed.

Lemma iter_shr_1_stands_for (p : positive) :
  forall (mrs : shr_record) (a b : Z),
    stands_for mrs a b -> stands_for (iter_pos shr_1 p mrs) a (b * 2 ^ Zpos p).
Proof.
  induction p as [p IH|p IH|]; intros mrs a b H; cbn [iter_pos].
  - apply shr_1_stands_for, IH, IH in H.
    refine (stands_for_ext _ _ _ _ _ H). rewrite pow2_xI. lia.
  - apply IH, IH in H.
    refine (stands_for_ext _ _ _ _ _ H). rewrite pow2_xO. lia.
  - apply shr_1_stands_for in H.
    refine (stands_for_ext _ _ _ _ _ H). rewrite Z.pow_1_r. lia.
Qed.

Lemma shr_stands_for (mrs : shr_record) (a b e n : Z) :
  0 <= n -> stands_for mrs a b ->
  snd (shr mrs e n) = e + n /\ stands_for (fst (shr mrs e n)) a (b * 2 ^ n).
Proof.
  intros Hn H. destruct n as [|p|p]; cbn [shr fst snd]; try lia.
  - split; [lia|]. refine (stands_for_ext _ _ _ _ _ H). simpl. lia.
  - split; [reflexivity|]. now apply iter_shr_1_stands_for.
Qed.

(** ** Rounding to nearest, ties to even *)

Lemma round_nearest_even_stands_for (mrs : shr_record) (a b : Z) :
  stands_for mrs a b ->
  round_nearest_even (shr_m mrs) (loc_of_shr_record mrs) = rne a b.
Proof.
  destruct mrs as [m r s]. unfold stands_for, rne. cbn [shr_m shr_r shr_s].
  intros (Ha & Hb & Hm & Hr & Hs).
  assert (Hrem : 0 <= a mod b < b) by (apply Z.mod_pos_bound; lia).
  subst m r s. cbn [loc_of_shr_record].
  destruct (Z.compare_spec (2 * (a mod b)) b) as [Heq|Hlt|Hgt];
    destruct (Z.leb_spec b (2 * (a mod b))); try lia;
    destruct (Z.eqb_spec (a mod b) 0); try lia;
    destruct (Z.eqb_spec (2 * (a mod b)) b); try lia; reflexivity.
Qed.

Lemma rne_bounds (a b : Z) : 0 <= a -> 0 < b -> a / b <= rne a b <= a / b + 1.
Proof.
  intros Ha Hb. unfold rne.
  destruct (2 * (a mod b) ?= b); [destruct (Z.even (a / b))| |]; lia.
Qed.

(** Rounding is monotone on fractions. *)
Lemma rne_mono (a1 b1 a2 b2 : Z) :
  0 <= a1 -> 0 < b1 -> 0 <= a2 -> 0 < b2 ->
  a1 * b2 <= a2 * b1 ->
  rne a1 b1 <= rne a2 b2.
Proof.
  intros Ha1 Hb1 Ha2 Hb2 Hle.
  pose proof (Z.div_mod a1 b1 ltac:(lia)) as D1.
  pose proof (Z.div_mod a2 b2 ltac:(lia)) as D2.
  pose proof (Z.mod_pos_bound a1 b1 Hb1) as R1.
  pose proof (Z.mod_pos_bound a2 b2 Hb2) as R2.
  assert (Hq : a1 / b1 <= a2 / b2).
  { apply Z.div_le_lower_bound; [lia|].
    apply Z.lt_succ_r. apply (Z.mul_lt_mono_pos_r b1); [lia|].
    assert (0 <= a1 / b1) by (apply Z.div_pos; lia).
    nia. }
  pose proof (rne_bounds a1 b1 Ha1 Hb1).
  pose proof (rne_bounds a2 b2 Ha2 Hb2).
  destruct (Z.eq_dec (a1 / b1) (a2 / b2)) as [Heq|Hne]; [|lia].
  unfold rne in *. rewrite <- Heq in *.
  set (q := a1 / b1) in *. set (r1 := a1 mod b1) in *. set (r2 := a2 mod b2) in *.
  assert (Hr : r1 * b2 <= r2 * b1) by nia.
  destruct (Z.compare_spec (2 * r1) b1), (Z.compare_spec (2 * r2) b2);
    destruct (Z.even q); try lia; nia.
Qed.

(** ** What [binary_round_aux] returns *)

Lemma fexp64_eq (e : Z) : fexp64 e = Z.max (e - 53) (-1074).
Proof. reflexivity. Qed.

Lemma div_pow2_lt (q d n : Z) :
  0 <= n -> 0 <= q < 2 ^ d -> 0 <= d -> q / 2 ^ n < 2 ^ Z.max (d - n) 0.
Proof.
  intros Hn [Hq Hlt] Hd.
  assert (Hp : 0 < 2 ^ n) by now apply pow2_pos.
  apply Z.div_lt_upper_bound; [exact Hp|].
  destruct (Z.le_gt_cases n d) as [Hle|Hgt].
  - rewrite Z.max_l by lia. rewrite <- Z.pow_add_r by lia.
    now replace (n + (d - n)) with d by lia.
  - rewrite Z.max_r by lia. rewrite Z.pow_0_r, Z.mul_1_r.
    apply Z.lt_le_trans with (2 ^ d); [exact Hlt|].
    apply Z.pow_le_mono_r; lia.
Qed.

Lemma Zdigits2_small (q : Z) : 0 <= q -> q < 2 ^ Zdigits2 q.
Proof.
  intros Hq. destruct (Z.eq_dec q 0) as [->|Hne]; [simpl; lia|].
  apply Zdigits2_bounds. lia.
Qed.

Lemma binary_round_aux_spec (a b e : Z) (l : location) :
  stands_for (shr_record_of_loc (a / b) l) a b ->
  e <= fexp64 (Zdigits2 (a / b) + e) ->
  binary_round_aux prec64 emax64 false (a / b) e l
  = finish (rne a (b * 2 ^ (fexp64 (Zdigits2 (a / b) + e) - e)))
           (fexp64 (Zdigits2 (a / b) + e)).
Proof.
  intros Hst HE. set (E := fexp64 (Zdigits2 (a / b) + e)) in *.
  assert (Hab : 0 <= a /\ 0 < b) by (destruct Hst as (? & ? & _); auto).
  destruct Hab as [Ha Hb].
  assert (Hq0 : 0 <= a / b) by (apply Z.div_pos; lia).
  unfold binary_round_aux, shr_fexp. fold (fexp64 (Zdigits2 (a / b) + e)). fold E.
  destruct (shr_stands_for _ a b e (E - e) ltac:(lia) Hst) as [He' Hst'].
  destruct (shr (shr_record_of_loc (a / b) l) e (E - e)) as [mrs' e'].
  cbn [fst snd] in He', Hst'. replace (e + (E - e)) with E in He' by lia. subst e'.
  rewrite (round_nearest_even_stands_for _ _ _ Hst').
  set (B := b * 2 ^ (E - e)) in *.
  assert (HB : 0 < B) by (apply Z.mul_pos_pos; [lia|apply pow2_pos; lia]).
  set (q := rne a B).
  (* bounds on the rounded mantissa *)
  assert (Hfloor : a / B = a / b / 2 ^ (E - e)).
  { unfold B. rewrite Z.div_div; [reflexivity|lia|apply pow2_pos; lia]. }
  assert (Hlt : a / B < 2 ^ 53).
  { rewrite Hfloor.
    pose proof (div_pow2_lt (a / b) (Zdigits2 (a / b)) (E - e) ltac:(lia)
                  (conj Hq0 (Zdigits2_small _ Hq0)) (Zdigits2_nonneg _)) as H.
    apply Z.lt_le_trans with (1 := H). apply Z.pow_le_mono_r; [lia|].
    unfold E. rewrite fexp64_eq. lia. }
  pose proof (rne_bounds a B Ha HB) as Hrb.
  assert (HaB : 0 <= a / B) by (apply Z.div_pos; lia).
  assert (Hq : 0 <= q <= 2 ^ 53) by (unfold q; lia).
  assert (HEmin : -1074 <= E) by (unfold E; rewrite fexp64_eq; lia).
  unfold finish. fold q.
  destruct (Z.eqb_spec q 0) as [Hz|Hnz].
  - (* rounds to zero *)
    rewrite Hz. cbn [Zdigits2 shr_record_of_loc].
    assert (Hn : fexp prec64 emax64 (0 + E) - E <= 0).
    { change (fexp prec64 emax64 (0 + E)) with (fexp64 (0 + E)). rewrite fexp64_eq. lia. }
    destruct (fexp prec64 emax64 (0 + E) - E) as [|p|p]; cbn [shr shr_m]; try lia; reflexivity.
  - destruct (Z.eqb_spec q (2 ^ 53)) as [Hc|Hnc].
    + (* the mantissa carried into a new bit *)
      rewrite Hc.
      assert (Hd : Zdigits2 (2 ^ 53) = 54) by reflexivity.
      rewrite Hd.
      assert (Hn : fexp prec64 emax64 (54 + E) - E = 1).
      { change (fexp prec64 emax64 (54 + E)) with (fexp64 (54 + E)). rewrite fexp64_eq. lia. }
      rewrite Hn. cbn [shr iter_pos shr_record_of_loc].
      rewrite shr_1_fields by lia. cbn [shr_m].
      change (2 ^ 53 / 2) with (2 ^ 52).
      change (2 ^ 52) with (Zpos (Z.to_pos (2 ^ 52))) at 1.
      cbv iota beta. replace (E + 1 <=? emax64 - prec64) with (E + 1 <=? 971) by reflexivity.
      reflexivity.
    + (* the mantissa fits *)
      assert (Hd : Zdigits2 q <= 53) by (apply Zdigits2_le; lia).
      assert (Hn : fexp prec64 emax64 (Zdigits2 q + E) - E <= 0).
      { change (fexp prec64 emax64 (Zdigits2 q + E)) with (fexp64 (Zdigits2 q + E)).
        rewrite fexp64_eq. lia. }
      assert (Hs : shr (shr_record_of_loc q loc_Exact) E
                     (fexp prec64 emax64 (Zdigits2 q + E) - E)
                   = (shr_record_of_loc q loc_Exact, E)).
      { destruct (fexp prec64 emax64 (Zdigits2 q + E) - E); try reflexivity; lia. }
      rewrite Hs. cbn [shr_record_of_loc shr_m].
      destruct q as [|p|p]; try lia.
      replace (E <=? emax64 - prec64) with (E <=? 971) by reflexivity.
      reflexivity.
Qed.

(** ** The rounded mantissa *)

Lemma target_min (a b e : Z) : -1074 <= target a b e.
Proof. unfold target. rewrite fexp64_eq. lia. Qed.

Lemma scaled_pos (b n : Z) : 0 < b -> 0 <= n -> 0 < b * 2 ^ n.
Proof. intros. apply Z.mul_pos_pos; [lia|now apply pow2_pos]. Qed.

Lemma floor_scaled (a b n : Z) :
  0 < b -> 0 <= n -> a / (b * 2 ^ n) = a / b / 2 ^ n.
Proof. intros. rewrite Z.div_div; [reflexivity|lia|now apply pow2_pos]. Qed.

Lemma mantissa_bounds (a b e : Z) :
  roundable a b e -> 0 <= mantissa a b e <= 2 ^ 53.
Proof.
  intros (Ha & Hb & HE). unfold mantissa. fold (target a b e) in HE.
  set (E := target a b e) in *.
  assert (HB : 0 < b * 2 ^ (E - e)) by (apply scaled_pos; lia).
  assert (Hq0 : 0 <= a / b) by (apply Z.div_pos; lia).
  pose proof (rne_bounds a _ Ha HB) as Hrb.
  assert (0 <= a / (b * 2 ^ (E - e))) by (apply Z.div_pos; lia).
  assert (a / (b * 2 ^ (E - e)) < 2 ^ 53).
  { rewrite floor_scaled by lia.
    pose proof (div_pow2_lt (a / b) (Zdigits2 (a / b)) (E - e) ltac:(lia)
                  (conj Hq0 (Zdigits2_small _ Hq0)) (Zdigits2_nonneg _)) as H1.
    apply Z.lt_le_trans with (1 := H1). apply Z.pow_le_mono_r; [lia|].
    unfold E, target. rewrite fexp64_eq. lia. }
  lia.
Qed.

(** Above the subnormal range the rounded mantissa has all its bits. *)
Lemma mantissa_normal (a b e : Z) :
  roundable a b e -> -1074 < target a b e -> 2 ^ 52 <= mantissa a b e.
Proof.
  intros (Ha & Hb & HE) Hn. unfold mantissa. fold (target a b e) in HE.
  set (E := target a b e) in *.
  assert (HB : 0 < b * 2 ^ (E - e)) by (apply scaled_pos; lia).
  pose proof (rne_bounds a _ Ha HB) as Hrb.
  assert (HEd : E = Zdigits2 (a / b) + e - 53).
  { unfold E, target in *. rewrite fexp64_eq in *. lia. }
  assert (Hq : 0 < a / b).
  { assert (0 <= a / b) by (apply Z.div_pos; lia).
    destruct (Z.eq_dec (a / b) 0) as [H0|]; [|lia].
    rewrite H0 in HEd. simpl in HEd. lia. }
  pose proof (Zdigits2_bounds _ Hq) as [Hlo _].
  assert (2 ^ 52 <= a / (b * 2 ^ (E - e))); [|lia].
  rewrite floor_scaled by lia.
  apply Z.div_le_lower_bound; [apply pow2_pos; lia|].
  rewrite <- Z.pow_add_r by lia.
  now replace (E - e + 52) with (Zdigits2 (a / b) - 1) by lia.
Qed.

(** ** Comparing the results *)

Lemma finish_le_same (q1 q2 E : Z) :
  0 <= q1 -> q1 <= q2 -> q2 <= 2 ^ 53 ->
  SFleb (finish q1 E) (finish q2 E) = true.
Proof.
  intros H0 Hle Hhi. unfold finish.
  destruct (Z.eqb_spec q1 0) as [Hz1|Hz1].
  - destruct (Z.eqb_spec q2 0); [reflexivity|].
    destruct (Z.eqb_spec q2 (2 ^ 53)).
    + destruct (E + 1 <=? 971); reflexivity.
    + destruct (E <=? 971); reflexivity.
  - destruct (Z.eqb_spec q2 0); [lia|].
    destruct (Z.eqb_spec q1 (2 ^ 53)) as [Hc1|Hc1].
    + destruct (Z.eqb_spec q2 (2 ^ 53)); [|lia].
      destruct (E + 1 <=? 971); [|reflexivity].
      unfold SFleb, SFcompare. rewrite Z.compare_refl, Pos.compare_cont_refl. reflexivity.
    + destruct (Z.eqb_spec q2 (2 ^ 53)) as [Hc2|Hc2].
      * destruct (Z.leb_spec (E + 1) 971), (Z.leb_spec E 971); try lia; try reflexivity.
        unfold SFleb, SFcompare.
        destruct (Z.compare_spec E (E + 1)); try lia; reflexivity.
      * destruct (Z.leb_spec E 971); [|reflexivity].
        unfold SFleb, SFcompare. rewrite Z.compare_refl.
        destruct q1 as [|p1|p1], q2 as [|p2|p2]; try lia. cbn [Z.to_pos].
        change (Pos.compare_cont Eq p1 p2) with (Pos.compare p1 p2).
        destruct (Pos.compare_spec p1 p2); try reflexivity. lia.
Qed.

Lemma finish_le_below (q1 q2 E1 E2 : Z) :
  0 <= q1 <= 2 ^ 53 -> 2 ^ 52 <= q2 <= 2 ^ 53 -> E1 < E2 ->
  SFleb (finish q1 E1) (finish q2 E2) = true.
Proof.
  intros H1 H2 HE. unfold finish.
  assert (Hp : 0 < 2 ^ 52) by reflexivity.
  destruct (Z.eqb_spec q2 0); [lia|].
  destruct (Z.eqb_spec q1 0) as [Hz1|Hz1].
  - destruct (Z.eqb_spec q2 (2 ^ 53)).
    + destruct (E2 + 1 <=? 971); reflexivity.
    + destruct (E2 <=? 971); reflexivity.
  - destruct (Z.eqb_spec q1 (2 ^ 53)) as [Hc1|Hc1];
      destruct (Z.eqb_spec q2 (2 ^ 53)) as [Hc2|Hc2];
      repeat match goal with
             | |- context [?x <=? 971] => destruct (Z.leb_spec x 971)
             end; try lia; try reflexivity;
      unfold SFleb, SFcompare;
      match goal with
      | |- context [?x ?= ?y] => destruct (Z.compare_spec x y)
      end; try lia; try reflexivity.
    destruct q2 as [|p2|p2]; try lia. cbn [Z.to_pos].
    change (Pos.compare_cont Eq (Z.to_pos (2 ^ 52)) p2)
      with (Pos.compare (Z.to_pos (2 ^ 52)) p2).
    destruct (Pos.compare_spec (Z.to_pos (2 ^ 52)) p2) as [|Hlt|Hgt]; try reflexivity.
    exfalso. apply Pos2Z.pos_lt_pos in Hgt. rewrite Z2Pos.id in Hgt by lia. lia.
Qed.

(** ** Rounding is monotone *)

Lemma value_le_at (a1 b1 e1 a2 b2 e2 E : Z) :
  value_le a1 b1 e1 a2 b2 e2 -> e1 <= E -> e2 <= E ->
  a1 * (b2 * 2 ^ (E - e2)) <= a2 * (b1 * 2 ^ (E - e1)).
Proof.
  unfold value_le. intros H H1 H2.
  set (m := Z.min e1 e2) in *.
  set (K := E - e1 - e2 + m).
  assert (HK : 0 <= K) by (unfold K, m; lia).
  replace (E - e2) with (e1 - m + K) by (unfold K; lia).
  replace (E - e1) with (e2 - m + K) by (unfold K; lia).
  rewrite !Z.pow_add_r by (unfold m; lia).
  pose proof (pow2_pos K HK).
  nia.
Qed.

Lemma floor_lower (a b q : Z) : 0 < b -> q <= a / b -> b * q <= a.
Proof.
  intros Hb Hq. pose proof (Z.mul_div_le a b Hb). nia.
Qed.

Lemma floor_upper (a b q : Z) : 0 < b -> a / b < q -> a < b * q.
Proof.
  intros Hb Hq.
  pose proof (Z.div_mod a b ltac:(lia)). pose proof (Z.mod_pos_bound a b Hb). nia.
Qed.

Lemma target_le (a1 b1 e1 a2 b2 e2 : Z) :
  roundable a1 b1 e1 -> roundable a2 b2 e2 ->
  value_le a1 b1 e1 a2 b2 e2 ->
  target a1 b1 e1 <= target a2 b2 e2.
Proof.
  intros (Ha1 & Hb1 & HE1) (Ha2 & Hb2 & HE2) Hle.
  fold (target a1 b1 e1) in HE1. fold (target a2 b2 e2) in HE2.
  destruct (Z.le_gt_cases (target a1 b1 e1) (target a2 b2 e2)) as [|Hgt]; [assumption|].
  exfalso.
  pose proof (target_min a2 b2 e2) as Hmin2.
  unfold target in *. rewrite !fexp64_eq in *.
  set (d1 := Zdigits2 (a1 / b1)) in *. set (d2 := Zdigits2 (a2 / b2)) in *.
  assert (Hq1 : 0 < a1 / b1).
  { assert (0 <= a1 / b1) by (apply Z.div_pos; lia).
    destruct (Z.eq_dec (a1 / b1) 0) as [H0|]; [|lia].
    unfold d1 in *. rewrite H0 in *. simpl in *. lia. }
  assert (Hq2 : 0 <= a2 / b2) by (apply Z.div_pos; lia).
  pose proof (Zdigits2_bounds _ Hq1) as [Hlo1 _]. fold d1 in Hlo1.
  pose proof (Zdigits2_small _ Hq2) as Hhi2. fold d2 in Hhi2.
  pose proof (Zdigits2_pos _ Hq1) as Hd1. fold d1 in Hd1.
  pose proof (Zdigits2_nonneg (a2 / b2)) as Hd2. fold d2 in Hd2.
  apply (floor_lower a1 b1) in Hlo1; [|lia].
  apply (floor_upper a2 b2) in Hhi2; [|lia].
  unfold value_le in Hle. set (m := Z.min e1 e2) in *.
  assert (Hpow : 2 ^ d2 * 2 ^ (e2 - m) <= 2 ^ (d1 - 1) * 2 ^ (e1 - m)).
  { rewrite <- !Z.pow_add_r by (unfold m; lia).
    apply Z.pow_le_mono_r; unfold m; lia. }
  pose proof (pow2_pos (d1 - 1) ltac:(lia)).
  pose proof (pow2_pos (e1 - m) ltac:(unfold m; lia)).
  pose proof (pow2_pos d2 ltac:(lia)).
  pose proof (pow2_pos (e2 - m) ltac:(unfold m; lia)).
  set (P1 := 2 ^ (d1 - 1)) in *. set (X1 := 2 ^ (e1 - m)) in *.
  set (P2 := 2 ^ d2) in *. set (X2 := 2 ^ (e2 - m)) in *.
  assert (b1 * P1 * (b2 * X1) <= a1 * (b2 * X1)) by (apply Z.mul_le_mono_nonneg_r; nia).
  assert (a2 * (b1 * X2) < b2 * P2 * (b1 * X2)) by (apply Z.mul_lt_mono_pos_r; nia).
  assert (b2 * P2 * (b1 * X2) <= b1 * P1 * (b2 * X1)).
  { replace (b2 * P2 * (b1 * X2)) with (b1 * b2 * (P2 * X2)) by ring.
    replace (b1 * P1 * (b2 * X1)) with (b1 * b2 * (P1 * X1)) by ring.
    apply Z.mul_le_mono_nonneg_l; nia. }
  nia.
Qed.

Theorem round_mono (a1 b1 e1 a2 b2 e2 : Z) :
  roundable a1 b1 e1 -> roundable a2 b2 e2 ->
  value_le a1 b1 e1 a2 b2 e2 ->
  SFleb (finish (mantissa a1 b1 e1) (target a1 b1 e1))
        (finish (mantissa a2 b2 e2) (target a2 b2 e2)) = true.
Proof.
  intros R1 R2 Hle.
  pose proof (target_le _ _ _ _ _ _ R1 R2 Hle) as HE.
  pose proof (mantissa_bounds _ _ _ R1) as Hm1.
  pose proof (mantissa_bounds _ _ _ R2) as Hm2.
  destruct (Z.eq_dec (target a1 b1 e1) (target a2 b2 e2)) as [Heq|Hne].
  - rewrite Heq. apply finish_le_same; try lia.
    unfold mantissa. rewrite Heq.
    destruct R1 as (Ha1 & Hb1 & HE1), R2 as (Ha2 & Hb2 & HE2).
    fold (target a1 b1 e1) in HE1. fold (target a2 b2 e2) in HE2.
    apply rne_mono; try lia; try (apply scaled_pos; lia).
    apply value_le_at; [exact Hle|lia|lia].
  - apply finish_le_below; try lia.
    split; [|lia]. apply mantissa_normal; [exact R2|].
    pose proof (target_min a1 b1 e1). lia.
Qed.

(** ** Floats that are not negative *)

Lemma pos_finite_nonneg (x : spec_float) : pos_finite x = true -> nonneg x = true.
Proof. destruct x as [[|]|[|]| |[|] m e]; simpl; congruence. Qed.

Lemma bounded_inv (m : positive) (e : Z) :
  bounded prec64 emax64 m e = true ->
  fexp64 (Zdigits2 (Zpos m) + e) = e /\ -1074 <= e <= 971
  /\ 0 < Zdigits2 (Zpos m) <= 53
  /\ (-1074 < e -> Zdigits2 (Zpos m) = 53).
Proof.
  unfold bounded, canonical_mantissa. intros H.
  apply andb_true_iff in H. destruct H as [Hc Hb].
  apply Z.eqb_eq in Hc. apply Z.leb_le in Hb.
  change (fexp prec64 emax64 (Zpos (digits2_pos m) + e))
    with (fexp64 (Zdigits2 (Zpos m) + e)) in Hc.
  change (emax64 - prec64) with 971 in Hb.
  pose proof (Zdigits2_pos (Zpos m) ltac:(lia)).
  split; [exact Hc|]. rewrite fexp64_eq in Hc. lia.
Qed.

Lemma bounded_mantissa (m : positive) (e : Z) :
  bounded prec64 emax64 m e = true ->
  Zpos m < 2 ^ 53 /\ (-1074 < e -> 2 ^ 52 <= Zpos m).
Proof.
  intros H. destruct (bounded_inv m e H) as (_ & _ & Hd & Hn).
  pose proof (Zdigits2_bounds (Zpos m) ltac:(lia)) as [Hlo Hhi].
  split.
  - apply Z.lt_le_trans with (1 := Hhi). apply Z.pow_le_mono_r; lia.
  - intros He. rewrite (Hn He) in Hlo. exact Hlo.
Qed.

Lemma finish_nonneg (a b e : Z) :
  roundable a b e -> nonneg (finish (mantissa a b e) (target a b e)) = true.
Proof.
  intros R. pose proof (mantissa_bounds _ _ _ R) as Hm.
  pose proof (target_min a b e) as HE.
  unfold finish.
  destruct (Z.eqb_spec (mantissa a b e) 0); [reflexivity|].
  destruct (Z.eqb_spec (mantissa a b e) (2 ^ 53)) as [Hc|Hc].
  - destruct (Z.leb_spec (target a b e + 1) 971); [|reflexivity].
    cbn [nonneg]. unfold bounded, canonical_mantissa.
    apply andb_true_iff. split; [|apply Z.leb_le; change (emax64 - prec64) with 971; lia].
    apply Z.eqb_eq.
    change (Zpos (digits2_pos (Z.to_pos (2 ^ 52)))) with 53.
    change (fexp prec64 emax64 (53 + (target a b e + 1)))
      with (fexp64 (53 + (target a b e + 1))).
    rewrite fexp64_eq. lia.
  - destruct (Z.leb_spec (target a b e) 971); [|reflexivity].
    cbn [nonneg]. unfold bounded, canonical_mantissa.
    apply andb_true_iff. split; [|apply Z.leb_le; change (emax64 - prec64) with 971; lia].
    apply Z.eqb_eq.
    change (Zpos (digits2_pos (Z.to_pos (mantissa a b e))))
      with (Zdigits2 (Zpos (Z.to_pos (mantissa a b e)))).
    rewrite Z2Pos.id by lia.
    change (fexp prec64 emax64 (Zdigits2 (mantissa a b e) + target a b e))
      with (fexp64 (Zdigits2 (mantissa a b e) + target a b e)).
    rewrite fexp64_eq.
    assert (Hd : Zdigits2 (mantissa a b e) <= 53) by (apply Zdigits2_le; lia).
    destruct (Z.eq_dec (target a b e) (-1074)) as [Hs|Hs]; [lia|].
    pose proof (mantissa_normal _ _ _ R ltac:(lia)) as Hn.
    assert (53 <= Zdigits2 (mantissa a b e)) by (apply Zdigits2_ge; [exact Hn|lia]).
    lia.
Qed.

(** The order of two positive canonical floats, read on their mantissas
    at a common exponent [k]. *)
Lemma leb_dyadic (m1 m2 : positive) (e1 e2 k : Z) :
  bounded prec64 emax64 m1 e1 = true ->
  bounded prec64 emax64 m2 e2 = true ->
  SFleb (S754_finite false m1 e1) (S754_finite false m2 e2) = true ->
  k <= e1 -> k <= e2 ->
  Zpos m1 * 2 ^ (e1 - k) <= Zpos m2 * 2 ^ (e2 - k).
Proof.
  intros B1 B2 Hle Hk1 Hk2.
  destruct (bounded_inv _ _ B1) as (_ & He1 & _ & _).
  destruct (bounded_mantissa _ _ B1) as [Hhi1 _].
  destruct (bounded_mantissa _ _ B2) as [_ Hlo2].
  unfold SFleb, SFcompare in Hle.
  destruct (Z.compare_spec e1 e2) as [Heq|Hlt|Hgt]; [| |discriminate].
  - subst e2. apply Z.mul_le_mono_nonneg_r; [apply Z.lt_le_incl, pow2_pos; lia|].
    change (Pos.compare_cont Eq m1 m2) with (Pos.compare m1 m2) in Hle.
    destruct (Pos.compare_spec m1 m2); try discriminate; lia.
  - specialize (Hlo2 ltac:(lia)).
    replace (e2 - k) with ((e1 - k) + (e2 - e1)) by lia.
    rewrite Z.pow_add_r by lia.
    pose proof (pow2_pos (e1 - k) ltac:(lia)).
    assert (2 ^ 1 <= 2 ^ (e2 - e1)) by (apply Z.pow_le_mono_r; lia).
    change (2 ^ 1) with 2 in *. change (2 ^ 53) with (2 * 2 ^ 52) in Hhi1.
    set (P := 2 ^ (e1 - k)) in *. set (Q := 2 ^ (e2 - e1)) in *.
    set (C := 2 ^ 52) in *.
    apply Z.le_trans with (2 * C * P).
    + apply Z.mul_le_mono_nonneg_r; lia.
    + replace (Zpos m2 * (P * Q)) with (Zpos m2 * Q * P) by ring.
      apply Z.mul_le_mono_nonneg_r; [lia|]. nia.
Qed.

(** ** The three operations on positive finite floats *)

Lemma stands_for_exact (a : Z) : 0 <= a -> stands_for (shr_record_of_loc a loc_Exact) a 1.
Proof.
  intros Ha. unfold stands_for. cbn [shr_record_of_loc shr_m shr_r shr_s].
  rewrite Z.div_1_r, Z.mod_1_r. repeat split; try lia; reflexivity.
Qed.

Lemma binary_round_aux_exact (a e : Z) :
  roundable a 1 e ->
  binary_round_aux prec64 emax64 false a e loc_Exact
  = finish (mantissa a 1 e) (target a 1 e).
Proof.
  intros (Ha & _ & HE). unfold mantissa, target in *.
  pose proof (binary_round_aux_spec a 1 e loc_Exact) as H.
  rewrite Z.div_1_r in *. apply H; [now apply stands_for_exact|exact HE].
Qed.

Lemma Zdigits2_mul_pow2 (q k : Z) :
  0 < q -> 0 <= k -> Zdigits2 (q * 2 ^ k) = Zdigits2 q + k.
Proof.
  intros Hq Hk. pose proof (Zdigits2_bounds q Hq) as [Hlo Hhi].
  pose proof (Zdigits2_pos q Hq). pose proof (pow2_pos k Hk).
  apply Zdigits2_unique; [lia|].
  replace (Zdigits2 q + k - 1) with (Zdigits2 q - 1 + k) by lia.
  rewrite !Z.pow_add_r by lia. nia.
Qed.

Lemma Zdigits2_mul_ge (p q : Z) :
  0 < p -> 0 < q -> Zdigits2 p + Zdigits2 q - 1 <= Zdigits2 (p * q).
Proof.
  intros Hp Hq.
  pose proof (Zdigits2_bounds p Hp) as [Hlp _].
  pose proof (Zdigits2_bounds q Hq) as [Hlq _].
  pose proof (Zdigits2_pos p Hp). pose proof (Zdigits2_pos q Hq).
  destruct (Z.eq_dec (Zdigits2 p + Zdigits2 q) 2) as [H2|H2].
  - pose proof (Zdigits2_pos (p * q) ltac:(nia)). lia.
  - apply Zdigits2_ge; [|lia].
    replace (Zdigits2 p + Zdigits2 q - 1 - 1)
      with ((Zdigits2 p - 1) + (Zdigits2 q - 1)) by lia.
    rewrite Z.pow_add_r by lia.
    pose proof (pow2_pos (Zdigits2 p - 1) ltac:(lia)).
    pose proof (pow2_pos (Zdigits2 q - 1) ltac:(lia)).
    nia.
Qed.

Lemma SFmul_finite (mx my : positive) (ex ey : Z) :
  bounded prec64 emax64 mx ex = true ->
  bounded prec64 emax64 my ey = true ->
  roundable (Zpos mx * Zpos my) 1 (ex + ey)
  /\ SFmul prec64 emax64 (S754_finite false mx ex) (S754_finite false my ey)
     = finish (mantissa (Zpos mx * Zpos my) 1 (ex + ey))
              (target (Zpos mx * Zpos my) 1 (ex + ey)).
Proof.
  intros Bx By.
  destruct (bounded_inv _ _ Bx) as (_ & Hex & Hdx & Hnx).
  destruct (bounded_inv _ _ By) as (_ & Hey & Hdy & Hny).
  assert (R : roundable (Zpos mx * Zpos my) 1 (ex + ey)).
  { unfold roundable. repeat split; try lia.
    rewrite Z.div_1_r, fexp64_eq.
    pose proof (Zdigits2_mul_ge (Zpos mx) (Zpos my) ltac:(lia) ltac:(lia)).
    destruct (Z.eq_dec ex (-1074)), (Z.eq_dec ey (-1074)); lia. }
  split; [exact R|].
  cbn [SFmul xorb]. rewrite Pos2Z.inj_mul. now apply binary_round_aux_exact.
Qed.

Lemma iter_xO (d m : positive) : Zpos (Pos.iter xO m d) = Zpos m * 2 ^ Zpos d.
Proof.
  revert m. induction d as [d IH|d IH|]; intros m; cbn [Pos.iter].
  - rewrite Pos2Z.inj_xO, IH, IH, pow2_xI. lia.
  - rewrite IH, IH, pow2_xO. lia.
  - rewrite Pos2Z.inj_xO. change (2 ^ 1) with 2. lia.
Qed.

Lemma shl_align_spec (m : positive) (e e' : Z) :
  snd (shl_align m e e') = Z.min e e'
  /\ Zpos (fst (shl_align m e e')) = Zpos m * 2 ^ (e - Z.min e e').
Proof.
  unfold shl_align. destruct (e' - e) as [|d|d] eqn:Hd; cbn [fst snd].
  - rewrite Z.min_l by lia. rewrite Z.sub_diag. simpl. lia.
  - rewrite Z.min_l by lia. rewrite Z.sub_diag. simpl. lia.
  - rewrite Z.min_r by lia. split; [reflexivity|].
    rewrite iter_xO. f_equal. f_equal. lia.
Qed.

Lemma binary_round_spec (s : positive) (e : Z) :
  exists a e',
    roundable a 1 e' /\ e' <= e /\ a = Zpos s * 2 ^ (e - e')
    /\ binary_round prec64 emax64 false s e = finish (mantissa a 1 e') (target a 1 e').
Proof.
  unfold binary_round.
  pose proof (shl_align_spec s e (fexp prec64 emax64 (Zpos (digits2_pos s) + e)))
    as [He Hm].
  destruct (shl_align s e (fexp prec64 emax64 (Zpos (digits2_pos s) + e))) as [mz ez].
  cbn [fst snd] in He, Hm.
  change (fexp prec64 emax64 (Zpos (digits2_pos s) + e))
    with (fexp64 (Zdigits2 (Zpos s) + e)) in He, Hm.
  exists (Zpos mz), ez.
  assert (R : roundable (Zpos mz) 1 ez).
  { unfold roundable. repeat split; try lia.
    rewrite Z.div_1_r, Hm, Zdigits2_mul_pow2 by lia.
    replace (Zdigits2 (Zpos s) + (e - Z.min e (fexp64 (Zdigits2 (Zpos s) + e))) + ez)
      with (Zdigits2 (Zpos s) + e) by lia.
    lia. }
  split; [exact R|]. split; [lia|]. split; [rewrite Hm; f_equal; f_equal; lia|].
  now apply binary_round_aux_exact.
Qed.

Lemma SFadd_finite (mx my : positive) (ex ey : Z) :
  exists a e',
    roundable a 1 e' /\ e' <= ex /\ e' <= ey
    /\ a = Zpos mx * 2 ^ (ex - e') + Zpos my * 2 ^ (ey - e')
    /\ SFadd prec64 emax64 (S754_finite false mx ex) (S754_finite false my ey)
       = finish (mantissa a 1 e') (target a 1 e').
Proof.
  cbn [SFadd cond_Zopp].
  pose proof (shl_align_spec mx ex (Z.min ex ey)) as [_ Hx].
  pose proof (shl_align_spec my ey (Z.min ex ey)) as [_ Hy].
  rewrite Hx, Hy.
  replace (Z.min ex (Z.min ex ey)) with (Z.min ex ey) by lia.
  replace (Z.min ey (Z.min ex ey)) with (Z.min ex ey) by lia.
  set (ez := Z.min ex ey).
  pose proof (pow2_pos (ex - ez) ltac:(unfold ez; lia)).
  pose proof (pow2_pos (ey - ez) ltac:(unfold ez; lia)).
  destruct (Zpos mx * 2 ^ (ex - ez) + Zpos my * 2 ^ (ey - ez)) as [|s|s] eqn:Hs; try nia.
  cbn [binary_normalize].
  destruct (binary_round_spec s ez) as (a & e' & R & He' & Ha & Hrun).
  exists a, e'. split; [exact R|].
  split; [unfold ez in *; lia|]. split; [unfold ez in *; lia|]. split; [|exact Hrun].
  rewrite Ha, <- Hs, Z.mul_add_distr_r, <- !Z.mul_assoc, <- !Z.pow_add_r
    by (unfold ez in *; lia).
  f_equal; f_equal; f_equal; unfold ez in *; lia.
Qed.

Lemma new_location_stands_for (a b : Z) :
  0 <= a -> 0 < b ->
  stands_for (shr_record_of_loc (a / b) (new_location b (a mod b))) a b.
Proof.
  intros Ha Hb. pose proof (Z.mod_pos_bound a b Hb) as Hr.
  unfold stands_for. split; [lia|]. split; [lia|].
  unfold new_location, new_location_even, new_location_odd.
  destruct (Z.even b) eqn:Hev.
  - destruct (Z.eqb_spec (a mod b) 0) as [H0|H0].
    + cbn [shr_record_of_loc shr_m shr_r shr_s]. rewrite H0.
      repeat split. symmetry. apply Z.leb_gt. lia.
    + destruct (Z.compare_spec (2 * (a mod b)) b);
        cbn [shr_record_of_loc shr_m shr_r shr_s]; repeat split;
        destruct (Z.leb_spec b (2 * (a mod b))); try lia;
        destruct (Z.eqb_spec (2 * (a mod b)) b); try lia; reflexivity.
  - assert (Hodd : 2 * (a mod b) <> b).
    { intros H. rewrite <- H in Hev. rewrite Z.even_mul in Hev. discriminate. }
    destruct (Z.eqb_spec (a mod b) 0) as [H0|H0].
    + cbn [shr_record_of_loc shr_m shr_r shr_s]. rewrite H0.
      repeat split. symmetry. apply Z.leb_gt. lia.
    + destruct (Z.compare_spec (2 * (a mod b) + 1) b);
        cbn [shr_record_of_loc shr_m shr_r shr_s]; repeat split;
        destruct (Z.leb_spec b (2 * (a mod b))); try lia;
        destruct (Z.eqb_spec (2 * (a mod b)) b); try lia; reflexivity.
Qed.

Lemma SFdiv_finite (mx my : positive) (ex ey : Z) :
  exists a e',
    roundable a (Zpos my) e' /\ e' <= ex - ey
    /\ a = Zpos mx * 2 ^ (ex - ey - e')
    /\ SFdiv prec64 emax64 (S754_finite false mx ex) (S754_finite false my ey)
       = finish (mantissa a (Zpos my) e') (target a (Zpos my) e').
Proof.
  cbn [SFdiv xorb]. unfold SFdiv_core_binary.
  change (fexp prec64 emax64) with fexp64.
  set (M := Zdigits2 (Zpos mx) + ex - (Zdigits2 (Zpos my) + ey)).
  set (e' := Z.min (fexp64 M) (ex - ey)).
  set (s := ex - ey - e').
  assert (Hs : 0 <= s) by (unfold s, e'; lia).
  set (m' := match s with Zpos _ => Z.shiftl (Zpos mx) s | 0 => Zpos mx | Zneg _ => 0 end).
  assert (Hm' : m' = Zpos mx * 2 ^ s).
  { unfold m'. destruct s as [|p|p] eqn:E; [simpl; lia| |lia].
    now rewrite Z.shiftl_mul_pow2 by lia. }
  assert (Hpos : 0 < m') by (rewrite Hm'; apply Z.mul_pos_pos; [lia|now apply pow2_pos]).
  pose proof (Z.div_eucl_eq m' (Zpos my) ltac:(lia)) as Heucl.
  assert (Hq : fst (Z.div_eucl m' (Zpos my)) = m' / Zpos my) by reflexivity.
  assert (Hr : snd (Z.div_eucl m' (Zpos my)) = m' mod Zpos my) by reflexivity.
  destruct (Z.div_eucl m' (Zpos my)) as [q r]. cbn [fst snd] in Hq, Hr. subst q r.
  exists m', e'.
  assert (R : roundable m' (Zpos my) e').
  { unfold roundable. split; [lia|]. split; [lia|].
    rewrite fexp64_eq.
    destruct (Z.le_gt_cases e' (-1074)) as [|Hgt]; [lia|].
    assert (HM : e' <= M - 53) by (unfold e' in *; rewrite fexp64_eq in *; lia).
    assert (53 <= Zdigits2 (m' / Zpos my)); [|lia].
    pose proof (Zdigits2_bounds (Zpos mx) ltac:(lia)) as [Hlx _].
    pose proof (Zdigits2_bounds (Zpos my) ltac:(lia)) as [_ Hhy].
    pose proof (Zdigits2_pos (Zpos mx) ltac:(lia)).
    pose proof (Zdigits2_pos (Zpos my) ltac:(lia)).
    apply Zdigits2_ge; [|lia].
    apply Z.div_le_lower_bound; [lia|].
    rewrite Hm'.
    assert (Hsplit : s = (Zdigits2 (Zpos my) - Zdigits2 (Zpos mx) + 53)
                         + (s - (Zdigits2 (Zpos my) - Zdigits2 (Zpos mx) + 53)))
      by lia.
    assert (Hk : 0 <= s - (Zdigits2 (Zpos my) - Zdigits2 (Zpos mx) + 53))
      by (unfold s, M in *; lia).
    set (k := s - (Zdigits2 (Zpos my) - Zdigits2 (Zpos mx) + 53)) in *.
    apply Z.le_trans with (2 ^ Zdigits2 (Zpos my) * 2 ^ 52).
    { apply Z.mul_le_mono_nonneg_r; [apply Z.lt_le_incl, pow2_pos|]; lia. }
    rewrite <- Z.pow_add_r by lia.
    apply Z.le_trans with (2 ^ (Zdigits2 (Zpos mx) - 1) * 2 ^ s).
    { rewrite <- Z.pow_add_r by lia. apply Z.pow_le_mono_r; lia. }
    apply Z.mul_le_mono_nonneg_r; [apply Z.lt_le_incl, pow2_pos|]; lia. }
  split; [exact R|]. split; [unfold e'; lia|]. split; [exact Hm'|].
  pose proof (binary_round_aux_spec m' (Zpos my) e' (new_location (Zpos my) (m' mod Zpos my)))
    as H.
  unfold mantissa, target. apply H.
  - apply new_location_stands_for; lia.
  - destruct R as (_ & _ & HE). exact HE.
Qed.

(** ** The order on floats that are not negative *)

Lemma SFleb_finite (m1 m2 : positive) (e1 e2 : Z) :
  SFleb (S754_finite false m1 e1) (S754_finite false m2 e2) = true
  <-> e1 < e2 \/ (e1 = e2 /\ (m1 <= m2)%positive).
Proof.
  unfold SFleb, SFcompare.
  change (Pos.compare_cont Eq m1 m2) with (Pos.compare m1 m2).
  destruct (Z.compare_spec e1 e2); [destruct (Pos.compare_spec m1 m2)| |];
    split; intros H'; try reflexivity; try discriminate; lia.
Qed.

Lemma SFleb_refl (x : spec_float) : nonneg x = true -> SFleb x x = true.
Proof.
  destruct x as [[|]|[|]| |[|] m e]; try discriminate; try reflexivity.
  intros _. apply SFleb_finite. right. split; [reflexivity|apply Pos.le_refl].
Qed.

Lemma SFleb_trans (x y z : spec_float) :
  nonneg x = true -> nonneg y = true -> nonneg z = true ->
  SFleb x y = true -> SFleb y z = true -> SFleb x z = true.
Proof.
  destruct x as [[|]|[|]| |[|] m1 e1]; try discriminate;
  destruct y as [[|]|[|]| |[|] m2 e2]; try discriminate;
  destruct z as [[|]|[|]| |[|] m3 e3]; try discriminate;
  intros _ _ _ H1 H2; try reflexivity; try discriminate.
  apply SFleb_finite in H1, H2. apply SFleb_finite.
  destruct H1 as [|[-> ?]], H2 as [|[-> ?]]; lia.
Qed.

Lemma SFleb_zero (x : spec_float) :
  nonneg x = true -> SFleb (S754_zero false) x = true.
Proof. destruct x as [[|]|[|]| |[|] m e]; try discriminate; reflexivity. Qed.

Lemma SFleb_infinity (x : spec_float) :
  nonneg x = true -> SFleb x (S754_infinity false) = true.
Proof. destruct x as [[|]|[|]| |[|] m e]; try discriminate; reflexivity. Qed.

(** Rounding a canonical float gives it back. *)
Lemma rne_1 (a : Z) : rne a 1 = a.
Proof. unfold rne. rewrite Z.mod_1_r, Z.div_1_r. reflexivity. Qed.

Lemma finish_canonical (m : positive) (e : Z) :
  bounded prec64 emax64 m e = true ->
  roundable (Zpos m) 1 e
  /\ finish (mantissa (Zpos m) 1 e) (target (Zpos m) 1 e) = S754_finite false m e.
Proof.
  intros B. destruct (bounded_inv _ _ B) as (Hc & He & _ & _).
  destruct (bounded_mantissa _ _ B) as [Hhi _].
  assert (Ht : target (Zpos m) 1 e = e) by (unfold target; now rewrite Z.div_1_r).
  split.
  - unfold roundable. rewrite Z.div_1_r. lia.
  - unfold mantissa. rewrite Ht, Z.sub_diag. change (1 * 2 ^ 0) with 1. rewrite rne_1.
    unfold finish.
    destruct (Z.eqb_spec (Zpos m) 0); [lia|].
    destruct (Z.eqb_spec (Zpos m) (2 ^ 53)); [lia|].
    destruct (Z.leb_spec e 971); [reflexivity|lia].
Qed.

(** ** The operations are monotone *)

Lemma SFmul_comm (x y : spec_float) :
  SFmul prec64 emax64 x y = SFmul prec64 emax64 y x.
Proof.
  destruct x as [sx|sx| |sx mx ex], y as [sy|sy| |sy my ey]; cbn [SFmul];
    try reflexivity; try (now rewrite xorb_comm).
  now rewrite xorb_comm, Pos.mul_comm, Z.add_comm.
Qed.

Lemma SFmul_pos_nonneg (x y : spec_float) :
  pos_finite x = true -> pos_finite y = true ->
  nonneg (SFmul prec64 emax64 x y) = true.
Proof.
  destruct x as [|?| |[|] mx ex]; try discriminate.
  destruct y as [|?| |[|] my ey]; try discriminate.
  cbn [pos_finite]. intros Bx By.
  destruct (SFmul_finite mx my ex ey Bx By) as [R ->]. now apply finish_nonneg.
Qed.

Lemma SFmul_pos_mono (x y1 y2 : spec_float) :
  pos_finite x = true -> pos_finite y1 = true -> pos_finite y2 = true ->
  SFleb y1 y2 = true ->
  SFleb (SFmul prec64 emax64 x y1) (SFmul prec64 emax64 x y2) = true.
Proof.
  destruct x as [|?| |[|] mx ex]; try discriminate.
  destruct y1 as [|?| |[|] m1 e1]; try discriminate.
  destruct y2 as [|?| |[|] m2 e2]; try discriminate.
  cbn [pos_finite]. intros Bx B1 B2 Hle.
  destruct (SFmul_finite mx m1 ex e1 Bx B1) as [R1 ->].
  destruct (SFmul_finite mx m2 ex e2 Bx B2) as [R2 ->].
  apply round_mono; try assumption.
  unfold value_le. rewrite !Z.mul_1_r.
  replace (ex + e1 - Z.min (ex + e1) (ex + e2)) with (e1 - Z.min e1 e2) by lia.
  replace (ex + e2 - Z.min (ex + e1) (ex + e2)) with (e2 - Z.min e1 e2) by lia.
  pose proof (leb_dyadic m1 m2 e1 e2 (Z.min e1 e2) B1 B2 Hle ltac:(lia) ltac:(lia)).
  rewrite <- !Z.mul_assoc. apply Z.mul_le_mono_nonneg_l; lia.
Qed.

(** A sum or a total times a positive rate. *)
Lemma SFmul_nonneg (x y : spec_float) :
  nonneg x = true -> pos_finite y = true ->
  nonneg (SFmul prec64 emax64 x y) = true.
Proof.
  intros Hx Hy.
  destruct x as [[|]|[|]| |[|] mx ex] eqn:Ex; try discriminate.
  - destruct y as [|?| |[|] my ey]; try discriminate. reflexivity.
  - destruct y as [|?| |[|] my ey]; try discriminate. reflexivity.
  - apply SFmul_pos_nonneg; assumption.
Qed.

Lemma SFmul_mono (x1 x2 y1 y2 : spec_float) :
  nonneg x1 = true -> nonneg x2 = true ->
  pos_finite y1 = true -> pos_finite y2 = true ->
  SFleb x1 x2 = true -> SFleb y1 y2 = true ->
  SFleb (SFmul prec64 emax64 x1 y1) (SFmul prec64 emax64 x2 y2) = true.
Proof.
  intros N1 N2 P1 P2 Hx Hy.
  pose proof (SFmul_nonneg x1 y1 N1 P1) as Hn1.
  pose proof (SFmul_nonneg x2 y2 N2 P2) as Hn2.
  destruct x1 as [[|]|[|]| |[|] m1 e1] eqn:E1; try discriminate.
  - (* zero *)
    destruct y1 as [|?| |[|] my ey]; try discriminate.
    cbn [SFmul xorb]. now apply SFleb_zero.
  - (* infinity *)
    destruct x2 as [[|]|[|]| |[|] m2 e2]; try discriminate.
    destruct y1 as [|?| |[|] my1 ey1]; try discriminate.
    destruct y2 as [|?| |[|] my2 ey2]; try discriminate. reflexivity.
  - destruct x2 as [[|]|[|]| |[|] m2 e2] eqn:E2; try discriminate.
    + destruct y2 as [|?| |[|] my2 ey2]; try discriminate.
      cbn [SFmul xorb]. now apply SFleb_infinity.
    + apply SFleb_trans with (SFmul prec64 emax64 (S754_finite false m1 e1) y2);
        try assumption.
      * apply SFmul_pos_nonneg; assumption.
      * apply SFmul_pos_mono; assumption.
      * rewrite (SFmul_comm (S754_finite false m1 e1)), (SFmul_comm (S754_finite false m2 e2)).
        apply SFmul_pos_mono; assumption.
Qed.

Lemma SFadd_comm (x y : spec_float) :
  nonneg x = true -> nonneg y = true ->
  SFadd prec64 emax64 x y = SFadd prec64 emax64 y x.
Proof.
  destruct x as [[|]|[|]| |[|] mx ex]; try discriminate;
  destruct y as [[|]|[|]| |[|] my ey]; try discriminate; intros _ _; try reflexivity.
  cbn [SFadd cond_Zopp]. now rewrite (Z.min_comm ey ex), Z.add_comm.
Qed.

Lemma SFadd_pos_nonneg (mx my : positive) (ex ey : Z) :
  nonneg (SFadd prec64 emax64 (S754_finite false mx ex) (S754_finite false my ey)) = true.
Proof.
  destruct (SFadd_finite mx my ex ey) as (a & e' & R & _ & _ & _ & ->).
  now apply finish_nonneg.
Qed.

Lemma SFadd_nonneg (x y : spec_float) :
  nonneg x = true -> nonneg y = true -> nonneg (SFadd prec64 emax64 x y) = true.
Proof.
  destruct x as [[|]|[|]| |[|] mx ex]; try discriminate;
  destruct y as [[|]|[|]| |[|] my ey]; try discriminate; intros Hx Hy;
    try reflexivity; try assumption.
  apply SFadd_pos_nonneg.
Qed.

(** Adding a positive number does not lower a float. *)
Lemma SFadd_pos_ge (mx my : positive) (ex ey : Z) :
  bounded prec64 emax64 my ey = true ->
  SFleb (S754_finite false my ey)
        (SFadd prec64 emax64 (S754_finite false mx ex) (S754_finite false my ey)) = true.
Proof.
  intros By.
  destruct (finish_canonical my ey By) as [Ry Hy].
  destruct (SFadd_finite mx my ex ey) as (a & e' & R & He1 & He2 & Ha & ->).
  rewrite <- Hy at 1. apply round_mono; try assumption.
  unfold value_le. rewrite !Z.mul_1_r.
  rewrite (Z.min_r ey e') by lia. rewrite Z.sub_diag.
  change (2 ^ 0) with 1. rewrite Z.mul_1_r, Ha.
  pose proof (pow2_pos (ex - e') ltac:(lia)). nia.
Qed.

Lemma SFadd_pos_mono (m1 m2 my : positive) (e1 e2 ey : Z) :
  bounded prec64 emax64 m1 e1 = true ->
  bounded prec64 emax64 m2 e2 = true ->
  SFleb (S754_finite false m1 e1) (S754_finite false m2 e2) = true ->
  SFleb (SFadd prec64 emax64 (S754_finite false m1 e1) (S754_finite false my ey))
        (SFadd prec64 emax64 (S754_finite false m2 e2) (S754_finite false my ey)) = true.
Proof.
  intros B1 B2 Hle.
  destruct (SFadd_finite m1 my e1 ey) as (a1 & k1 & R1 & H11 & H12 & Ha1 & ->).
  destruct (SFadd_finite m2 my e2 ey) as (a2 & k2 & R2 & H21 & H22 & Ha2 & ->).
  apply round_mono; try assumption.
  unfold value_le. rewrite !Z.mul_1_r, Ha1, Ha2.
  set (k := Z.min k1 k2).
  pose proof (leb_dyadic m1 m2 e1 e2 k B1 B2 Hle ltac:(unfold k; lia) ltac:(unfold k; lia))
    as Hd.
  rewrite !Z.mul_add_distr_r, <- !Z.mul_assoc, <- !Z.pow_add_r by (unfold k; lia).
  replace (e1 - k1 + (k1 - k)) with (e1 - k) by lia.
  replace (ey - k1 + (k1 - k)) with (ey - k) by lia.
  replace (e2 - k2 + (k2 - k)) with (e2 - k) by lia.
  replace (ey - k2 + (k2 - k)) with (ey - k) by lia.
  lia.
Qed.

Lemma SFadd_mono_l (x1 x2 y : spec_float) :
  nonneg x1 = true -> nonneg x2 = true -> nonneg y = true ->
  SFleb x1 x2 = true ->
  SFleb (SFadd prec64 emax64 x1 y) (SFadd prec64 emax64 x2 y) = true.
Proof.
  intros N1 N2 Ny Hle.
  pose proof (SFadd_nonneg x1 y N1 Ny) as Hn1.
  pose proof (SFadd_nonneg x2 y N2 Ny) as Hn2.
  destruct y as [[|]|[|]| |[|] my ey]; try discriminate.
  - (* y is zero *)
    destruct x1 as [[|]|[|]| |[|] m1 e1]; try discriminate;
    destruct x2 as [[|]|[|]| |[|] m2 e2]; try discriminate; exact Hle.
  - (* y is infinite *)
    destruct x1 as [[|]|[|]| |[|] m1 e1]; try discriminate;
    destruct x2 as [[|]|[|]| |[|] m2 e2]; try discriminate; reflexivity.
  - destruct x1 as [[|]|[|]| |[|] m1 e1]; try discriminate;
    destruct x2 as [[|]|[|]| |[|] m2 e2]; try discriminate.
    + now apply SFleb_refl.
    + reflexivity.
    + change (SFadd prec64 emax64 (S754_zero false) (S754_finite false my ey))
        with (S754_finite false my ey).
      now apply SFadd_pos_ge.
    + reflexivity.
    + change (SFadd prec64 emax64 (S754_infinity false) (S754_finite false my ey))
        with (S754_infinity false).
      now apply SFleb_infinity.
    + now apply SFadd_pos_mono.
Qed.

Lemma SFadd_mono (x1 x2 y1 y2 : spec_float) :
  nonneg x1 = true -> nonneg x2 = true -> nonneg y1 = true -> nonneg y2 = true ->
  SFleb x1 x2 = true -> SFleb y1 y2 = true ->
  SFleb (SFadd prec64 emax64 x1 y1) (SFadd prec64 emax64 x2 y2) = true.
Proof.
  intros Nx1 Nx2 Ny1 Ny2 Hx Hy.
  apply SFleb_trans with (SFadd prec64 emax64 x2 y1); try now apply SFadd_nonneg.
  - now apply SFadd_mono_l.
  - rewrite (SFadd_comm x2 y1), (SFadd_comm x2 y2) by assumption.
    now apply SFadd_mono_l.
Qed.

Lemma SFdiv_nonneg (x u : spec_float) :
  nonneg x = true -> pos_finite u = true -> nonneg (SFdiv prec64 emax64 x u) = true.
Proof.
  destruct u as [|?| |[|] mu eu]; try discriminate.
  destruct x as [[|]|[|]| |[|] mx ex]; try discriminate; intros _ _; try reflexivity.
  destruct (SFdiv_finite mx mu ex eu) as (a & e' & R & _ & _ & ->).
  now apply finish_nonneg.
Qed.

Lemma SFdiv_mono (x1 x2 u : spec_float) :
  nonneg x1 = true -> nonneg x2 = true -> pos_finite u = true ->
  SFleb x1 x2 = true ->
  SFleb (SFdiv prec64 emax64 x1 u) (SFdiv prec64 emax64 x2 u) = true.
Proof.
  intros N1 N2 Pu Hle.
  pose proof (SFdiv_nonneg x1 u N1 Pu) as Hn1.
  pose proof (SFdiv_nonneg x2 u N2 Pu) as Hn2.
  destruct u as [|?| |[|] mu eu]; try discriminate.
  destruct x1 as [[|]|[|]| |[|] m1 e1]; try discriminate;
  destruct x2 as [[|]|[|]| |[|] m2 e2]; try discriminate; try reflexivity.
  - change (SFdiv prec64 emax64 (S754_zero false) (S754_finite false mu eu))
      with (S754_zero false).
    now apply SFleb_zero.
  - change (SFdiv prec64 emax64 (S754_infinity false) (S754_finite false mu eu))
      with (S754_infinity false).
    now apply SFleb_infinity.
  - cbn [nonneg] in N1, N2.
    destruct (SFdiv_finite m1 mu e1 eu) as (a1 & k1 & R1 & H1 & Ha1 & ->).
    destruct (SFdiv_finite m2 mu e2 eu) as (a2 & k2 & R2 & H2 & Ha2 & ->).
    apply round_mono; try assumption.
    unfold value_le. rewrite Ha1, Ha2.
    set (k := Z.min k1 k2).
    pose proof (leb_dyadic m1 m2 e1 e2 (eu + k) N1 N2 Hle
                  ltac:(unfold k; lia) ltac:(unfold k; lia)) as Hd.
    rewrite <- !Z.mul_assoc.
    rewrite (Z.mul_comm (2 ^ (e1 - eu - k1))), (Z.mul_comm (2 ^ (e2 - eu - k2))).
    rewrite <- !Z.mul_assoc, <- !Z.pow_add_r by (unfold k; lia).
    replace (k1 - k + (e1 - eu - k1)) with (e1 - (eu + k)) by lia.
    replace (k2 - k + (e2 - eu - k2)) with (e2 - (eu + k)) by lia.
    nia.
Qed.

(** ** Sums of floats that are not negative *)

Lemma fold_fadd_mono (f g : string -> spec_float) (l : list string) :
  (forall t, In t l -> nonneg (f t) = true /\ nonneg (g t) = true
                       /\ SFleb (f t) (g t) = true) ->
  forall acc1 acc2,
    nonneg acc1 = true -> nonneg acc2 = true -> SFleb acc1 acc2 = true ->
    nonneg (fold_left fadd (map f l) acc1) = true
    /\ nonneg (fold_left fadd (map g l) acc2) = true
    /\ SFleb (fold_left fadd (map f l) acc1) (fold_left fadd (map g l) acc2) = true.
Proof.
  induction l as [|t l IH]; intros Hl acc1 acc2 N1 N2 Hle; cbn [map fold_left].
  - auto.
  - destruct (Hl t (or_introl eq_refl)) as (Nf & Ng & Hfg).
    apply IH.
    + intros u Hu. apply Hl. now right.
    + now apply SFadd_nonneg.
    + now apply SFadd_nonneg.
    + now apply SFadd_mono.
Qed.

(** * Binary64 rounding errors *)

(** ** Integers *)

(** Rounding to nearest moves a quotient by at most half a unit. *)
Lemma rne_close (a b : Z) :
  0 <= a -> 0 < b -> 2 * a - b <= 2 * (b * rne a b) <= 2 * a + b.
Proof.
  intros Ha Hb. unfold rne.
  pose proof (Z.div_mod a b ltac:(lia)) as D.
  pose proof (Z.mod_pos_bound a b Hb) as R.
  destruct (Z.compare_spec (2 * (a mod b)) b);
    [destruct (Z.even (a / b))| |]; nia.
Qed.

(** Above the subnormal range the rounded mantissa keeps 53 bits. *)
Lemma target_normal (a b e : Z) :
  roundable a b e -> -1074 < target a b e ->
  target a b e = Zdigits2 (a / b) + e - 53
  /\ 0 < a / b
  /\ 2 ^ 52 * (b * 2 ^ (target a b e - e)) <= a.
Proof.
  intros (Ha & Hb & HE) Hn. fold (target a b e) in HE.
  assert (HEd : target a b e = Zdigits2 (a / b) + e - 53).
  { unfold target in *. rewrite fexp64_eq in *. lia. }
  assert (Hq : 0 < a / b).
  { assert (0 <= a / b) by (apply Z.div_pos; lia).
    destruct (Z.eq_dec (a / b) 0) as [H0|]; [|lia].
    rewrite H0 in HEd. simpl in HEd. lia. }
  split; [exact HEd|]. split; [exact Hq|].
  pose proof (Zdigits2_bounds _ Hq) as [Hlo _].
  set (E := target a b e) in *.
  assert (HB : 0 < b * 2 ^ (E - e)) by (apply scaled_pos; lia).
  assert (Hfl : 2 ^ 52 <= a / (b * 2 ^ (E - e))).
  { rewrite floor_scaled by lia.
    apply Z.div_le_lower_bound; [apply pow2_pos; lia|].
    rewrite <- Z.pow_add_r by lia.
    now replace (E - e + 52) with (Zdigits2 (a / b) - 1) by lia. }
  apply (floor_lower a (b * 2 ^ (E - e))) in Hfl; [|exact HB]. lia.
Qed.

(** The rounded mantissa is within half a unit of the exact one, which
    for a normal number is at most the fraction [2^-53] of it. *)
Lemma mantissa_close (a b e : Z) :
  roundable a b e -> -1074 < target a b e ->
  let B := b * 2 ^ (target a b e - e) in
  (2 ^ 53 - 1) * a <= 2 ^ 53 * (mantissa a b e * B)
  /\ (2 ^ 53 - 1) * (mantissa a b e * B) <= 2 ^ 53 * a.
Proof.
  intros R Hn B.
  destruct (target_normal a b e R Hn) as (_ & _ & Hbig). fold B in Hbig.
  destruct R as (Ha & Hb & HE). fold (target a b e) in HE.
  assert (HB : 0 < B) by (apply scaled_pos; lia).
  pose proof (rne_close a B Ha HB) as Hc.
  unfold mantissa. fold B.
  set (q := rne a B) in *.
  change (2 ^ 53) with 9007199254740992 in *.
  change (2 ^ 52) with 4503599627370496 in *.
  nia.
Qed.

(** ** Values *)

Section RoundingErrors.

Local Open Scope Q_scope.

Lemma two_pow_pos (e : Z) : 0 < 2 ^ e.
Proof. apply Qpower_0_lt. reflexivity. Qed.

Lemma two_pow_add (a b : Z) : 2 ^ (a + b) == 2 ^ a * 2 ^ b.
Proof. apply Qpower_plus. discriminate. Qed.

Lemma two_pow_inject (n : Z) : (0 <= n)%Z -> inject_Z (2 ^ n) == 2 ^ n.
Proof. intros Hn. now rewrite Zpower_Qpower. Qed.

Lemma B2Q_finish (q E : Z) :
  (2 ^ 52 <= q <= 2 ^ 53)%Z -> (E <= 970)%Z ->
  exists m e, finish q E = S754_finite false m e
              /\ (E <= e <= E + 1)%Z
              /\ B2Q (S754_finite false m e) == inject_Z q * 2 ^ E.
Proof.
  intros Hq HE. unfold finish.
  assert (Hp : (0 < 2 ^ 52)%Z) by reflexivity.
  destruct (Z.eqb_spec q 0); [lia|].
  destruct (Z.eqb_spec q (2 ^ 53)) as [Hc|Hc].
  - destruct (Z.leb_spec (E + 1) 971); [|lia].
    do 2 eexists. split; [reflexivity|]. split; [lia|].
    cbn [B2Q cond_Zopp]. rewrite Hc, two_pow_add.
    change (inject_Z (Zpos (Z.to_pos (2 ^ 52)%Z))) with (inject_Z (2 ^ 52)).
    change (inject_Z (2 ^ 53)) with (inject_Z (2 ^ 52) * 2 ^ 1).
    ring.
  - destruct (Z.leb_spec E 971); [|lia].
    do 2 eexists. split; [reflexivity|]. split; [lia|].
    cbn [B2Q cond_Zopp]. rewrite Z2Pos.id by lia. reflexivity.
Qed.

Lemma Qle_scaled (n d : positive) (a c : Z) (pb : positive) :
  (Zpos n * a <= Zpos d * (c * Zpos pb))%Z ->
  (Zpos n # d) * (a # pb) <= inject_Z c.
Proof.
  intros H. unfold Qle, Qmult, inject_Z. cbn [Qnum Qden].
  rewrite Z.mul_1_r, Pos2Z.inj_mul. lia.
Qed.

Lemma Qle_scaled' (n d : positive) (a c : Z) (pb : positive) :
  (Zpos n * (c * Zpos pb) <= Zpos d * a)%Z ->
  (Zpos n # d) * inject_Z c <= (a # pb).
Proof.
  intros H. unfold Qle, Qmult, inject_Z. cbn [Qnum Qden].
  rewrite Pos.mul_1_r. lia.
Qed.

(** The float that [binary_round_aux] returns for a normal value below
    the overflow threshold, and how far it is from the exact value. *)
Lemma finish_near (a b e : Z) :
  roundable a b e ->
  (-1074 < target a b e)%Z -> (target a b e <= 970)%Z ->
  exists m' e',
    finish (mantissa a b e) (target a b e) = S754_finite false m' e'
    /\ bounded prec64 emax64 m' e' = true
    /\ (target a b e <= e' <= target a b e + 1)%Z
    /\ keep * ((a # Z.to_pos b) * 2 ^ e) <= B2Q (S754_finite false m' e')
    /\ keep * B2Q (S754_finite false m' e') <= (a # Z.to_pos b) * 2 ^ e.
Proof.
  intros R Hn Ho.
  pose proof (mantissa_bounds _ _ _ R) as Hmb.
  pose proof (mantissa_normal _ _ _ R Hn) as Hmn.
  pose proof (finish_nonneg _ _ _ R) as Hnn.
  pose proof (mantissa_close _ _ _ R Hn) as [Hlo Hhi]. cbv zeta in Hlo, Hhi.
  destruct (B2Q_finish (mantissa a b e) (target a b e) ltac:(lia) Ho)
    as (m' & e' & Hfin & He' & Hval).
  exists m', e'. rewrite Hfin in *. cbn [nonneg] in Hnn.
  split; [reflexivity|]. split; [exact Hnn|]. split; [exact He'|].
  destruct R as (Ha & Hb & HE). fold (target a b e) in HE.
  set (E := target a b e) in *. set (q := mantissa a b e) in *.
  assert (Hsplit : inject_Z q * 2 ^ E == inject_Z (q * 2 ^ (E - e)) * 2 ^ e).
  { rewrite inject_Z_mult, two_pow_inject by lia.
    rewrite <- Qmult_assoc, <- two_pow_add.
    now replace (E - e + e)%Z with E by lia. }
  rewrite Hval, Hsplit.
  pose proof (two_pow_pos e) as HP.
  assert (Hpb : Zpos (Z.to_pos b) = b) by (apply Z2Pos.id; lia).
  split.
  - rewrite Qmult_assoc. apply Qmult_le_compat_r; [|now apply Qlt_le_weak].
    apply Qle_scaled. rewrite Hpb.
    change (Zpos 9007199254740991) with (2 ^ 53 - 1)%Z.
    change (Zpos 9007199254740992) with (2 ^ 53)%Z.
    replace (q * 2 ^ (E - e) * b)%Z with (q * (b * 2 ^ (E - e)))%Z by ring.
    exact Hlo.
  - rewrite Qmult_assoc. apply Qmult_le_compat_r; [|now apply Qlt_le_weak].
    apply Qle_scaled'. rewrite Hpb.
    change (Zpos 9007199254740991) with (2 ^ 53 - 1)%Z.
    change (Zpos 9007199254740992) with (2 ^ 53)%Z.
    replace (q * 2 ^ (E - e) * b)%Z with (q * (b * 2 ^ (E - e)))%Z by ring.
    exact Hhi.
Qed.

(** ** One operation

    On normal operands, and with a result inside the normal range, each
    of the three operations returns a canonical float within one rounding
    of the exact result; its exponent is known up to two units. *)

Lemma normal_mantissa (m : positive) (e : Z) :
  bounded prec64 emax64 m e = true -> (-1074 < e)%Z ->
  (2 ^ 52 <= Zpos m < 2 ^ 53)%Z.
Proof.
  intros B He. destruct (bounded_mantissa m e B) as [Hhi Hlo]. split; auto.
Qed.

Lemma digits_between (q lo hi : Z) :
  (0 < lo)%Z -> (2 ^ (lo - 1) <= q < 2 ^ hi)%Z -> (lo <= Zdigits2 q <= hi)%Z.
Proof.
  intros Hlo [H1 H2].
  assert (0 < q)%Z by (pose proof (pow2_pos (lo - 1)); lia).
  split.
  - now apply Zdigits2_ge.
  - apply Zdigits2_le; [|lia].
    destruct (Z.le_gt_cases 0 hi); [assumption|].
    rewrite Z.pow_neg_r in H2 by lia. lia.
Qed.

Lemma SFmul_near (mx my : positive) (ex ey : Z) :
  bounded prec64 emax64 mx ex = true -> bounded prec64 emax64 my ey = true ->
  (-1074 < ex)%Z -> (-1074 < ey)%Z ->
  (-1074 < ex + ey + 52)%Z -> (ex + ey + 53 <= 970)%Z ->
  exists m' e',
    SFmul prec64 emax64 (S754_finite false mx ex) (S754_finite false my ey)
      = S754_finite false m' e'
    /\ bounded prec64 emax64 m' e' = true
    /\ (ex + ey + 52 <= e' <= ex + ey + 54)%Z
    /\ keep * (B2Q (S754_finite false mx ex) * B2Q (S754_finite false my ey))
       <= B2Q (S754_finite false m' e')
    /\ keep * B2Q (S754_finite false m' e')
       <= B2Q (S754_finite false mx ex) * B2Q (S754_finite false my ey).
Proof.
  intros Bx By Hx Hy Hlo Hhi.
  destruct (SFmul_finite mx my ex ey Bx By) as [R Heq].
  pose proof (normal_mantissa mx ex Bx Hx) as [Hx1 Hx2].
  pose proof (normal_mantissa my ey By Hy) as [Hy1 Hy2].
  assert (Hd : (105 <= Zdigits2 (Zpos mx * Zpos my) <= 106)%Z).
  { apply digits_between; [lia|].
    change (2 ^ (105 - 1))%Z with (2 ^ 52 * 2 ^ 52)%Z.
    change (2 ^ 106)%Z with (2 ^ 53 * 2 ^ 53)%Z. nia. }
  assert (Ht : (ex + ey + 52 <= target (Zpos mx * Zpos my) 1 (ex + ey) <= ex + ey + 53)%Z).
  { unfold target. rewrite Z.div_1_r, fexp64_eq. lia. }
  destruct (finish_near _ _ _ R ltac:(lia) ltac:(lia))
    as (m' & e' & Hfin & Hb & He' & Hv1 & Hv2).
  exists m', e'. rewrite Heq, Hfin. split; [reflexivity|]. split; [exact Hb|].
  split; [lia|].
  assert (Hval : (Zpos mx * Zpos my # Z.to_pos 1) * 2 ^ (ex + ey)
                 == B2Q (S754_finite false mx ex) * B2Q (S754_finite false my ey)).
  { cbn [B2Q cond_Zopp]. rewrite two_pow_add.
    change (Zpos mx * Zpos my # Z.to_pos 1) with (inject_Z (Zpos mx * Zpos my)).
    rewrite inject_Z_mult. ring. }
  rewrite <- Hval. split; assumption.
Qed.

Lemma SFadd_near (mx my : positive) (ex ey : Z) :
  bounded prec64 emax64 mx ex = true -> bounded prec64 emax64 my ey = true ->
  (-1074 < ex)%Z -> (-1074 < ey)%Z -> (Z.max ex ey + 1 <= 970)%Z ->
  exists m' e',
    SFadd prec64 emax64 (S754_finite false mx ex) (S754_finite false my ey)
      = S754_finite false m' e'
    /\ bounded prec64 emax64 m' e' = true
    /\ (Z.max ex ey <= e' <= Z.max ex ey + 2)%Z
    /\ keep * (B2Q (S754_finite false mx ex) + B2Q (S754_finite false my ey))
       <= B2Q (S754_finite false m' e')
    /\ keep * B2Q (S754_finite false m' e')
       <= B2Q (S754_finite false mx ex) + B2Q (S754_finite false my ey).
Proof.
  intros Bx By Hx Hy Hhi.
  destruct (SFadd_finite mx my ex ey) as (a & k & R & Hk1 & Hk2 & Ha & Heq).
  pose proof (normal_mantissa mx ex Bx Hx) as [Hx1 Hx2].
  pose proof (normal_mantissa my ey By Hy) as [Hy1 Hy2].
  set (M := Z.max ex ey) in *.
  assert (Hd : (53 + M - k <= Zdigits2 a <= 54 + M - k)%Z).
  { apply digits_between; [unfold M; lia|].
    pose proof (pow2_pos (ex - k) ltac:(lia)).
    pose proof (pow2_pos (ey - k) ltac:(lia)).
    assert (Hpx : (2 ^ (ex - k) <= 2 ^ (M - k))%Z)
      by (apply Z.pow_le_mono_r; unfold M; lia).
    assert (Hpy : (2 ^ (ey - k) <= 2 ^ (M - k))%Z)
      by (apply Z.pow_le_mono_r; unfold M; lia).
    replace (53 + M - k - 1)%Z with (52 + (M - k))%Z by lia.
    replace (54 + M - k)%Z with (54 + (M - k))%Z by lia.
    rewrite !Z.pow_add_r by (unfold M; lia).
    change (2 ^ 54)%Z with (2 * 2 ^ 53)%Z. rewrite Ha.
    split.
    - destruct (Z.max_spec ex ey) as [[_ HM]|[_ HM]]; fold M in HM; rewrite HM; nia.
    - nia. }
  assert (Ht : (M <= target a 1 k <= M + 1)%Z).
  { unfold target. rewrite Z.div_1_r, fexp64_eq. unfold M in *. lia. }
  destruct (finish_near _ _ _ R ltac:(unfold M in *; lia) ltac:(lia))
    as (m' & e' & Hfin & Hb & He' & Hv1 & Hv2).
  exists m', e'. rewrite Heq, Hfin. split; [reflexivity|]. split; [exact Hb|].
  split; [lia|].
  assert (Hval : (a # Z.to_pos 1) * 2 ^ k
                 == B2Q (S754_finite false mx ex) + B2Q (S754_finite false my ey)).
  { cbn [B2Q cond_Zopp]. change (a # Z.to_pos 1) with (inject_Z a).
    rewrite Ha, inject_Z_plus, !inject_Z_mult, !two_pow_inject by lia.
    rewrite Qmult_plus_distr_l, <- !Qmult_assoc, <- !two_pow_add.
    replace (ex - k + k)%Z with ex by lia. replace (ey - k + k)%Z with ey by lia.
    reflexivity. }
  rewrite <- Hval. split; assumption.
Qed.

Lemma SFdiv_near (mx my : positive) (ex ey : Z) :
  bounded prec64 emax64 mx ex = true -> bounded prec64 emax64 my ey = true ->
  (-1074 < ex)%Z -> (-1074 < ey)%Z ->
  (-1074 < ex - ey - 53)%Z -> (ex - ey - 52 <= 970)%Z ->
  exists m' e',
    SFdiv prec64 emax64 (S754_finite false mx ex) (S754_finite false my ey)
      = S754_finite false m' e'
    /\ bounded prec64 emax64 m' e' = true
    /\ (ex - ey - 53 <= e' <= ex - ey - 51)%Z
    /\ keep * (B2Q (S754_finite false mx ex) / B2Q (S754_finite false my ey))
       <= B2Q (S754_finite false m' e')
    /\ keep * B2Q (S754_finite false m' e')
       <= B2Q (S754_finite false mx ex) / B2Q (S754_finite false my ey).
Proof.
  intros Bx By Hx Hy Hlo Hhi.
  destruct (SFdiv_finite mx my ex ey) as (a & k & R & Hk & Ha & Heq).
  pose proof (normal_mantissa mx ex Bx Hx) as [Hx1 Hx2].
  pose proof (normal_mantissa my ey By Hy) as [Hy1 Hy2].
  set (s := (ex - ey - k)%Z) in *.
  assert (Hs : (0 <= s)%Z) by (unfold s; lia).
  pose proof (pow2_pos s Hs) as Hps.
  assert (Hq2 : (a / Zpos my < 2 ^ (s + 1))%Z).
  { apply Z.div_lt_upper_bound; [lia|].
    rewrite Z.pow_add_r, Ha by lia. change (2 ^ 1)%Z with 2%Z.
    change (2 ^ 53)%Z with (2 * 2 ^ 52)%Z in Hx2. nia. }
  assert (Hq0 : (0 <= a / Zpos my)%Z) by (apply Z.div_pos; nia).
  assert (Hd : (s <= Zdigits2 (a / Zpos my) <= s + 1)%Z).
  { split; [|apply Zdigits2_le; lia].
    destruct (Z.eq_dec s 0) as [->|Hs0].
    - apply Zdigits2_nonneg.
    - apply Zdigits2_ge; [|lia].
      apply Z.div_le_lower_bound; [lia|].
      assert (Hp : (2 ^ s = 2 * 2 ^ (s - 1))%Z).
      { rewrite <- Z.pow_succ_r by lia. f_equal. lia. }
      pose proof (pow2_pos (s - 1) ltac:(lia)).
      rewrite Ha, Hp. change (2 ^ 53)%Z with (2 * 2 ^ 52)%Z in Hy2. nia. }
  assert (Ht : (ex - ey - 53 <= target a (Zpos my) k <= ex - ey - 52)%Z).
  { unfold target. rewrite fexp64_eq. unfold s in Hd. lia. }
  destruct (finish_near _ _ _ R ltac:(lia) ltac:(lia))
    as (m' & e' & Hfin & Hb & He' & Hv1 & Hv2).
  exists m', e'. rewrite Heq, Hfin. split; [reflexivity|]. split; [exact Hb|].
  split; [lia|].
  assert (Hval : (a # Z.to_pos (Zpos my)) * 2 ^ k
                 == B2Q (S754_finite false mx ex) / B2Q (S754_finite false my ey)).
  { cbn [B2Q cond_Zopp Z.to_pos].
    rewrite (Qmake_Qdiv a my), Ha, inject_Z_mult, two_pow_inject by lia.
    pose proof (two_pow_pos ey) as Hey. pose proof (two_pow_pos k) as Hkk.
    assert (Hsplit : (2:Q) ^ ex == 2 ^ s * 2 ^ k * 2 ^ ey).
    { rewrite <- !two_pow_add. replace (s + k + ey)%Z with ex by (unfold s; lia).
      reflexivity. }
    rewrite Hsplit. field. split.
    - intros H0. rewrite H0 in Hey. now apply Qlt_irrefl in Hey.
    - intros H0. unfold Qeq in H0. cbn in H0. lia. }
  rewrite <- Hval. split; assumption.
Qed.

(** ** Accumulated relative error

    Roundings add up along products, quotients and sums of positive
    numbers. *)

Lemma keep_pos : 0 < keep.
Proof. reflexivity. Qed.

Lemma keep_le_1 : keep <= 1.
Proof. unfold Qle; cbn; lia. Qed.

Lemma qpow_pos (k : nat) : 0 < qpow keep k.
Proof.
  induction k as [|k IH]; cbn [qpow]; [reflexivity|].
  apply Qmult_lt_0_compat; [exact keep_pos|exact IH].
Qed.

Lemma qpow_le_1 (k : nat) : qpow keep k <= 1.
Proof.
  induction k as [|k IH]; cbn [qpow]; [apply Qle_refl|].
  setoid_replace 1 with (1 * 1) by ring.
  apply Qmult_le_compat_nonneg; split;
    [apply Qlt_le_weak, keep_pos|apply keep_le_1|apply Qlt_le_weak, qpow_pos|exact IH].
Qed.

Lemma qpow_add (j k : nat) : qpow keep (j + k) == qpow keep j * qpow keep k.
Proof.
  induction j as [|j IH]; cbn [qpow Nat.add]; [ring|]. rewrite IH. ring.
Qed.

Lemma qpow_mono (j k : nat) : (j <= k)%nat -> qpow keep k <= qpow keep j.
Proof.
  intros H. replace k with (j + (k - j))%nat by lia. rewrite qpow_add.
  setoid_replace (qpow keep j) with (qpow keep j * 1) at 2 by ring.
  apply Qmult_le_l; [apply qpow_pos|apply qpow_le_1].
Qed.

Lemma Qmult_le_both (a b c d : Q) : 0 <= a -> a <= b -> 0 <= c -> c <= d -> a * c <= b * d.
Proof.
  intros Ha Hab Hc Hcd. apply Qmult_le_compat_nonneg; split; assumption.
Qed.

Lemma near_eq (k : nat) (v v' x x' : Q) : v == v' -> x == x' -> near k v x -> near k v' x'.
Proof. unfold near. intros Hv Hx. now rewrite Hv, Hx. Qed.

Lemma near_refl (v : Q) : near 0 v v.
Proof. unfold near. cbn [qpow]. split; rewrite Qmult_1_l; apply Qle_refl. Qed.

Lemma near_pos (k : nat) (v x : Q) : near k v x -> 0 < x -> 0 < v.
Proof.
  intros [_ H] Hx. apply Qlt_le_trans with (qpow keep k * x); [|exact H].
  apply Qmult_lt_0_compat; [apply qpow_pos|exact Hx].
Qed.

Lemma near_weaken (j k : nat) (v x : Q) :
  (j <= k)%nat -> 0 <= v -> 0 <= x -> near j v x -> near k v x.
Proof.
  intros Hjk Hv Hx [H1 H2]. split.
  - apply Qle_trans with (qpow keep j * v); [|exact H1].
    apply Qmult_le_compat_r; [now apply qpow_mono|exact Hv].
  - apply Qle_trans with (qpow keep j * x); [|exact H2].
    apply Qmult_le_compat_r; [now apply qpow_mono|exact Hx].
Qed.

Lemma near_trans (j k : nat) (v x y : Q) : near j v x -> near k x y -> near (j + k) v y.
Proof.
  intros [H1 H2] [H3 H4]. split; rewrite qpow_add.
  - apply Qle_trans with (qpow keep k * x); [|exact H3].
    setoid_replace (qpow keep j * qpow keep k * v) with (qpow keep k * (qpow keep j * v))
      by ring.
    apply Qmult_le_l; [apply qpow_pos|exact H1].
  - apply Qle_trans with (qpow keep j * x); [|exact H2].
    rewrite <- Qmult_assoc. apply Qmult_le_l; [apply qpow_pos|exact H4].
Qed.

Lemma near_mul (j k : nat) (u v x y : Q) :
  0 <= u -> 0 <= v -> 0 <= x -> 0 <= y ->
  near j u x -> near k v y -> near (j + k) (u * v) (x * y).
Proof.
  intros Hu Hv Hx Hy [H1 H2] [H3 H4].
  pose proof (Qlt_le_weak _ _ (qpow_pos j)) as Pj.
  pose proof (Qlt_le_weak _ _ (qpow_pos k)) as Pk.
  split; rewrite qpow_add.
  - setoid_replace (qpow keep j * qpow keep k * (u * v))
      with ((qpow keep j * u) * (qpow keep k * v)) by ring.
    apply Qmult_le_both; try assumption; now apply Qmult_le_0_compat.
  - setoid_replace (qpow keep j * qpow keep k * (x * y))
      with ((qpow keep j * x) * (qpow keep k * y)) by ring.
    apply Qmult_le_both; try assumption; now apply Qmult_le_0_compat.
Qed.

Lemma Qinv_le_swap (c a b : Q) : 0 < a -> 0 < b -> c * a <= b -> c * / b <= / a.
Proof.
  intros Ha Hb H.
  apply Qle_shift_div_r; [exact Hb|].
  setoid_replace (/ a * b) with (b / a) by (unfold Qdiv; ring).
  apply Qle_shift_div_l; assumption.
Qed.

Lemma near_inv (k : nat) (v x : Q) : 0 < v -> 0 < x -> near k v x -> near k (/ v) (/ x).
Proof.
  intros Hv Hx [H1 H2]. split; apply Qinv_le_swap; assumption.
Qed.

Lemma near_add (j k : nat) (u v x y : Q) :
  0 <= u -> 0 <= v -> 0 <= x -> 0 <= y ->
  near j u x -> near k v y -> near (Nat.max j k) (u + v) (x + y).
Proof.
  intros Hu Hv Hx Hy Hj Hk.
  apply (near_weaken j (Nat.max j k)) in Hj; [|lia|assumption..].
  apply (near_weaken k (Nat.max j k)) in Hk; [|lia|assumption..].
  destruct Hj as [H1 H2], Hk as [H3 H4].
  split; rewrite Qmult_plus_distr_r; now apply Qplus_le_compat.
Qed.

(** ** Operations on approximations

    The same, with the bookkeeping of exponents that keeps every later
    operation inside the normal range. *)

Lemma B2Q_pos (m : positive) (e : Z) : 0 < B2Q (S754_finite false m e).
Proof.
  cbn [B2Q cond_Zopp]. apply Qmult_lt_0_compat; [reflexivity|apply two_pow_pos].
Qed.

Lemma Qpos_nonzero (x : Q) : 0 < x -> ~ x == 0.
Proof. intros H H0. rewrite H0 in H. now apply Qlt_irrefl in H. Qed.

Lemma near_one (a b : Q) : keep * a <= b -> keep * b <= a -> near 1 a b.
Proof.
  intros H1 H2. unfold near. cbn [qpow]. rewrite Qmult_1_r. now split.
Qed.

Lemma moderate_inv (x : spec_float) :
  moderate x = true ->
  exists m e, x = S754_finite false m e /\ bounded prec64 emax64 m e = true
              /\ (-152 <= e <= 48)%Z.
Proof.
  destruct x as [| | |[|] m e]; try discriminate. cbn [moderate].
  rewrite !andb_true_iff, Z.leb_le, Z.leb_le. intros [[Hb H1] H2].
  exists m, e. repeat split; assumption.
Qed.

Lemma approx_exact (x : spec_float) :
  moderate x = true -> approx 0 (-152) 48 (B2Q x) x.
Proof.
  intros H. destruct (moderate_inv x H) as (m & e & -> & Hb & He).
  exists m, e. split; [reflexivity|]. split; [exact Hb|]. split; [exact He|].
  apply near_refl.
Qed.

Lemma approx_pos (k : nat) (lo hi : Z) (v : Q) (x : spec_float) :
  approx k lo hi v x -> 0 < v /\ 0 < B2Q x.
Proof.
  intros (m & e & -> & _ & _ & Hn). split; [|apply B2Q_pos].
  eapply near_pos; [exact Hn|apply B2Q_pos].
Qed.

Lemma approx_weaken (k k' : nat) (lo lo' hi hi' : Z) (v v' : Q) (x : spec_float) :
  approx k lo hi v x -> (k <= k')%nat -> (lo' <= lo)%Z -> (hi <= hi')%Z -> v == v' ->
  approx k' lo' hi' v' x.
Proof.
  intros Ha Hk Hlo Hhi Hv. destruct (approx_pos _ _ _ _ _ Ha) as [Pv Px].
  destruct Ha as (m & e & -> & Hb & He & Hn).
  exists m, e. split; [reflexivity|]. split; [exact Hb|]. split; [lia|].
  apply (near_eq k' v v' _ _ Hv (Qeq_refl _)).
  apply (near_weaken k k'); auto using Qlt_le_weak.
Qed.

Lemma approx_mul (j k : nat) (l1 h1 l2 h2 : Z) (u v : Q) (x y : spec_float) :
  approx j l1 h1 u x -> approx k l2 h2 v y ->
  (-1074 < l1)%Z -> (-1074 < l2)%Z ->
  (-1074 < l1 + l2 + 52)%Z -> (h1 + h2 + 53 <= 970)%Z ->
  approx (j + k + 1) (l1 + l2 + 52) (h1 + h2 + 54) (u * v) (SFmul prec64 emax64 x y).
Proof.
  intros Hx Hy L1 L2 Hlo Hhi.
  destruct (approx_pos _ _ _ _ _ Hx) as [Pu Px].
  destruct (approx_pos _ _ _ _ _ Hy) as [Pv Py].
  destruct Hx as (mx & ex & -> & Bx & Ex & Nx).
  destruct Hy as (my & ey & -> & By & Ey & Ny).
  destruct (SFmul_near mx my ex ey Bx By) as (m' & e' & Heq & Hb & He & H1 & H2);
    try lia.
  exists m', e'. rewrite Heq. split; [reflexivity|]. split; [exact Hb|].
  split; [lia|].
  apply (near_trans (j + k) 1 _ (B2Q (S754_finite false mx ex) * B2Q (S754_finite false my ey))).
  - apply near_mul; auto using Qlt_le_weak.
  - now apply near_one.
Qed.

Lemma approx_div (j k : nat) (l1 h1 l2 h2 : Z) (u v : Q) (x y : spec_float) :
  approx j l1 h1 u x -> approx k l2 h2 v y ->
  (-1074 < l1)%Z -> (-1074 < l2)%Z ->
  (-1074 < l1 - h2 - 53)%Z -> (h1 - l2 - 52 <= 970)%Z ->
  approx (j + k + 1) (l1 - h2 - 53) (h1 - l2 - 51) (u / v) (SFdiv prec64 emax64 x y).
Proof.
  intros Hx Hy L1 L2 Hlo Hhi.
  destruct (approx_pos _ _ _ _ _ Hx) as [Pu Px].
  destruct (approx_pos _ _ _ _ _ Hy) as [Pv Py].
  destruct Hx as (mx & ex & -> & Bx & Ex & Nx).
  destruct Hy as (my & ey & -> & By & Ey & Ny).
  destruct (SFdiv_near mx my ex ey Bx By) as (m' & e' & Heq & Hb & He & H1 & H2);
    try lia.
  exists m', e'. rewrite Heq. split; [reflexivity|]. split; [exact Hb|].
  split; [lia|].
  apply (near_trans (j + k) 1 _ (B2Q (S754_finite false mx ex) / B2Q (S754_finite false my ey))).
  - unfold Qdiv. apply near_mul; auto using Qlt_le_weak.
    + apply Qlt_le_weak, Qinv_lt_0_compat, Pv.
    + apply Qlt_le_weak, Qinv_lt_0_compat, Py.
    + now apply near_inv.
  - now apply near_one.
Qed.

Lemma approx_add (j k : nat) (l1 h1 l2 h2 : Z) (u v : Q) (x y : spec_float) :
  approx j l1 h1 u x -> approx k l2 h2 v y ->
  (-1074 < l1)%Z -> (-1074 < l2)%Z -> (Z.max h1 h2 + 1 <= 970)%Z ->
  approx (Nat.max j k + 1) (Z.max l1 l2) (Z.max h1 h2 + 2) (u + v)
    (SFadd prec64 emax64 x y).
Proof.
  intros Hx Hy L1 L2 Hhi.
  destruct (approx_pos _ _ _ _ _ Hx) as [Pu Px].
  destruct (approx_pos _ _ _ _ _ Hy) as [Pv Py].
  destruct Hx as (mx & ex & -> & Bx & Ex & Nx).
  destruct Hy as (my & ey & -> & By & Ey & Ny).
  destruct (SFadd_near mx my ex ey Bx By) as (m' & e' & Heq & Hb & He & H1 & H2);
    try lia.
  exists m', e'. rewrite Heq. split; [reflexivity|]. split; [exact Hb|].
  split; [lia|].
  apply (near_trans (Nat.max j k) 1 _
           (B2Q (S754_finite false mx ex) + B2Q (S754_finite false my ey))).
  - apply near_add; auto using Qlt_le_weak.
  - now apply near_one.
Qed.

(** ** The sum of the revalued holdings *)

(** Each further term costs the running total one rounding and at most
    two units of exponent. *)
Lemma fold_fadd_approx (g : string -> spec_float) (c : Q) (lo hi : Z) :
  (-1074 < lo)%Z ->
  forall (l : dict spec_float) (acc : spec_float) (K : nat) (H : Z) (v : Q),
    (forall h w, In (h, w) l -> approx 4 lo hi (c * B2Q w) (g h)) ->
    approx K lo H v acc -> (4 <= K)%nat -> (hi <= H)%Z ->
    (H + 2 * Z.of_nat (List.length l) <= 971)%Z ->
    approx (K + List.length l) lo (H + 2 * Z.of_nat (List.length l))
      (v + c * Qsum (map (fun hw => B2Q (snd hw)) l))
      (fold_left (SFadd prec64 emax64) (map g (keys l)) acc).
Proof.
  intros Hlo. induction l as [|[h w] l IH]; intros acc K H v Hg Hacc HK HH Hlen.
  - cbn [List.length map keys fold_left Qsum fold_right Z.of_nat].
    apply (approx_weaken K _ lo _ H _ v); [exact Hacc|lia|lia|lia|ring].
  - cbn [List.length map keys fold_left fst] in *.
    pose proof (approx_add K 4 lo H lo hi v (c * B2Q w) acc (g h) Hacc
                  (Hg h w (or_introl eq_refl)) Hlo Hlo ltac:(lia)) as Hstep.
    apply (approx_weaken _ (S K) _ lo _ (H + 2) _ (v + c * B2Q w)) in Hstep;
      [|lia|lia|lia|reflexivity].
    pose proof (IH _ (S K) (H + 2)%Z _ (fun h' w' Hin => Hg h' w' (or_intror Hin))
                  Hstep ltac:(lia) ltac:(lia) ltac:(lia)) as Hrest.
    apply (approx_weaken _ _ _ _ _ _ _ _ _ Hrest); [lia|lia|lia|].
    cbn [Qsum fold_right map snd]. fold (Qsum (map (fun hw => B2Q (snd hw)) l)). ring.
Qed.

(** [sum] starts from [+0.0], which the first term replaces exactly. *)
Lemma py_sum_approx (g : string -> spec_float) (c : Q) (lo hi : Z) (l : dict spec_float) :
  (-1074 < lo)%Z -> l <> [] ->
  (forall h w, In (h, w) l -> approx 4 lo hi (c * B2Q w) (g h)) ->
  (hi + 2 * Z.of_nat (List.length l) <= 973)%Z ->
  approx (3 + List.length l) lo (hi + 2 * Z.of_nat (List.length l))
    (c * Qsum (map (fun hw => B2Q (snd hw)) l))
    (fold_left (SFadd prec64 emax64) (map g (keys l)) (S754_zero false)).
Proof.
  intros Hlo Hne Hg Hlen. destruct l as [|[h w] l]; [congruence|].
  cbn [List.length map keys fold_left fst] in *.
  pose proof (Hg h w (or_introl eq_refl)) as Hfirst.
  assert (Hstart : SFadd prec64 emax64 (S754_zero false) (g h) = g h).
  { destruct Hfirst as (m & e & -> & _). reflexivity. }
  rewrite Hstart.
  pose proof (fold_fadd_approx g c lo hi Hlo l (g h) 4 hi (c * B2Q w)
                (fun h' w' Hin => Hg h' w' (or_intror Hin)) Hfirst
                ltac:(lia) ltac:(lia) ltac:(lia)) as Hrest.
  apply (approx_weaken _ _ _ _ _ _ _ _ _ Hrest); [lia|lia|lia|].
  cbn [Qsum fold_right map snd]. fold (Qsum (map (fun hw => B2Q (snd hw)) l)). ring.
Qed.

(** A holding revalued at the price it was implied from: its slice of
    the net assets in dollars, after four roundings. *)
Lemma implied_term_approx (nav fx w p : spec_float) :
  moderate nav = true -> moderate fx = true -> moderate w = true -> moderate p = true ->
  approx 4 (-554) 454 (B2Q nav / B2Q fx * B2Q w)
    (SFmul prec64 emax64
       (SFdiv prec64 emax64 (SFdiv prec64 emax64 (SFmul prec64 emax64 nav w) fx) p) p).
Proof.
  intros Hn Hf Hw Hp.
  apply approx_exact in Hn, Hf, Hw, Hp.
  destruct (approx_pos _ _ _ _ _ Hf) as [Pf _].
  destruct (approx_pos _ _ _ _ _ Hp) as [Pp _].
  pose proof (approx_mul _ _ _ _ _ _ _ _ _ _ Hn Hw
                ltac:(lia) ltac:(lia) ltac:(lia) ltac:(lia)) as H1.
  pose proof (approx_div _ _ _ _ _ _ _ _ _ _ H1 Hf
                ltac:(lia) ltac:(lia) ltac:(lia) ltac:(lia)) as H2.
  pose proof (approx_div _ _ _ _ _ _ _ _ _ _ H2 Hp
                ltac:(lia) ltac:(lia) ltac:(lia) ltac:(lia)) as H3.
  pose proof (approx_mul _ _ _ _ _ _ _ _ _ _ H3 Hp
                ltac:(lia) ltac:(lia) ltac:(lia) ltac:(lia)) as H4.
  apply (approx_weaken _ _ _ _ _ _ _ _ _ H4); [lia|lia|lia|].
  field. split; now apply Qpos_nonzero.
Qed.

End RoundingErrors.

(** * The claims *)

Section Claims.

Context {F : Type} {AF : Arith F}.

(** C1.  With a non-zero previous base price, a non-zero previous FX rate
    and a non-zero previous price for every holding, [estimate_shares]
    returns the unit count [previousNAV / previousBasePrice] and, for each
    holding [h] of the weight table with weight [w], the share count
    [((previousNAV * w) / previousFX) / previousPrice_h]; the weight enters
    as the table gives it, whatever the weights sum to, and the holdings
    are exactly those of the table. *)
Theorem estimate_shares_formula (WEIGHTS : dict F) (nav base fx : F)
  (prev_prices : dict scalar) :
  NoDup (keys WEIGHTS) ->
  is_zero base = false ->
  is_zero fx = false ->
  (forall h, In h (keys WEIGHTS) ->
     exists p, dict_get prev_prices h = Some p /\ is_zero (raw p) = false) ->
  exists shares,
    estimate_shares WEIGHTS (PyFloat nav) (PyFloat base) prev_prices (PyFloat fx)
      = Ok (shares, PyFloat (fdiv nav base))
    /\ keys shares = keys WEIGHTS
    /\ forall h w p, In (h, w) WEIGHTS -> dict_get prev_prices h = Some p ->
         dict_get shares h
           = Some (wrap (is_np p) (fdiv (fdiv (fmul nav w) fx) (raw p))).
Proof.
  intros Hnd Hbase Hfx Hpr.
  apply estimate_shares_ok; try assumption.
  intros h Hh. destruct (Hpr h Hh) as [p [Hget Hnz]]. exists p. auto.
Qed.

(** C2.  Given share counts for the weighted holdings, a non-zero unit
    count, the latest price of every holding (read from the pandas row,
    hence NumPy values) and the latest FX rate, [nav_projector] returns
    the estimated base price [(sum_h shares_h * latestPrice_h) * latestFX
    / unitCount], summed in table order from zero, together with the
    absolute change [estimate - previousBasePrice] and the percentage
    change [(diff / previousBasePrice) * 100]. *)
Theorem nav_projector_formula (WEIGHTS : dict F)
  (shares last_prices : dict scalar) (units last_fx previous_base_price : scalar)
  (sh pr : string -> F) :
  WEIGHTS <> [] ->
  is_zero (raw units) = false ->
  (forall t, In t (TICKERS WEIGHTS) ->
     exists s, dict_get shares t = Some s /\ raw s = sh t) ->
  (forall t, In t (TICKERS WEIGHTS) ->
     dict_get last_prices t = Some (NpFloat64 (pr t))) ->
  let total_usd :=
    fold_left fadd (map (fun t => fmul (sh t) (pr t)) (TICKERS WEIGHTS)) (fdec 0 0) in
  let estimated_base_price := fdiv (fmul total_usd (raw last_fx)) (raw units) in
  let diff := fsub estimated_base_price (raw previous_base_price) in
  let pct := fmul (fdiv diff (raw previous_base_price)) (fdec 100 0) in
  nav_projector WEIGHTS shares units last_prices last_fx previous_base_price
    = Ok (NpFloat64 estimated_base_price, NpFloat64 diff, NpFloat64 pct).
Proof. exact (nav_projector_ok WEIGHTS shares last_prices units last_fx
                previous_base_price sh pr). Qed.


(** C6.  Whatever exception the computation and rendering of the report
    raise, [main] catches it, builds the error report (the marker followed
    by the formatted traceback), prints it after what the run had already
    done, and then hands that same text to [send_line_message], whose
    outcome is the outcome of the run.  The marker is distinct: the error
    report starts with it, and no report that a successful computation
    returns, in any world, does. *)
Theorem main_reports_failure (WEIGHTS : dict F) (w : World) (e : exn)
  (t : list event) :
  calculate_today_nav WEIGHTS w = (Raise e, t) ->
  let error_text := error_marker +++ format_exc w e in
  String.prefix error_marker error_text = true
  /\ (forall (w' : World) (msg : string) (t' : list event),
        calculate_today_nav WEIGHTS w' = (Ok msg, t') ->
        String.prefix error_marker msg = false)
  /\ main WEIGHTS w
     = (fst (send_line_message error_text w),
        t ++ EvPrint error_text :: snd (send_line_message error_text w)).
Proof.
  intros H error_text. split; [|split; [|exact (main_on_error WEIGHTS w e t H)]].
  - unfold error_text. generalize (format_exc w e). intros s.
    unfold error_marker. cbn. repeat (destruct (ascii_dec _ _); [|congruence]).
    now destruct s.
  - intros w' msg t'. apply calculate_today_nav_marker_free.
Qed.

(** C8.  Rendering is a function of its seven inputs alone: run in any
    two worlds (clock, environment, network answers) it yields the same
    outcome, and it leaves no event behind. *)
Theorem report_formatter_pure (WEIGHTS : dict F)
  (previous_base_price estimated_base_price diff pct prev_fx last_fx : scalar)
  (shares : dict scalar) (w1 w2 : @World F) :
  let render := lift (format_report WEIGHTS previous_base_price
                        estimated_base_price diff pct prev_fx last_fx shares) in
  render w1 = render w2 /\ snd (render w1) = [].
Proof. split; reflexivity. Qed.

(** C9.  In a run, the tickers requested from the market feed (before the
    FX symbol), the columns of the price table, the holdings that
    [estimate_shares] assigns shares to and the holdings whose products
    the projector sums are all the keys of the weight table, in its
    order. *)
Theorem holdings_agree (WEIGHTS : dict F) (w : World)
  (prices : DataFrame) (fx : list F) (t : list event)
  (nav base prev_fx units : scalar) (prev_prices last_prices shares : dict scalar)
  (terms : list (string * scalar)) :
  NoDup (keys WEIGHTS) ->
  get_prices_and_fx WEIGHTS w = (Ok (prices, fx), t) ->
  estimate_shares WEIGHTS nav base prev_prices prev_fx = Ok (shares, units) ->
  nav_terms WEIGHTS shares last_prices = Ok terms ->
  t = [EvDownload (keys WEIGHTS ++ ["USDJPY=X"%string]) (now w - 7 * 86400) (now w)]
  /\ keys (df_cols prices) = keys WEIGHTS
  /\ keys shares = keys WEIGHTS
  /\ map fst terms = keys WEIGHTS.
Proof.
  intros Hnd Hget Hest Hterms.
  destruct (get_prices_and_fx_request WEIGHTS w prices fx t Hget) as [Ht Hcols].
  repeat split; try assumption.
  - exact (estimate_shares_keys WEIGHTS nav base prev_fx prev_prices shares units Hnd Hest).
  - exact (nav_terms_keys WEIGHTS shares last_prices terms Hterms).
Qed.

End Claims.

Section BinaryClaims.

(** C4, as amended.  With a non-empty weight table and the previous prices
    read from the pandas row: a previous base price of zero or a previous
    FX rate of zero makes [estimate_shares] raise [ZeroDivisionError]
    (both divisors are built-in floats); otherwise it returns, and a
    holding whose previous price is zero gets an infinite or NaN share
    count (that divisor is a NumPy value, whose division does not
    raise). *)
Theorem estimate_shares_zero_divisor (WEIGHTS : dict spec_float)
  (nav base fx : spec_float) (prev_prices : dict scalar) :
  WEIGHTS <> [] ->
  NoDup (keys WEIGHTS) ->
  (forall h, In h (keys WEIGHTS) ->
     exists x, dict_get prev_prices h = Some (NpFloat64 x)) ->
  (is_zero base = true \/ is_zero fx = true ->
   estimate_shares WEIGHTS (PyFloat nav) (PyFloat base) prev_prices (PyFloat fx)
     = Raise ZeroDivisionError)
  /\ (is_zero base = false -> is_zero fx = false ->
      exists shares units,
        estimate_shares WEIGHTS (PyFloat nav) (PyFloat base) prev_prices (PyFloat fx)
          = Ok (shares, units)
        /\ forall h x, In h (keys WEIGHTS) ->
             dict_get prev_prices h = Some (NpFloat64 x) -> is_zero x = true ->
             exists s, dict_get shares h = Some (NpFloat64 s)
                       /\ (s = S754_nan \/ exists sign, s = S754_infinity sign)).
Proof.
  intros Hne Hnd Hpr. split.
  - exact (estimate_shares_raises WEIGHTS nav base fx prev_prices Hne).
  - exact (estimate_shares_zero_price WEIGHTS nav base fx prev_prices Hnd Hpr).
Qed.

(** C10, as amended.  In binary64, for positive finite share counts,
    latest prices, unit count and latest FX rates, the estimated base
    price does not decrease when the latest FX rate or the latest price
    of any holding rises: it is non-decreasing in each of them.  (It is
    strictly increasing before rounding only.) *)
Theorem nav_projector_monotone (WEIGHTS : dict spec_float)
  (shares prices1 prices2 : dict scalar) (units base : scalar)
  (fx1 fx2 : spec_float) (sh pr1 pr2 : string -> spec_float) :
  WEIGHTS <> [] ->
  pos_finite (raw units) = true ->
  (forall t, In t (TICKERS WEIGHTS) ->
     (exists s, dict_get shares t = Some s /\ raw s = sh t)
     /\ pos_finite (sh t) = true) ->
  (forall t, In t (TICKERS WEIGHTS) ->
     dict_get prices1 t = Some (NpFloat64 (pr1 t))
     /\ dict_get prices2 t = Some (NpFloat64 (pr2 t))
     /\ pos_finite (pr1 t) = true /\ pos_finite (pr2 t) = true
     /\ SFleb (pr1 t) (pr2 t) = true) ->
  pos_finite fx1 = true -> pos_finite fx2 = true -> SFleb fx1 fx2 = true ->
  exists e1 d1 p1 e2 d2 p2,
    nav_projector WEIGHTS shares units prices1 (PyFloat fx1) base = Ok (e1, d1, p1)
    /\ nav_projector WEIGHTS shares units prices2 (PyFloat fx2) base = Ok (e2, d2, p2)
    /\ SFleb (raw e1) (raw e2) = true.
Proof.
  intros Hne Hu Hs Hp Hfx1 Hfx2 Hfx.
  assert (Hunits : is_zero (raw units) = false).
  { destruct (raw units) as [|?| |[|] m e]; try discriminate.
    apply is_zero_finite_b64. }
  pose proof (nav_projector_ok WEIGHTS shares prices1 units (PyFloat fx1) base sh pr1
                Hne Hunits (fun t Ht => proj1 (Hs t Ht)) (fun t Ht => proj1 (Hp t Ht)))
    as H1.
  pose proof (nav_projector_ok WEIGHTS shares prices2 units (PyFloat fx2) base sh pr2
                Hne Hunits (fun t Ht => proj1 (Hs t Ht))
                (fun t Ht => proj1 (proj2 (Hp t Ht)))) as H2.
  cbv zeta in H1, H2. do 6 eexists. split; [exact H1|]. split; [exact H2|].
  cbn [raw].
  destruct (fold_fadd_mono (fun t => fmul (sh t) (pr1 t)) (fun t => fmul (sh t) (pr2 t))
              (TICKERS WEIGHTS)) with (acc1 := S754_zero false) (acc2 := S754_zero false)
    as (N1 & N2 & Hle); try reflexivity.
  { intros t Ht. destruct (Hs t Ht) as [_ Psh].
    destruct (Hp t Ht) as (_ & _ & P1 & P2 & Hpr).
    split; [now apply SFmul_pos_nonneg|]. split; [now apply SFmul_pos_nonneg|].
    now apply SFmul_pos_mono. }
  apply SFdiv_mono; try assumption.
  - now apply SFmul_nonneg.
  - now apply SFmul_nonneg.
  - now apply SFmul_mono.
Qed.

End BinaryClaims.

Section NoChangeClaim.

Local Open Scope Q_scope.

(** C3, as amended.  In binary64, for a non-empty table of at most 100
    distinctly named holdings and for previous net assets, a previous
    base price, a previous FX rate, weights and previous prices that are
    positive normal numbers between [2^-100] and [2^101]: when the latest
    prices and FX rate equal the previous ones, the share estimator
    followed by the projector returns a positive finite estimate, and
    that estimate is the previous base price times the sum of the
    weights (which the estimator does not normalise) up to [n + 6]
    roundings, [n] the number of holdings: each of the two is at least
    [(1 - 2^-53)^(n+6)] times the other. *)
Theorem no_change_estimate_close (WEIGHTS : dict spec_float)
  (nav base fx : spec_float) (prices : dict scalar) (pr : string -> spec_float) :
  WEIGHTS <> [] ->
  NoDup (keys WEIGHTS) ->
  (List.length WEIGHTS <= 100)%nat ->
  moderate nav = true -> moderate base = true -> moderate fx = true ->
  (forall h w, In (h, w) WEIGHTS -> moderate w = true) ->
  (forall h, In h (keys WEIGHTS) ->
     dict_get prices h = Some (NpFloat64 (pr h)) /\ moderate (pr h) = true) ->
  exists est m e,
    no_change_estimate WEIGHTS (PyFloat nav) (PyFloat base) prices (PyFloat fx)
      = Ok est
    /\ raw est = S754_finite false m e
    /\ near (List.length WEIGHTS + 6)
         (Qsum (map (fun hw => B2Q (snd hw)) WEIGHTS) * B2Q base) (B2Q (raw est)).
Proof.
  intros Hne Hnd Hlen Hnav Hbase Hfx Hw Hpr.
  destruct (moderate_inv base Hbase) as (mb & eb & Eb & _).
  destruct (moderate_inv fx Hfx) as (mf & ef & Ef & _).
  destruct (estimate_shares_ok WEIGHTS nav base fx prices Hnd)
    as [shares [Hrun [Hkeys Hval]]].
  { rewrite Eb. apply is_zero_finite_b64. }
  { rewrite Ef. apply is_zero_finite_b64. }
  { intros h Hh. destruct (Hpr h Hh) as [Hget _]. eexists; split; [exact Hget|].
    now left. }
  pose proof (approx_div _ _ _ _ _ _ _ _ _ _ (approx_exact nav Hnav) (approx_exact base Hbase)
                ltac:(lia) ltac:(lia) ltac:(lia) ltac:(lia)) as Hunits.
  set (sh := fun t => match dict_get shares t with
                      | Some s => raw s | None => S754_zero false end).
  pose proof (nav_projector_ok WEIGHTS shares prices (PyFloat (fdiv nav base))
                (PyFloat fx) (PyFloat base) sh pr Hne) as Hproj.
  cbv zeta in Hproj.
  unfold no_change_estimate. rewrite Hrun. cbn [bind Monad_result fst snd].
  rewrite Hproj; clear Hproj.
  - cbn [bind ret Monad_result fst raw].
    assert (Hterm : forall h w, In (h, w) WEIGHTS ->
              approx 4 (-554) 454 (B2Q nav / B2Q fx * B2Q w)
                (fmul (sh h) (pr h))).
    { intros h w Hin.
      assert (Hh : In h (keys WEIGHTS)) by (change h with (fst (h, w)); now apply in_map).
      destruct (Hpr h Hh) as [Hget Hp].
      unfold sh. rewrite (Hval h w _ Hin Hget). cbn [is_np raw wrap fmul fdiv Binary64].
      apply implied_term_approx; eauto. }
    pose proof (py_sum_approx (fun t => fmul (sh t) (pr t)) (B2Q nav / B2Q fx)
                  (-554) 454 WEIGHTS ltac:(lia) Hne Hterm ltac:(lia)) as Hsum.
    pose proof (approx_mul _ _ _ _ _ _ _ _ _ _ Hsum (approx_exact fx Hfx)
                  ltac:(lia) ltac:(lia) ltac:(lia) ltac:(lia)) as Hjpy.
    pose proof (approx_div _ _ _ _ _ _ _ _ _ _ Hjpy Hunits
                  ltac:(lia) ltac:(lia) ltac:(lia) ltac:(lia)) as Hest.
    destruct (approx_pos _ _ _ _ _ (approx_exact nav Hnav)) as [Pn _].
    destruct (approx_pos _ _ _ _ _ (approx_exact fx Hfx)) as [Pf _].
    destruct (approx_pos _ _ _ _ _ (approx_exact base Hbase)) as [Pb _].
    apply (approx_weaken _ (List.length WEIGHTS + 6) _ (-1074) _ 971 _
             (Qsum (map (fun hw => B2Q (snd hw)) WEIGHTS) * B2Q base)) in Hest;
      [|lia|lia|lia|].
    + destruct Hest as (m & e & Heq & _ & _ & Hnear).
      eexists. exists m, e. split; [reflexivity|]. split; [exact Heq|exact Hnear].
    + field. repeat split; now apply Qpos_nonzero.
  - cbn [raw]. destruct Hunits as (m & e & Heq & _). cbn [fdiv Binary64]. rewrite Heq.
    apply is_zero_finite_b64.
  - intros t Ht. unfold TICKERS in Ht. rewrite <- Hkeys in Ht.
    destruct (dict_get_of_key shares t Ht) as [s Hs]. exists s. split; [exact Hs|].
    unfold sh. now rewrite Hs.
  - intros t Ht. now apply Hpr.
Qed.

End NoChangeClaim.

Section ExactClaims.

Local Open Scope Q_scope.

(** Before rounding the projector is strictly monotone: over exact
    arithmetic, for positive share counts, positive latest prices, a
    positive unit count and a positive latest FX rate, raising the FX
    rate, or the price of some holding, while lowering nothing, raises
    the estimate. *)
Theorem nav_projector_increasing_exact (WEIGHTS : dict Q)
  (shares prices1 prices2 : dict scalar) (units base : scalar) (fx1 fx2 : Q)
  (sh pr1 pr2 : string -> Q) :
  WEIGHTS <> [] ->
  0 < raw units ->
  (forall t, In t (TICKERS WEIGHTS) ->
     (exists s, dict_get shares t = Some s /\ raw s = sh t) /\ 0 < sh t) ->
  (forall t, In t (TICKERS WEIGHTS) ->
     dict_get prices1 t = Some (NpFloat64 (pr1 t))
     /\ dict_get prices2 t = Some (NpFloat64 (pr2 t))
     /\ 0 < pr1 t /\ pr1 t <= pr2 t) ->
  0 < fx1 -> fx1 <= fx2 ->
  fx1 < fx2 \/ (exists h, In h (TICKERS WEIGHTS) /\ pr1 h < pr2 h) ->
  exists e1 d1 p1 e2 d2 p2,
    nav_projector WEIGHTS shares units prices1 (PyFloat fx1) base = Ok (e1, d1, p1)
    /\ nav_projector WEIGHTS shares units prices2 (PyFloat fx2) base = Ok (e2, d2, p2)
    /\ raw e1 < raw e2.
Proof.
  intros Hne Hu Hs Hp Hfx Hle Hstrict.
  assert (Hunits : is_zero (raw units) = false).
  { apply is_zero_exact. intros H. rewrite H in Hu. discriminate Hu. }
  pose proof (nav_projector_ok WEIGHTS shares prices1 units (PyFloat fx1) base sh pr1
                Hne Hunits (fun t Ht => proj1 (Hs t Ht)) (fun t Ht => proj1 (Hp t Ht)))
    as H1.
  pose proof (nav_projector_ok WEIGHTS shares prices2 units (PyFloat fx2) base sh pr2
                Hne Hunits (fun t Ht => proj1 (Hs t Ht))
                (fun t Ht => proj1 (proj2 (Hp t Ht)))) as H2.
  cbv zeta in H1, H2. do 6 eexists. split; [exact H1|]. split; [exact H2|].
  cbn [raw fdiv fmul fadd fdec Exact]. rewrite !fold_left_Qplus.
  change (Qmake 0 _) with (0#1). rewrite !Qplus_0_l.
  assert (Hterm : forall t, In t (TICKERS WEIGHTS) -> sh t * pr1 t <= sh t * pr2 t).
  { intros t Ht. destruct (Hs t Ht) as [_ Hsh]. destruct (Hp t Ht) as [_ [_ [_ Hpr]]].
    rewrite !(Qmult_comm (sh t)). apply Qmult_le_compat_r; [exact Hpr|].
    now apply Qlt_le_weak. }
  apply scaled_total_lt; try assumption.
  - apply Qsum_pos.
    + unfold TICKERS, keys. destruct WEIGHTS; [congruence|discriminate].
    + intros t Ht. destruct (Hs t Ht) as [_ Hsh]. destruct (Hp t Ht) as [_ [_ [Hpr _]]].
      rewrite <- (Qmult_0_l (pr1 t)). apply Qmult_lt_compat_r; assumption.
  - apply (Qsum_le (fun t => sh t * pr1 t) (fun t => sh t * pr2 t)). exact Hterm.
  - destruct Hstrict as [Hlt|[h [Hh Hlt]]]; [now left|right].
    apply (Qsum_lt (fun t => sh t * pr1 t) (fun t => sh t * pr2 t) _ h Hterm Hh).
    destruct (Hs h Hh) as [_ Hsh].
    rewrite !(Qmult_comm (sh h)). apply Qmult_lt_compat_r; assumption.
Qed.

End ExactClaims.

(** * Evaluation at concrete inputs *)

Section Evaluation.

Import Sample.

Local Ltac ticker_by_ticker H :=
  cbn in H;
  repeat (destruct H as [<- | H]; [repeat (eexists || split); reflexivity|]);
  try contradiction.

(** The worked scenario of the specification: weights A 0.5 and B 0.5,
    net assets 1000, base price 10000, FX 150 on both days, A from 100 to
    110, B at 200: the estimate is 10,500, up 500 or 5.00%. *)
Example spec_scenario :
  let table : dict spec_float := [("A"%string, b64 5 1); ("B"%string, b64 5 1)] in
  let row a b : dict (@scalar spec_float) :=
    [("A"%string, NpFloat64 (b64 a 0)); ("B"%string, NpFloat64 (b64 b 0))] in
  (su <- estimate_shares table (PyFloat (b64 1000 0)) base (row 100 200) usdjpy ;;
   est <- nav_projector table (fst su) (snd su) (row 110 200) usdjpy base ;;
   ret (format_float true 2 (fst (fst est)), format_float true 2 (snd (fst est)),
        format_float false 2 (snd est)))
  = Ok ("10,500.00"%string, "500.00"%string, "5.00"%string).
Proof. vm_compute. reflexivity. Qed.

Lemma estimate_shares_formula_witness :
  exists shares,
    estimate_shares WEIGHTS nav base (flat_row (b64 100 0)) usdjpy
      = Ok (shares, PyFloat (fdiv (b64 1000000000 0) (b64 10000 0)))
    /\ keys shares = keys (@WEIGHTS spec_float _)
    /\ forall h w p, In (h, w) WEIGHTS ->
         dict_get (flat_row (b64 100 0)) h = Some p ->
         dict_get shares h
           = Some (wrap (is_np p)
                     (fdiv (fdiv (fmul (b64 1000000000 0) w) (b64 150 0)) (raw p))).
Proof.
  apply (estimate_shares_formula WEIGHTS (b64 1000000000 0) (b64 10000 0)
           (b64 150 0) (flat_row (b64 100 0))).
  - apply WEIGHTS_keys_NoDup.
  - reflexivity.
  - reflexivity.
  - intros h Hh. ticker_by_ticker Hh.
Defined.

Lemma nav_projector_formula_witness :
  exists e d p,
    nav_projector WEIGHTS (flat_row (b64 1 0)) (PyFloat (b64 3 0))
      (flat_row (b64 100 0)) usdjpy base
    = Ok (NpFloat64 e, NpFloat64 d, NpFloat64 p).
Proof.
  do 3 eexists.
  apply (nav_projector_formula WEIGHTS (flat_row (b64 1 0)) (flat_row (b64 100 0))
           (PyFloat (b64 3 0)) usdjpy base (fun _ => b64 1 0) (fun _ => b64 100 0)).
  - discriminate.
  - reflexivity.
  - intros t Ht. ticker_by_ticker Ht.
  - intros t Ht. ticker_by_ticker Ht.
Defined.

(** C3 fails on the shipped table: with unchanged prices and FX rate the
    estimate is 9,660 yen against a previous base price of 10,000 yen,
    in binary64 as in exact arithmetic; and in binary64 it is not the
    float 9660.0 either, but 9660.000000000002. *)
Lemma round_trip_counterexample :
  (exists est,
     no_change_estimate WEIGHTS nav base (flat_row (b64 100 0)) usdjpy = Ok est
     /\ SFeqb (raw est) (raw base) = false
     /\ SFeqb (raw est) (b64 9660 0) = false
     /\ format_float true 2 est = "9,660.00"%string
     /\ format_float false 12 est = "9660.000000000002"%string)
  /\ (exists est,
        no_change_estimate WEIGHTS (PyFloat (1000000000 # 1)) (PyFloat (10000 # 1))
          (exact_row (100 # 1)) (PyFloat (150 # 1)) = Ok est
        /\ (raw est == 9660 # 1)%Q
        /\ ~ (raw est == 10000 # 1)%Q).
Proof.
  split.
  - eexists. split; [vm_compute; reflexivity|]. repeat split; vm_compute; reflexivity.
  - eexists. split; [vm_compute; reflexivity|]. split.
    + vm_compute. reflexivity.
    + intros H. vm_compute in H. discriminate H.
Qed.

Lemma no_change_estimate_close_witness :
  exists est m e,
    no_change_estimate WEIGHTS (PyFloat (b64 1000000000 0)) (PyFloat (b64 10000 0))
      (flat_row (b64 100 0)) (PyFloat (b64 150 0)) = Ok est
    /\ raw est = S754_finite false m e
    /\ near (List.length (@WEIGHTS spec_float _) + 6)
         (Qsum (map (fun hw => B2Q (snd hw)) WEIGHTS) * B2Q (b64 10000 0))
         (B2Q (raw est)).
Proof.
  apply (no_change_estimate_close WEIGHTS (b64 1000000000 0) (b64 10000 0)
           (b64 150 0) (flat_row (b64 100 0)) (fun _ => b64 100 0)).
  - discriminate.
  - apply WEIGHTS_keys_NoDup.
  - cbn. lia.
  - vm_compute. reflexivity.
  - vm_compute. reflexivity.
  - vm_compute. reflexivity.
  - intros h w Hin.
    assert (Hall : forallb (fun hw => moderate (snd hw)) (@WEIGHTS spec_float _) = true)
      by (vm_compute; reflexivity).
    rewrite forallb_forall in Hall. exact (Hall (h, w) Hin).
  - intros h Hh. cbn in Hh.
    repeat (destruct Hh as [<- | Hh]; [split; [reflexivity|vm_compute; reflexivity]|]).
    contradiction.
Defined.

Example no_change_estimate_exact_example :
  exists est,
    no_change_estimate WEIGHTS (PyFloat (1000000000 # 1)) (PyFloat (10000 # 1))
      (exact_row (100 # 1)) (PyFloat (150 # 1)) = Ok est
    /\ (raw est == Qsum (map snd (@WEIGHTS Q _)) * (10000 # 1))%Q.
Proof.
  apply (no_change_estimate_exact WEIGHTS (1000000000 # 1) (10000 # 1) (150 # 1)
           (exact_row (100 # 1)) (fun _ => 100 # 1)).
  - discriminate.
  - apply WEIGHTS_keys_NoDup.
  - intros H; discriminate H.
  - intros H; discriminate H.
  - intros H; discriminate H.
  - intros h Hh. cbn in Hh.
    repeat (destruct Hh as [<- | Hh];
            [split; [reflexivity|intros H; discriminate H]|]).
    contradiction.
Qed.

(** C4 fails on a zero previous price: the price row is a pandas row, the
    division is NumPy's, nothing is raised and the share count is an
    infinity. *)
Lemma zero_price_counterexample :
  is_zero (b64 0 0) = true
  /\ dict_get zero_price_row "CRWD" = Some (NpFloat64 (b64 0 0))
  /\ exists shares units,
       estimate_shares WEIGHTS nav base zero_price_row usdjpy = Ok (shares, units)
       /\ dict_get shares "CRWD" = Some (NpFloat64 (S754_infinity false)).
Proof.
  split; [reflexivity|]. split; [reflexivity|].
  do 2 eexists. split; vm_compute; reflexivity.
Qed.

Lemma estimate_shares_zero_divisor_witness :
  (is_zero (b64 0 0) = true \/ is_zero (b64 150 0) = true ->
   estimate_shares WEIGHTS nav (PyFloat (b64 0 0)) zero_price_row usdjpy
     = Raise ZeroDivisionError)
  /\ (is_zero (b64 0 0) = false -> is_zero (b64 150 0) = false ->
      exists shares units,
        estimate_shares WEIGHTS nav (PyFloat (b64 0 0)) zero_price_row usdjpy
          = Ok (shares, units)
        /\ forall h x, In h (keys (@WEIGHTS spec_float _)) ->
             dict_get zero_price_row h = Some (NpFloat64 x) -> is_zero x = true ->
             exists s, dict_get shares h = Some (NpFloat64 s)
                       /\ (s = S754_nan \/ exists sign, s = S754_infinity sign)).
Proof.
  apply (estimate_shares_zero_divisor WEIGHTS (b64 1000000000 0) (b64 0 0)
           (b64 150 0) zero_price_row).
  - discriminate.
  - apply WEIGHTS_keys_NoDup.
  - intros h Hh. ticker_by_ticker Hh.
Defined.


Lemma main_reports_failure_witness :
  String.prefix error_marker (error_marker +++ format_exc offline_world offline) = true
  /\ (forall (w' : @World spec_float) (msg : string) (t' : list event),
        calculate_today_nav WEIGHTS w' = (Ok msg, t') ->
        String.prefix error_marker msg = false)
  /\ main WEIGHTS offline_world
     = (fst (send_line_message (error_marker +++ format_exc offline_world offline)
               offline_world),
        [EvGet "https://www.daiwa-am.co.jp/funds/detail/csv_out.php?code=3346&type=1"]
        ++ EvPrint (error_marker +++ format_exc offline_world offline)
           :: snd (send_line_message
                     (error_marker +++ format_exc offline_world offline)
                     offline_world)).
Proof.
  apply (main_reports_failure WEIGHTS offline_world offline).
  reflexivity.
Defined.

(** C7 fails twice.  On a one-day feed the run raises the [IndexError]
    of positional indexing, not an error of a class of its own.  On a
    two-day feed whose first day has no quote, so that one aligned
    observation is left after forward filling, the run raises nothing at
    all: [main] returns, and the report is the one rendered with NaN for
    the estimate, the change, the percentage and every share count. *)
Lemma thin_feed_counterexample :
  ((df_len (close_frame [b64 100 0] [b64 150 0]) < 2)%nat
   /\ fst (calculate_today_nav WEIGHTS thin_world) = Raise IndexError
   /\ exc_name IndexError <> "InsufficientDataError"%string)
  /\ (df_len (close_frame [S754_nan; b64 101 0] [b64 150 0; b64 151 0]) = 2%nat
      /\ ffill [S754_nan; b64 101 0] = [S754_nan; b64 101 0]
      /\ fst (main WEIGHTS Cases.gap_world) = Ok tt
      /\ fst (calculate_today_nav WEIGHTS Cases.gap_world)
         = format_report WEIGHTS base (NpFloat64 S754_nan) (NpFloat64 S754_nan)
             (NpFloat64 S754_nan) (PyFloat (b64 150 0)) (PyFloat (b64 151 0))
             (flat_row S754_nan)
      /\ (exists report, fst (calculate_today_nav WEIGHTS Cases.gap_world) = Ok report)
      /\ format_float true 2 (NpFloat64 S754_nan) = "nan"%string).
Proof.
  split.
  - split; [cbn; lia|]. split; [vm_compute; reflexivity|discriminate].
  - split; [reflexivity|]. split; [reflexivity|]. split; [vm_compute; reflexivity|].
    split; [vm_compute; reflexivity|]. split; [|reflexivity].
    eexists. vm_compute. reflexivity.
Qed.

Lemma holdings_agree_witness :
  exists t prices shares terms,
    t = [EvDownload (keys (@WEIGHTS spec_float _) ++ ["USDJPY=X"%string])
           (now good_world - 7 * 86400) (now good_world)]
    /\ keys (df_cols (prices : @DataFrame spec_float)) = keys (@WEIGHTS spec_float _)
    /\ keys (shares : dict (@scalar spec_float)) = keys (@WEIGHTS spec_float _)
    /\ map fst (terms : list (string * @scalar spec_float))
       = keys (@WEIGHTS spec_float _).
Proof.
  do 4 eexists.
  eapply (holdings_agree WEIGHTS good_world _ _ _ nav base usdjpy _
            (flat_row (b64 100 0)) (flat_row (b64 101 0))).
  - apply WEIGHTS_keys_NoDup.
  - vm_compute. reflexivity.
  - vm_compute. reflexivity.
  - vm_compute. reflexivity.
Defined.

(** C10 fails in binary64: rounding merges neighbouring inputs.  With
    ten holdings of one share at 1.0 and three units, the FX rates 160.0
    and the next float above it give the same estimate; with the holdings
    at 100.0, an FX rate of 150.0 and three units, moving one price to
    the next float above 100.0 leaves the estimate where it was.  And
    with an FX rate of zero, which the claim does not exclude, the
    estimate is zero whatever the prices. *)
Lemma strict_monotonicity_counterexample :
  (SFltb (b64 160 0) after_160 = true
   /\ nav_projector WEIGHTS (flat_row (b64 1 0)) (PyFloat (b64 3 0))
        (flat_row (b64 1 0)) (PyFloat (b64 160 0)) base
      = nav_projector WEIGHTS (flat_row (b64 1 0)) (PyFloat (b64 3 0))
          (flat_row (b64 1 0)) (PyFloat after_160) base)
  /\ (SFltb (b64 100 0) after_100 = true
      /\ nav_projector WEIGHTS (flat_row (b64 1 0)) (PyFloat (b64 3 0))
           (flat_row (b64 100 0)) usdjpy base
         = nav_projector WEIGHTS (flat_row (b64 1 0)) (PyFloat (b64 3 0))
             bumped_row usdjpy base)
  /\ (SFltb (b64 100 0) (b64 101 0) = true
      /\ nav_projector WEIGHTS (flat_row (b64 1 0)) (PyFloat (b64 3 0))
           (flat_row (b64 100 0)) (PyFloat (b64 0 0)) base
         = nav_projector WEIGHTS (flat_row (b64 1 0)) (PyFloat (b64 3 0))
             (flat_row (b64 101 0)) (PyFloat (b64 0 0)) base)
  /\ exists e d p,
       nav_projector WEIGHTS (flat_row (b64 1 0)) (PyFloat (b64 3 0))
         (flat_row (b64 1 0)) (PyFloat after_160) base = Ok (e, d, p).
Proof.
  repeat split; try (vm_compute; reflexivity).
  do 3 eexists. vm_compute. reflexivity.
Qed.

Example nav_projector_increasing_exact_example :
  exists e1 d1 p1 e2 d2 p2,
    nav_projector WEIGHTS (exact_row (1 # 1)) (PyFloat (3 # 1))
      (exact_row (100 # 1)) (PyFloat (150 # 1)) (PyFloat (10000 # 1))
    = Ok (e1, d1, p1)
    /\ nav_projector WEIGHTS (exact_row (1 # 1)) (PyFloat (3 # 1))
         (exact_row (101 # 1)) (PyFloat (151 # 1)) (PyFloat (10000 # 1))
       = Ok (e2, d2, p2)
    /\ (raw e1 < raw e2)%Q.
Proof.
  apply (nav_projector_increasing_exact WEIGHTS (exact_row (1 # 1))
           (exact_row (100 # 1)) (exact_row (101 # 1)) (PyFloat (3 # 1))
           (PyFloat (10000 # 1)) (150 # 1) (151 # 1)
           (fun _ => 1 # 1) (fun _ => 100 # 1) (fun _ => 101 # 1)).
  - discriminate.
  - reflexivity.
  - intros t Ht. cbn in Ht.
    repeat (destruct Ht as [<- | Ht];
            [split; [eexists; split; reflexivity|reflexivity]|]).
    contradiction.
  - intros t Ht. cbn in Ht.
    repeat (destruct Ht as [<- | Ht];
            [repeat split; try reflexivity; intros H; discriminate H|]).
    contradiction.
  - reflexivity.
  - intros H; discriminate H.
  - left. reflexivity.
Defined.

Lemma nav_projector_monotone_witness :
  exists e1 d1 p1 e2 d2 p2,
    nav_projector WEIGHTS (flat_row (b64 1 0)) (PyFloat (b64 3 0))
      (flat_row (b64 100 0)) (PyFloat (b64 150 0)) base = Ok (e1, d1, p1)
    /\ nav_projector WEIGHTS (flat_row (b64 1 0)) (PyFloat (b64 3 0))
         (flat_row (b64 101 0)) (PyFloat (b64 151 0)) base = Ok (e2, d2, p2)
    /\ SFleb (raw e1) (raw e2) = true.
Proof.
  apply (nav_projector_monotone WEIGHTS (flat_row (b64 1 0))
           (flat_row (b64 100 0)) (flat_row (b64 101 0)) (PyFloat (b64 3 0)) base
           (b64 150 0) (b64 151 0)
           (fun _ => b64 1 0) (fun _ => b64 100 0) (fun _ => b64 101 0)).
  - discriminate.
  - reflexivity.
  - intros t Ht. cbn in Ht.
    repeat (destruct Ht as [<- | Ht];
            [split; [eexists; split; reflexivity|reflexivity]|]).
    contradiction.
  - intros t Ht. cbn in Ht.
    repeat (destruct Ht as [<- | Ht]; [repeat split; reflexivity|]).
    contradiction.
  - reflexivity.
  - reflexivity.
  - reflexivity.
Defined.

End Evaluation.

(** * Further properties of the script *)

(** ** The reference feed *)

Section Feed.

Context {F : Type} {AF : Arith F}.

Lemma last_row_snoc {A} (rows : list A) (r : A) : last_row (rows ++ [r]) = Ok r.
Proof.
  unfold last_row. rewrite length_app. cbn [List.length].
  replace (List.length rows + 1 - 1)%nat with (List.length rows + 0)%nat by lia.
  rewrite nth_error_app2 by lia.
  replace (List.length rows + 0 - List.length rows)%nat with 0%nat by lia.
  reflexivity.
Qed.

Lemma fetch_daiwa_csv_last_row_run (w : @World F) (fund_code : string)
  (rows : list (dict cell)) (r : dict cell) :
  get_csv w (reference_url fund_code) = Ok (rows ++ [r]) ->
  fetch_daiwa_csv_last_row fund_code w = (Ok r, [EvGet (reference_url fund_code)]).
Proof.
  intros H. unfold fetch_daiwa_csv_last_row, emit, call, lift.
  fold (reference_url fund_code). cbn [bind Monad_M app].
  rewrite H, last_row_snoc. reflexivity.
Qed.

(** X1.  When the reference table has at least one row,
    [fetch_daiwa_csv_last_row] returns its last row, whatever the rows
    before it, after a single request to the address built from the fund
    code. *)
Theorem fetch_daiwa_csv_last_row_last (w : @World F) (fund_code : string)
  (rows : list (dict cell)) (r : dict cell) :
  get_csv w (reference_url fund_code) = Ok (rows ++ [r]) ->
  fetch_daiwa_csv_last_row fund_code w = (Ok r, [EvGet (reference_url fund_code)]).
Proof. exact (fetch_daiwa_csv_last_row_run w fund_code rows r). Qed.

(** X2.  A reference table without rows (a header alone) makes
    [fetch_daiwa_csv_last_row] raise [IndexError], after the request. *)
Theorem fetch_daiwa_csv_last_row_empty (w : @World F) (fund_code : string) :
  get_csv w (reference_url fund_code) = Ok [] ->
  fetch_daiwa_csv_last_row fund_code w
  = (Raise IndexError, [EvGet (reference_url fund_code)]).
Proof.
  intros H. unfold fetch_daiwa_csv_last_row, emit, call, lift.
  fold (reference_url fund_code). cbn [bind Monad_M app].
  rewrite H. reflexivity.
Qed.

End Feed.

(** ** Market data *)

Section Market.

Context {F : Type} {AF : Arith F}.

Lemma mapM_result_total {A B} (f : A -> result B) (g : A -> B) (l : list A) :
  (forall a, In a l -> f a = Ok (g a)) -> mapM_result f l = Ok (map g l).
Proof.
  induction l as [|a l IH]; intros H; cbn [mapM_result map]; [reflexivity|].
  rewrite (H a (or_introl eq_refl)). cbn [bind Monad_result].
  rewrite IH by (intros b Hb; apply H; now right). reflexivity.
Qed.

Lemma mapM_result_first_failure {A B} (f : A -> result B) (l : list A) :
  (exists a, In a l /\ exists e, f a = Raise e) ->
  exists a e, In a l /\ f a = Raise e /\ mapM_result f l = Raise e.
Proof.
  induction l as [|a l IH]; intros (b & Hb & e & He); [destruct Hb|].
  cbn [mapM_result]. destruct (f a) as [y|e'] eqn:Ea.
  - destruct Hb as [<-|Hb]; [congruence|].
    destruct IH as (c & e'' & Hc & Hfc & Hrun); [now exists b; split; [|exists e]|].
    exists c, e''. split; [now right|]. split; [exact Hfc|].
    cbn [bind Monad_result]. now rewrite Hrun.
  - exists a, e'. split; [now left|]. split; [exact Ea|reflexivity].
Qed.

Lemma dict_get_tabulate {V} (f : string -> V) (labels : list string) (t : string) :
  In t labels -> dict_get (map (fun l => (l, f l)) labels) t = Some (f t).
Proof.
  induction labels as [|l labels IH]; intros Hin; [destruct Hin|].
  cbn [map dict_get]. destruct (String.eqb_spec t l) as [->|Hne]; [reflexivity|].
  destruct Hin as [->|Hin]; [congruence|now apply IH].
Qed.

Lemma select_columns_ok (df : @DataFrame F) (labels : list string) :
  (forall l, In l labels -> dict_get (df_cols df) l <> None) ->
  select_columns df labels
  = Ok {| df_len := df_len df; df_cols := map (fun l => (l, column df l)) labels |}.
Proof.
  intros H. unfold select_columns.
  rewrite (mapM_result_total _ (fun l => (l, column df l))); [reflexivity|].
  intros l Hl. unfold getitem, column. specialize (H l Hl).
  destruct (dict_get (df_cols df) l); [reflexivity|congruence].
Qed.

Lemma select_columns_missing (df : @DataFrame F) (labels : list string) :
  (exists l, In l labels /\ dict_get (df_cols df) l = None) ->
  exists k, In k labels /\ dict_get (df_cols df) k = None
            /\ select_columns df labels = Raise (KeyError k).
Proof.
  intros (l & Hl & Hnone). unfold select_columns.
  destruct (mapM_result_first_failure
              (fun l => col <- getitem (df_cols df) l ;; ret (l, col)) labels)
    as (k & e & Hk & Hfk & Hrun).
  { exists l. split; [exact Hl|]. exists (KeyError l). unfold getitem. now rewrite Hnone. }
  unfold getitem in Hfk. destruct (dict_get (df_cols df) k) eqn:Ek; [discriminate|].
  cbn in Hfk. inversion Hfk; subst e.
  exists k. split; [exact Hk|]. split; [exact Ek|]. now rewrite Hrun.
Qed.

Lemma classic_missing (df : @DataFrame F) (labels : list string) :
  (forall l, In l labels -> dict_get (df_cols df) l <> None)
  \/ (exists l, In l labels /\ dict_get (df_cols df) l = None).
Proof.
  induction labels as [|l labels [IH|(k & Hk & Hnone)]].
  - left. intros l [].
  - destruct (dict_get (df_cols df) l) eqn:El.
    + left. intros k [<-|Hk]; [congruence|now apply IH].
    + right. exists l. split; [now left|exact El].
  - right. exists k. split; [now right|exact Hnone].
Qed.

Lemma get_prices_and_fx_trace (WEIGHTS : dict F) (w : @World F) :
  snd (get_prices_and_fx WEIGHTS w)
  = [EvDownload (keys WEIGHTS ++ ["USDJPY=X"%string]) (now w - 7 * 86400) (now w)].
Proof.
  unfold get_prices_and_fx, ask, emit, call, lift, TICKERS. cbn [bind ret Monad_M app].
  destruct (download_close w _ _ _) as [close|e]; [|reflexivity].
  destruct (select_columns close (keys WEIGHTS)) as [prices|e]; [|reflexivity].
  destruct (getitem (df_cols close) "USDJPY=X") as [fx|e]; reflexivity.
Qed.

(** X3.  Whatever the market data source answers, [get_prices_and_fx]
    contacts it exactly once: for the tickers of the weight table, in
    table order, followed by [USDJPY=X], over the seven days that end
    now. *)
Theorem get_prices_and_fx_one_request (WEIGHTS : dict F) (w : @World F) :
  snd (get_prices_and_fx WEIGHTS w)
  = [EvDownload (keys WEIGHTS ++ ["USDJPY=X"%string]) (now w - 7 * 86400) (now w)].
Proof. exact (get_prices_and_fx_trace WEIGHTS w). Qed.

(** X4.  When the downloaded closing prices lack the column of a held
    ticker, or the [USDJPY=X] column, [get_prices_and_fx] raises
    [KeyError]. *)
Theorem get_prices_and_fx_missing_column (WEIGHTS : dict F) (w : @World F)
  (close : DataFrame) :
  download_close w (keys WEIGHTS ++ ["USDJPY=X"%string]) (now w - 7 * 86400) (now w)
    = Ok close ->
  (exists t, In t (keys WEIGHTS) /\ dict_get (df_cols close) t = None)
  \/ dict_get (df_cols close) "USDJPY=X" = None ->
  exists k, fst (get_prices_and_fx WEIGHTS w) = Raise (KeyError k).
Proof.
  intros Hd Hmiss.
  unfold get_prices_and_fx, ask, emit, call, lift, TICKERS. cbn [bind ret Monad_M app].
  rewrite Hd.
  destruct (classic_missing close (keys WEIGHTS)) as [Hall|Hsome].
  - destruct Hmiss as [(t & Ht & Hnone)|Hfx]; [exfalso; now apply (Hall t Ht)|].
    rewrite (select_columns_ok close _ Hall). unfold getitem. rewrite Hfx.
    exists "USDJPY=X"%string. reflexivity.
  - destruct (select_columns_missing close _ Hsome) as (k & _ & Hk & Hrun).
    rewrite Hrun. exists k. reflexivity.
Qed.

End Market.

Section MarketFrame.

Context {F : Type} {AF : Arith F}.

(** X5.  When the download holds a column for every held ticker and for
    [USDJPY=X], [get_prices_and_fx] returns the forward-filled FX column
    and a frame with the same number of rows whose columns are exactly
    the held tickers, in table order, each the forward fill of the
    downloaded column; other downloaded columns are dropped. *)
Theorem get_prices_and_fx_frame (WEIGHTS : dict F) (w : @World F)
  (close : DataFrame) (rates : list F) :
  download_close w (keys WEIGHTS ++ ["USDJPY=X"%string]) (now w - 7 * 86400) (now w)
    = Ok close ->
  (forall t, In t (keys WEIGHTS) -> dict_get (df_cols close) t <> None) ->
  dict_get (df_cols close) "USDJPY=X" = Some rates ->
  exists prices,
    fst (get_prices_and_fx WEIGHTS w) = Ok (prices, ffill rates)
    /\ df_len prices = df_len close
    /\ keys (df_cols prices) = keys WEIGHTS
    /\ forall t col, In t (keys WEIGHTS) ->
         dict_get (df_cols close) t = Some col ->
         dict_get (df_cols prices) t = Some (ffill col).
Proof.
  intros Hd Hall Hfx.
  unfold get_prices_and_fx, ask, emit, call, lift, TICKERS. cbn [bind ret Monad_M app].
  rewrite Hd, (select_columns_ok close _ Hall). unfold getitem. rewrite Hfx.
  cbn [of_option fst]. eexists. split; [reflexivity|].
  unfold ffill_frame. cbn [df_len df_cols]. split; [reflexivity|].
  rewrite map_map. cbn [fst snd]. split.
  - unfold keys. rewrite map_map. cbn [fst]. apply map_id.
  - intros t col Ht Hcol.
    rewrite (dict_get_tabulate (fun l => ffill (column close l)) _ t Ht).
    unfold column. now rewrite Hcol.
Qed.

(** ** Forward filling *)

Lemma ffill_from_length (col : list F) :
  forall last, List.length (ffill_from last col) = List.length col.
Proof.
  induction col as [|x col IH]; intros last; cbn [ffill_from List.length]; [reflexivity|].
  destruct (is_nan x); [destruct last|]; cbn [List.length]; now rewrite IH.
Qed.

(** Below a valid value nothing is left to fill. *)
Lemma ffill_from_valid (col : list F) :
  forall y, is_nan y = false ->
    Forall (fun x => is_nan x = false) (ffill_from (Some y) col).
Proof.
  induction col as [|x col IH]; intros y Hy; cbn [ffill_from]; [constructor|].
  destruct (is_nan x) eqn:Ex; constructor; auto.
Qed.

Lemma ffill_from_idempotent (col : list F) :
  forall last last',
    (match last with Some y => is_nan y = false | None => last' = None end) ->
    ffill_from last' (ffill_from last col) = ffill_from last col.
Proof.
  induction col as [|x col IH]; intros last last' Hl; cbn [ffill_from]; [reflexivity|].
  destruct (is_nan x) eqn:Ex.
  - destruct last as [y|].
    + cbn [ffill_from]. rewrite Hl. f_equal. now apply IH.
    + subst last'. cbn [ffill_from]. rewrite Ex. f_equal. now apply IH.
  - cbn [ffill_from]. rewrite Ex. f_equal. now apply IH.
Qed.

Lemma ffill_from_app (pre rest : list F) (x : F) :
  is_nan x = false ->
  forall last,
    ffill_from last (pre ++ x :: rest)
    = ffill_from last pre ++ x :: ffill_from (Some x) rest.
Proof.
  intros Hx. induction pre as [|p pre IH]; intros last; cbn [app ffill_from].
  - now rewrite Hx.
  - destruct (is_nan p); [destruct last|]; cbn [app]; now rewrite IH.
Qed.

Lemma ffill_from_gap (gap rest : list F) (x : F) :
  Forall (fun y => is_nan y = true) gap ->
  ffill_from (Some x) (gap ++ rest)
  = repeat x (List.length gap) ++ ffill_from (Some x) rest.
Proof.
  induction 1 as [|g gap Hg _ IH]; cbn [app ffill_from List.length repeat]; [reflexivity|].
  rewrite Hg. now rewrite IH.
Qed.

(** X6.  Forward filling keeps the number of rows, and filling twice is
    filling once. *)
Theorem ffill_shape (col : list F) :
  List.length (ffill col) = List.length col /\ ffill (ffill col) = ffill col.
Proof.
  split; [apply ffill_from_length|]. unfold ffill. now apply ffill_from_idempotent.
Qed.

(** X7.  Forward filling leaves a quote where it is and gives it to
    every missing value (NaN) that follows it without another quote in
    between: the price used for a day without a quote is the most recent
    quote. *)
Theorem ffill_carries_last_quote (pre gap rest : list F) (x : F) (j : nat) :
  is_nan x = false ->
  Forall (fun y => is_nan y = true) gap ->
  (j <= List.length gap)%nat ->
  nth_error (ffill (pre ++ x :: gap ++ rest)) (List.length pre + j) = Some x.
Proof.
  intros Hx Hgap Hj. unfold ffill.
  rewrite (ffill_from_app pre (gap ++ rest) x Hx), (ffill_from_gap gap rest x Hgap).
  rewrite nth_error_app2 by (rewrite ffill_from_length; lia).
  rewrite ffill_from_length.
  replace (List.length pre + j - List.length pre)%nat with j by lia.
  destruct j as [|j]; [reflexivity|]. cbn [nth_error].
  rewrite nth_error_app1 by (rewrite repeat_length; lia).
  apply nth_error_repeat. lia.
Qed.

(** X8.  Missing values with no quote above them stay missing: forward
    filling leaves a leading run of NaN as it is and fills what follows
    on its own. *)
Theorem ffill_leading_gap (lead rest : list F) :
  Forall (fun y => is_nan y = true) lead ->
  ffill (lead ++ rest) = lead ++ ffill rest.
Proof.
  unfold ffill. induction 1 as [|g lead Hg _ IH]; cbn [app ffill_from]; [reflexivity|].
  rewrite Hg. now rewrite IH.
Qed.

(** X9.  From the first quote of a column on, the forward-filled column
    has no missing value. *)
Theorem ffill_no_gap_after_quote (pre rest : list F) (x : F) :
  is_nan x = false ->
  exists tail,
    ffill (pre ++ x :: rest) = ffill pre ++ x :: tail
    /\ List.length tail = List.length rest
    /\ Forall (fun y => is_nan y = false) tail.
Proof.
  intros Hx. exists (ffill_from (Some x) rest). unfold ffill.
  rewrite (ffill_from_app pre rest x Hx). split; [reflexivity|]. split.
  - apply ffill_from_length.
  - now apply ffill_from_valid.
Qed.

End MarketFrame.

(** ** Runs of the effectful code *)

Section Runs.

Context {F : Type} {AF : Arith F}.

(** [float] on a cell leaves no trace. *)
Lemma float_of_cell_quiet (c : cell) (w : @World F) : snd (float_of_cell c w) = [].
Proof.
  destruct c as [x|s]; [reflexivity|].
  unfold float_of_cell, ask, lift. cbn [bind Monad_M].
  destruct (float_of_str w s); reflexivity.
Qed.

Lemma fetch_daiwa_csv_last_row_trace (code : string) (w : @World F) :
  snd (fetch_daiwa_csv_last_row code w) = [EvGet (reference_url code)].
Proof.
  unfold fetch_daiwa_csv_last_row, emit, call, lift. fold (reference_url code).
  cbn [bind Monad_M app]. destruct (get_csv w _) as [rows|e]; [|reflexivity].
  destruct (last_row rows); reflexivity.
Qed.

Lemma snd_bind {A B} (c : @M F A) (k : A -> @M F B) (w : World) :
  snd ((x <- c ;; k x) w)
  = match fst (c w) with
    | Ok a => snd (c w) ++ snd (k a w)
    | Raise _ => snd (c w)
    end.
Proof.
  cbn [bind Monad_M]. destruct (c w) as [[a|e] t]; [|reflexivity].
  cbn [fst snd]. now destruct (k a w).
Qed.

Lemma fst_bind {A B} (c : @M F A) (k : A -> @M F B) (w : World) :
  fst ((x <- c ;; k x) w)
  = match fst (c w) with
    | Ok a => fst (k a w)
    | Raise e => Raise e
    end.
Proof.
  cbn [bind Monad_M]. destruct (c w) as [[a|e] t]; [|reflexivity].
  cbn [fst snd]. now destruct (k a w).
Qed.

Lemma snd_lift {A} (r : result A) (w : @World F) : snd (lift r w) = [].
Proof. reflexivity. Qed.

(** X10.  Whatever the outside answers, [calculate_today_nav] itself
    calls neither [print] nor [requests.post]: it requests the reference
    table and, if it gets that far, asks for the market data once. *)
Theorem calculate_today_nav_quiet (WEIGHTS : dict F) (w : @World F) :
  snd (calculate_today_nav WEIGHTS w) = [EvGet (reference_url "3346")]
  \/ snd (calculate_today_nav WEIGHTS w)
     = [EvGet (reference_url "3346");
        EvDownload (keys WEIGHTS ++ ["USDJPY=X"%string]) (now w - 7 * 86400) (now w)].
Proof.
  unfold calculate_today_nav, read_inputs.
  rewrite !snd_bind, !fst_bind, fetch_daiwa_csv_last_row_trace.
  destruct (fst (fetch_daiwa_csv_last_row "3346" w)) as [row|e]; [|now left].
  rewrite !snd_bind, !fst_bind, !snd_lift.
  change (fst (lift ?r w)) with r.
  destruct (getitem row "基準価額") as [c1|e]; [|now left].
  rewrite !snd_bind, !fst_bind, float_of_cell_quiet.
  destruct (fst (float_of_cell c1 w)) as [pb|e]; [|now left].
  rewrite !snd_bind, !fst_bind, !snd_lift.
  change (fst (lift ?r w)) with r.
  destruct (getitem row "純資産総額") as [c2|e]; [|now left].
  rewrite !snd_bind, !fst_bind, float_of_cell_quiet.
  destruct (fst (float_of_cell c2 w)) as [pn|e]; [|now left].
  rewrite !snd_bind, !fst_bind, get_prices_and_fx_trace.
  right. destruct (fst (get_prices_and_fx WEIGHTS w)) as [[prices fx]|e]; [|reflexivity].
  cbn [ret Monad_M fst snd app]. reflexivity.
Qed.

(** X11.  When the last row of the reference table lacks the base price
    column, or the net assets column, [calculate_today_nav] raises
    [KeyError] for that column before any market data is requested. *)
Theorem calculate_today_nav_missing_column (WEIGHTS : dict F) (w : @World F)
  (rows : list (dict cell)) (row : dict cell) (k : string) :
  get_csv w (reference_url "3346") = Ok (rows ++ [row]) ->
  (k = "基準価額"%string /\ dict_get row "基準価額" = None)
  \/ (k = "純資産総額"%string /\ dict_get row "純資産総額" = None
      /\ exists x, dict_get row "基準価額" = Some (CellNum x)) ->
  calculate_today_nav WEIGHTS w
  = (Raise (KeyError k), [EvGet (reference_url "3346")]).
Proof.
  intros Hcsv Hk.
  pose proof (fetch_daiwa_csv_last_row_run w "3346" rows row Hcsv) as Hrow.
  unfold calculate_today_nav, read_inputs. cbn [bind Monad_M]. rewrite Hrow.
  unfold lift, getitem.
  destruct Hk as [[-> Hnone]|(-> & Hnone & x & Hsome)].
  - rewrite Hnone. reflexivity.
  - rewrite Hsome, Hnone. reflexivity.
Qed.

(** X12.  When the base price of the last row is text that [float]
    rejects, [calculate_today_nav] raises [ValueError] before any market
    data is requested. *)
Theorem calculate_today_nav_bad_number (WEIGHTS : dict F) (w : @World F)
  (rows : list (dict cell)) (row : dict cell) (s : string) :
  get_csv w (reference_url "3346") = Ok (rows ++ [row]) ->
  dict_get row "基準価額" = Some (CellStr s) ->
  float_of_str w s = None ->
  calculate_today_nav WEIGHTS w = (Raise ValueError, [EvGet (reference_url "3346")]).
Proof.
  intros Hcsv Hcell Hs.
  pose proof (fetch_daiwa_csv_last_row_run w "3346" rows row Hcsv) as Hrow.
  unfold calculate_today_nav, read_inputs. cbn [bind Monad_M]. rewrite Hrow.
  unfold lift, getitem, float_of_cell, ask. rewrite Hcell.
  cbn [of_option bind Monad_M]. rewrite Hs. reflexivity.
Qed.

(** ** The notifier with credentials *)

Lemma falsy_false (s : string) : s <> EmptyString -> falsy (Some s) = false.
Proof. destruct s; [congruence|reflexivity]. Qed.

Lemma send_line_message_run (text token user_id : string) (w : @World F) :
  getenv w "LINE_CHANNEL_ACCESS_TOKEN" = Some token -> token <> EmptyString ->
  getenv w "LINE_TO_USER_ID" = Some user_id -> user_id <> EmptyString ->
  let data := json_dumps w (push_body user_id text) in
  send_line_message text w
  = match post w push_url (push_headers token) data with
    | Ok r =>
        (Ok tt, [EvPost push_url (push_headers token) data;
                 EvPrint ("LINE API レスポンス: " +++ str_of_Z (fst r) +++ " " +++ snd r)])
    | Raise e => (Raise e, [EvPost push_url (push_headers token) data])
    end.
Proof.
  intros Ht Htne Hu Hune data.
  unfold send_line_message, ask, emit, call, print. cbn [bind Monad_M].
  rewrite Ht, Hu, (falsy_false token Htne), (falsy_false user_id Hune).
  cbn [orb bind Monad_M app]. fold (push_headers token) (push_body user_id text).
  fold data. destruct (post w push_url (push_headers token) data) as [r|e]; reflexivity.
Qed.

(** X13.  With a non-empty token and a non-empty user id,
    [send_line_message] posts once to the push endpoint, with the token as
    bearer and a body that addresses the user and carries the text as a
    single text message; it then prints the status code and the answer;
    if the post raises, the exception propagates and nothing is
    printed. *)
Theorem send_line_message_posts (text token user_id : string) (w : @World F) :
  getenv w "LINE_CHANNEL_ACCESS_TOKEN" = Some token -> token <> EmptyString ->
  getenv w "LINE_TO_USER_ID" = Some user_id -> user_id <> EmptyString ->
  let data := json_dumps w (push_body user_id text) in
  send_line_message text w
  = match post w push_url (push_headers token) data with
    | Ok r =>
        (Ok tt, [EvPost push_url (push_headers token) data;
                 EvPrint ("LINE API レスポンス: " +++ str_of_Z (fst r) +++ " " +++ snd r)])
    | Raise e => (Raise e, [EvPost push_url (push_headers token) data])
    end.
Proof. exact (send_line_message_run text token user_id w). Qed.

(** X15.  When the report was computed, the credentials are set and the
    push endpoint raises, [main] prints the report, tries to post it,
    catches the exception, prints the error text, tries to post that
    too, and lets the second exception escape. *)
Theorem main_endpoint_down (WEIGHTS : dict F) (w : @World F) (msg token user_id : string)
  (t : list event) (e : exn) :
  calculate_today_nav WEIGHTS w = (Ok msg, t) ->
  getenv w "LINE_CHANNEL_ACCESS_TOKEN" = Some token -> token <> EmptyString ->
  getenv w "LINE_TO_USER_ID" = Some user_id -> user_id <> EmptyString ->
  (forall url headers data, post w url headers data = Raise e) ->
  let error_text := error_marker +++ format_exc w e in
  main WEIGHTS w
  = (Raise e,
     t ++ [ EvPrint msg;
            EvPost push_url (push_headers token) (json_dumps w (push_body user_id msg));
            EvPrint error_text;
            EvPost push_url (push_headers token)
              (json_dumps w (push_body user_id error_text)) ]).
Proof.
  intros Hcalc Ht Htne Hu Hune Hpost error_text.
  pose proof (fun text => send_line_message_run text token user_id w Ht Htne Hu Hune)
    as Hsend. cbv zeta in Hsend.
  unfold main, try_except.
  rewrite (run_bind_ok _ _ w msg t Hcalc). unfold ask, print, emit.
  cbn [bind Monad_M fst snd]. rewrite (Hsend msg), Hpost.
  cbn [fst snd app]. fold error_text. rewrite (Hsend error_text), Hpost.
  rewrite <- app_assoc. reflexivity.
Qed.

(** X16.  When the report was computed, the credentials are set and the
    push endpoint answers, [main] prints the report, posts that same
    text once and prints the answer. *)
Theorem main_delivers_report (WEIGHTS : dict F) (w : @World F) (msg token user_id : string)
  (t : list event) (r : Z * string) :
  calculate_today_nav WEIGHTS w = (Ok msg, t) ->
  getenv w "LINE_CHANNEL_ACCESS_TOKEN" = Some token -> token <> EmptyString ->
  getenv w "LINE_TO_USER_ID" = Some user_id -> user_id <> EmptyString ->
  post w push_url (push_headers token) (json_dumps w (push_body user_id msg)) = Ok r ->
  main WEIGHTS w
  = (Ok tt,
     t ++ [ EvPrint msg;
            EvPost push_url (push_headers token) (json_dumps w (push_body user_id msg));
            EvPrint ("LINE API レスポンス: " +++ str_of_Z (fst r) +++ " " +++ snd r) ]).
Proof.
  intros Hcalc Ht Htne Hu Hune Hpost.
  apply (main_on_success WEIGHTS w msg t _ Hcalc).
  pose proof (send_line_message_run msg token user_id w Ht Htne Hu Hune) as Hsend.
  cbv zeta in Hsend. now rewrite Hpost in Hsend.
Qed.

End Runs.

(** ** The estimator and the projector *)

Section Estimator.

Context {F : Type} {AF : Arith F}.

Lemma estimate_shares_loop_ext (nav fx : scalar) (p1 p2 : dict (@scalar F)) :
  forall (items : dict F) (acc : dict scalar),
    (forall h, In h (keys items) -> dict_get p1 h = dict_get p2 h) ->
    estimate_shares_loop nav p1 fx items acc = estimate_shares_loop nav p2 fx items acc.
Proof.
  induction items as [|[h w] items IH]; intros acc Hagree; [reflexivity|].
  cbn [estimate_shares_loop]. unfold getitem.
  rewrite (Hagree h (or_introl eq_refl)).
  destruct (py_truediv (py_mul nav (PyFloat w)) fx) as [usd|e]; [|reflexivity].
  cbn [bind Monad_result].
  destruct (of_option (dict_get p2 h) (KeyError h)) as [p|e]; [|reflexivity].
  cbn [bind Monad_result].
  destruct (py_truediv usd p) as [s|e]; [|reflexivity].
  cbn [bind Monad_result]. apply IH. intros k Hk. apply Hagree. now right.
Qed.

(** X17.  [estimate_shares] reads the previous prices of the held
    tickers only: two price rows that agree on them give the same
    result, error or not. *)
Theorem estimate_shares_reads_held_prices (WEIGHTS : dict F)
  (nav base fx : scalar) (p1 p2 : dict scalar) :
  (forall h, In h (keys WEIGHTS) -> dict_get p1 h = dict_get p2 h) ->
  estimate_shares WEIGHTS nav base p1 fx = estimate_shares WEIGHTS nav base p2 fx.
Proof.
  intros Hagree. unfold estimate_shares.
  now rewrite (estimate_shares_loop_ext nav fx p1 p2 WEIGHTS [] Hagree).
Qed.

Lemma estimate_shares_loop_missing (nav fx : F) (prices : dict (@scalar F))
  (t : string) (w : F) (rest : dict F) :
  is_zero fx = false ->
  dict_get prices t = None ->
  forall (pre : dict F) (acc : dict scalar),
    (forall h, In h (keys pre) ->
       exists p, dict_get prices h = Some p
                 /\ (is_np p = true \/ is_zero (raw p) = false)) ->
    estimate_shares_loop (PyFloat nav) prices (PyFloat fx) (pre ++ (t, w) :: rest) acc
    = Raise (KeyError t).
Proof.
  intros Hfx Hnone. induction pre as [|[h v] pre IH]; intros acc Hpre.
  - cbn [app estimate_shares_loop].
    rewrite (py_truediv_nonzero _ (PyFloat fx) Hfx). cbn [bind Monad_result].
    unfold getitem. rewrite Hnone. reflexivity.
  - cbn [app estimate_shares_loop].
    rewrite (py_truediv_nonzero _ (PyFloat fx) Hfx). cbn [bind Monad_result].
    destruct (Hpre h (or_introl eq_refl)) as (p & Hp & Hdiv).
    unfold getitem. rewrite Hp. cbn [of_option bind Monad_result].
    rewrite (py_truediv_ok _ p Hdiv). cbn [bind Monad_result].
    apply IH. intros k Hk. apply Hpre. now right.
Qed.

(** X18.  With a non-zero base price and FX rate, [estimate_shares]
    raises [KeyError] for the first ticker of the table, in table order,
    that has no previous price. *)
Theorem estimate_shares_missing_price (pre rest : dict F) (t : string) (w : F)
  (nav base fx : F) (prices : dict scalar) :
  is_zero base = false ->
  is_zero fx = false ->
  (forall h, In h (keys pre) ->
     exists p, dict_get prices h = Some p
               /\ (is_np p = true \/ is_zero (raw p) = false)) ->
  dict_get prices t = None ->
  estimate_shares (pre ++ (t, w) :: rest) (PyFloat nav) (PyFloat base) prices (PyFloat fx)
  = Raise (KeyError t).
Proof.
  intros Hbase Hfx Hpre Hnone. unfold estimate_shares.
  rewrite (py_truediv_nonzero _ (PyFloat base) Hbase). cbn [bind Monad_result].
  now rewrite (estimate_shares_loop_missing nav fx prices t w rest Hfx Hnone pre [] Hpre).
Qed.

(** The projector divides NumPy values. *)

Lemma py_truediv_np (x : F) (b : scalar) :
  py_truediv (NpFloat64 x) b = Ok (NpFloat64 (fdiv x (raw b))).
Proof. now destruct b. Qed.

Lemma nav_projector_np (WEIGHTS : dict F)
  (shares last_prices : dict scalar) (units last_fx previous_base_price : scalar)
  (sh pr : string -> F) :
  WEIGHTS <> [] ->
  (forall t, In t (TICKERS WEIGHTS) ->
     exists s, dict_get shares t = Some s /\ raw s = sh t) ->
  (forall t, In t (TICKERS WEIGHTS) ->
     dict_get last_prices t = Some (NpFloat64 (pr t))) ->
  let total_usd :=
    fold_left fadd (map (fun t => fmul (sh t) (pr t)) (TICKERS WEIGHTS)) (fdec 0 0) in
  let estimated_base_price := fdiv (fmul total_usd (raw last_fx)) (raw units) in
  let diff := fsub estimated_base_price (raw previous_base_price) in
  let pct := fmul (fdiv diff (raw previous_base_price)) (fdec 100 0) in
  nav_projector WEIGHTS shares units last_prices last_fx previous_base_price
    = Ok (NpFloat64 estimated_base_price, NpFloat64 diff, NpFloat64 pct).
Proof.
  intros Hne Hs Hp total_usd estimated_base_price diff pct.
  destruct (mapM_terms_ok shares last_prices sh pr (TICKERS WEIGHTS) Hs Hp)
    as [terms [Hrun [Hk [Hv Hnp]]]].
  unfold nav_projector, nav_terms. rewrite Hrun. cbn [bind Monad_result].
  assert (Hsum : py_sum (map snd terms) = NpFloat64 total_usd).
  { rewrite (scalar_eta (py_sum _)). unfold py_sum.
    rewrite raw_fold_py_add, is_np_fold_py_add, Hv, Hnp.
    destruct WEIGHTS; [congruence|reflexivity]. }
  rewrite Hsum.
  change (py_mul (NpFloat64 total_usd) last_fx)
    with (NpFloat64 (fmul total_usd (raw last_fx))).
  rewrite py_truediv_np. cbn [bind Monad_result].
  change (py_sub (NpFloat64 (fdiv (fmul total_usd (raw last_fx)) (raw units)))
            previous_base_price)
    with (NpFloat64 diff).
  rewrite py_truediv_np. cbn [bind ret Monad_result]. reflexivity.
Qed.

(** X19.  On a non-empty table the projector raises no
    [ZeroDivisionError]: its total is a NumPy value, so both of its
    divisions are NumPy divisions, and a zero unit count or a zero
    previous base price gives the IEEE quotients (an infinity or NaN) of
    the same formulas. *)
Theorem nav_projector_never_divides_by_zero (WEIGHTS : dict F)
  (shares last_prices : dict scalar) (units last_fx previous_base_price : scalar)
  (sh pr : string -> F) :
  WEIGHTS <> [] ->
  (forall t, In t (TICKERS WEIGHTS) ->
     exists s, dict_get shares t = Some s /\ raw s = sh t) ->
  (forall t, In t (TICKERS WEIGHTS) ->
     dict_get last_prices t = Some (NpFloat64 (pr t))) ->
  let total_usd :=
    fold_left fadd (map (fun t => fmul (sh t) (pr t)) (TICKERS WEIGHTS)) (fdec 0 0) in
  let estimated_base_price := fdiv (fmul total_usd (raw last_fx)) (raw units) in
  let diff := fsub estimated_base_price (raw previous_base_price) in
  let pct := fmul (fdiv diff (raw previous_base_price)) (fdec 100 0) in
  nav_projector WEIGHTS shares units last_prices last_fx previous_base_price
    = Ok (NpFloat64 estimated_base_price, NpFloat64 diff, NpFloat64 pct).
Proof. exact (nav_projector_np WEIGHTS shares last_prices units last_fx previous_base_price sh pr). Qed.

End Estimator.

(** ** Not-a-number and signs in binary64 *)

Section Binary.

Lemma fold_fadd_nan (xs : list spec_float) :
  fold_left (SFadd prec64 emax64) xs S754_nan = S754_nan.
Proof. induction xs as [|x xs IH]; [reflexivity|exact IH]. Qed.

Lemma SFadd_nan_r (x : spec_float) : SFadd prec64 emax64 x S754_nan = S754_nan.
Proof. now destruct x. Qed.

Lemma SFmul_nan_r (x : spec_float) : SFmul prec64 emax64 x S754_nan = S754_nan.
Proof. now destruct x. Qed.

Lemma fold_fadd_nan_term (xs : list spec_float) :
  In S754_nan xs ->
  forall acc, fold_left (SFadd prec64 emax64) xs acc = S754_nan.
Proof.
  induction xs as [|x xs IH]; intros Hin acc; [destruct Hin|].
  cbn [fold_left]. destruct Hin as [->|Hin].
  - rewrite SFadd_nan_r. apply fold_fadd_nan.
  - now apply IH.
Qed.

(** X21.  In binary64 a single NaN poisons the projection: if the share
    count or the latest price of some holding is NaN, or the latest FX
    rate is, the estimate, the absolute change and the percentage change
    are all NaN, and nothing is raised. *)
Theorem nav_projector_nan (WEIGHTS : dict spec_float)
  (shares last_prices : dict scalar) (units last_fx previous_base_price : scalar)
  (sh pr : string -> spec_float) :
  WEIGHTS <> [] ->
  (forall t, In t (TICKERS WEIGHTS) ->
     exists s, dict_get shares t = Some s /\ raw s = sh t) ->
  (forall t, In t (TICKERS WEIGHTS) ->
     dict_get last_prices t = Some (NpFloat64 (pr t))) ->
  (exists t, In t (TICKERS WEIGHTS) /\ (sh t = S754_nan \/ pr t = S754_nan))
  \/ raw last_fx = S754_nan ->
  nav_projector WEIGHTS shares units last_prices last_fx previous_base_price
  = Ok (NpFloat64 S754_nan, NpFloat64 S754_nan, NpFloat64 S754_nan).
Proof.
  intros Hne Hs Hp Hnan.
  rewrite (nav_projector_np WEIGHTS shares last_prices units last_fx
             previous_base_price sh pr Hne Hs Hp).
  cbn [fadd fsub fmul fdiv Binary64].
  assert (Hjpy : SFmul prec64 emax64
                   (fold_left (SFadd prec64 emax64)
                      (map (fun t => SFmul prec64 emax64 (sh t) (pr t)) (TICKERS WEIGHTS))
                      (fdec 0 0)) (raw last_fx) = S754_nan).
  { destruct Hnan as [(t & Ht & Hbad)|Hfx].
    - rewrite fold_fadd_nan_term; [reflexivity|].
      apply in_map_iff. exists t. split; [|exact Ht].
      destruct Hbad as [-> | ->]; [reflexivity|apply SFmul_nan_r].
    - rewrite Hfx. apply SFmul_nan_r. }
  rewrite Hjpy. reflexivity.
Qed.

Lemma pos_finite_nonzero (x : spec_float) : pos_finite x = true -> is_zero x = false.
Proof.
  destruct x as [| | |s m e]; try discriminate. intros _. apply is_zero_finite_b64.
Qed.

(** X22.  In binary64, for positive finite net assets, base price, FX
    rate, weights and previous prices, [estimate_shares] returns, and the
    unit count and every share count are zero, positive or plus infinity:
    never negative and never NaN. *)
Theorem estimate_shares_nonneg (WEIGHTS : dict spec_float)
  (nav base fx : spec_float) (prices : dict scalar) (pr : string -> spec_float) :
  NoDup (keys WEIGHTS) ->
  pos_finite nav = true -> pos_finite base = true -> pos_finite fx = true ->
  (forall h w, In (h, w) WEIGHTS -> pos_finite w = true) ->
  (forall h, In h (keys WEIGHTS) ->
     dict_get prices h = Some (NpFloat64 (pr h)) /\ pos_finite (pr h) = true) ->
  exists shares units,
    estimate_shares WEIGHTS (PyFloat nav) (PyFloat base) prices (PyFloat fx)
      = Ok (shares, units)
    /\ nonneg (raw units) = true
    /\ forall h s, dict_get shares h = Some s -> nonneg (raw s) = true.
Proof.
  intros Hnd Hnav Hbase Hfx Hw Hpr.
  destruct (estimate_shares_ok WEIGHTS nav base fx prices Hnd)
    as [shares [Hrun [Hkeys Hval]]].
  { now apply pos_finite_nonzero. }
  { now apply pos_finite_nonzero. }
  { intros h Hh. destruct (Hpr h Hh) as [Hget _]. eexists; split; [exact Hget|].
    now left. }
  exists shares, (PyFloat (fdiv nav base)). split; [exact Hrun|]. split.
  - cbn [raw fdiv Binary64]. apply SFdiv_nonneg; [now apply pos_finite_nonneg|exact Hbase].
  - intros h s Hs.
    assert (Hh : In h (keys WEIGHTS)).
    { rewrite <- Hkeys. apply dict_get_Some_In in Hs.
      change h with (fst (h, s)). now apply in_map. }
    destruct (Hpr h Hh) as [Hget Hp].
    unfold keys in Hh. apply in_map_iff in Hh. destruct Hh as ([h' w] & Heq & Hin).
    cbn [fst] in Heq. subst h'.
    rewrite (Hval h w _ Hin Hget) in Hs. inversion Hs; subst s.
    cbn [is_np raw wrap fmul fdiv Binary64].
    apply SFdiv_nonneg; [|exact Hp].
    apply SFdiv_nonneg; [|exact Hfx].
    apply SFmul_pos_nonneg; [exact Hnav|now apply (Hw h w)].
Qed.

End Binary.

Section ZeroAssets.

Lemma fold_fadd_zeros (xs : list spec_float) :
  Forall (fun x => x = S754_zero false) xs ->
  fold_left (SFadd prec64 emax64) xs (S754_zero false) = S754_zero false.
Proof.
  induction 1 as [|x xs -> _ IH]; [reflexivity|]. cbn [fold_left]. exact IH.
Qed.

Lemma SFmul_zero_l (y : spec_float) :
  pos_finite y = true -> SFmul prec64 emax64 (S754_zero false) y = S754_zero false.
Proof. destruct y as [| | |[|] m e]; try discriminate. reflexivity. Qed.

Lemma SFdiv_zero_l (y : spec_float) :
  pos_finite y = true -> SFdiv prec64 emax64 (S754_zero false) y = S754_zero false.
Proof. destruct y as [| | |[|] m e]; try discriminate. reflexivity. Qed.

(** X23.  In binary64, previous net assets of zero raise nothing: every
    share count is zero, the unit count is zero, and the estimate is
    [0.0 / 0.0], NaN, as are the two changes. *)
Theorem zero_assets_give_nan (WEIGHTS : dict spec_float)
  (base fx1 fx2 : spec_float) (prices1 prices2 : dict scalar)
  (pr1 pr2 : string -> spec_float) :
  WEIGHTS <> [] ->
  NoDup (keys WEIGHTS) ->
  pos_finite base = true -> pos_finite fx1 = true -> pos_finite fx2 = true ->
  (forall h w, In (h, w) WEIGHTS -> pos_finite w = true) ->
  (forall h, In h (keys WEIGHTS) ->
     dict_get prices1 h = Some (NpFloat64 (pr1 h)) /\ pos_finite (pr1 h) = true
     /\ dict_get prices2 h = Some (NpFloat64 (pr2 h)) /\ pos_finite (pr2 h) = true) ->
  exists shares units,
    estimate_shares WEIGHTS (PyFloat (S754_zero false)) (PyFloat base) prices1
      (PyFloat fx1) = Ok (shares, units)
    /\ nav_projector WEIGHTS shares units prices2 (PyFloat fx2) (PyFloat base)
       = Ok (NpFloat64 S754_nan, NpFloat64 S754_nan, NpFloat64 S754_nan).
Proof.
  intros Hne Hnd Hbase Hfx1 Hfx2 Hw Hpr.
  destruct (estimate_shares_ok WEIGHTS (S754_zero false) base fx1 prices1 Hnd)
    as [shares [Hrun [Hkeys Hval]]].
  { now apply pos_finite_nonzero. }
  { now apply pos_finite_nonzero. }
  { intros h Hh. destruct (Hpr h Hh) as [Hget _]. eexists; split; [exact Hget|].
    now left. }
  exists shares, (PyFloat (fdiv (S754_zero false) base)). split; [exact Hrun|].
  set (sh := fun t => match dict_get shares t with
                      | Some s => raw s | None => S754_zero false end).
  assert (Hsh : forall t, In t (keys WEIGHTS) -> sh t = S754_zero false).
  { intros t Ht. destruct (Hpr t Ht) as (Hget & Hp & _).
    unfold keys in Ht. apply in_map_iff in Ht. destruct Ht as ([h w] & Heq & Hin).
    cbn [fst] in Heq. subst h. unfold sh. rewrite (Hval t w _ Hin Hget).
    cbn [is_np raw wrap fmul fdiv Binary64].
    rewrite (SFmul_zero_l w (Hw t w Hin)), (SFdiv_zero_l fx1 Hfx1).
    now apply SFdiv_zero_l. }
  rewrite (nav_projector_np WEIGHTS shares prices2 _ (PyFloat fx2) (PyFloat base)
             sh pr2 Hne).
  - cbn [raw fadd fsub fmul fdiv Binary64].
    change (fdec 0 0) with (S754_zero false).
    rewrite fold_fadd_zeros.
    + rewrite (SFmul_zero_l fx2 Hfx2), (SFdiv_zero_l base Hbase). reflexivity.
    + apply Forall_forall. intros x Hx. apply in_map_iff in Hx.
      destruct Hx as (t & <- & Ht). rewrite (Hsh t Ht).
      apply SFmul_zero_l. now apply (Hpr t Ht).
  - intros t Ht. unfold TICKERS in Ht. rewrite <- Hkeys in Ht.
    destruct (dict_get_of_key shares t Ht) as [s Hs]. exists s. split; [exact Hs|].
    unfold sh. now rewrite Hs.
  - intros t Ht. now apply Hpr.
Qed.

End ZeroAssets.

(** ** The computation of lines 78-104 *)

Section Window.

Context {F : Type} {AF : Arith F}.

Lemma mapM_result_map {A B C} (f : B -> result C) (g : A -> B) (l : list A) :
  mapM_result f (map g l) = mapM_result (fun a => f (g a)) l.
Proof.
  induction l as [|a l IH]; cbn [map mapM_result]; [reflexivity|]. now rewrite IH.
Qed.

Lemma mapM_result_ext {A B} (f g : A -> result B) (l : list A) :
  (forall a, f a = g a) -> mapM_result f l = mapM_result g l.
Proof.
  intros H. induction l as [|a l IH]; cbn [mapM_result]; [reflexivity|].
  now rewrite H, IH.
Qed.

Lemma iloc_back_older (old col : list F) (j : nat) :
  (j <= List.length col)%nat -> iloc_back (old ++ col) j = iloc_back col j.
Proof.
  intros Hj. unfold iloc_back. rewrite length_app.
  destruct (Nat.ltb_spec (List.length old + List.length col) j); [lia|].
  destruct (Nat.ltb_spec (List.length col) j); [lia|].
  rewrite nth_error_app2 by lia.
  replace (List.length old + List.length col - j - List.length old)%nat
    with (List.length col - j)%nat by lia.
  reflexivity.
Qed.

Lemma iloc_row_back_older (k : nat) (older : string -> list F) (df : @DataFrame F)
  (j : nat) :
  (forall c, List.length (older c) = k) ->
  (j <= df_len df)%nat ->
  iloc_row_back (with_older_rows k older df) j = iloc_row_back df j.
Proof.
  intros Hk Hj. unfold iloc_row_back, with_older_rows. cbn [df_len df_cols].
  destruct (Nat.ltb_spec (k + df_len df) j); [lia|].
  destruct (Nat.ltb_spec (df_len df) j); [lia|].
  rewrite mapM_result_map. apply mapM_result_ext. intros c. cbn [fst snd].
  rewrite nth_error_app2 by (rewrite Hk; lia). rewrite Hk.
  replace (k + df_len df - j - k)%nat with (df_len df - j)%nat by lia.
  reflexivity.
Qed.

(** X24.  The computation reads the last two rows only: with at least
    two rows of prices and of FX rates, older rows in front of them
    change nothing. *)
Theorem compute_report_last_two_rows (WEIGHTS : dict F) (pb pn : scalar)
  (prices : DataFrame) (fx old_fx : list F) (k : nat) (older : string -> list F) :
  (forall c, List.length (older c) = k) ->
  (2 <= df_len prices)%nat ->
  (2 <= List.length fx)%nat ->
  compute_report WEIGHTS pb pn (with_older_rows k older prices) (old_fx ++ fx)
  = compute_report WEIGHTS pb pn prices fx.
Proof.
  intros Hk Hrows Hfx. unfold compute_report.
  rewrite !(iloc_row_back_older k older prices) by (assumption || lia).
  rewrite !(iloc_back_older old_fx fx) by lia. reflexivity.
Qed.

End Window.

Section Taxonomy.

Context {F : Type} {AF : Arith F}.

Lemma py_truediv_raises (a b : @scalar F) (e : exn) :
  py_truediv a b = Raise e -> e = ZeroDivisionError.
Proof.
  destruct a as [x|x], b as [y|y]; cbn [py_truediv]; try discriminate.
  destruct (is_zero y); [now inversion 1|discriminate].
Qed.

Lemma getitem_raises {V} (d : dict V) (k : string) (e : exn) :
  getitem d k = Raise e -> e = KeyError k.
Proof. unfold getitem. destruct (dict_get d k); [discriminate|now inversion 1]. Qed.

Lemma iloc_back_raises (col : list F) (k : nat) (e : exn) :
  iloc_back col k = Raise e -> e = IndexError.
Proof.
  unfold iloc_back. destruct (List.length col <? k)%nat; [now inversion 1|].
  destruct (nth_error col (List.length col - k)); cbn; [discriminate|now inversion 1].
Qed.

Lemma estimate_shares_loop_errors (nav fx : scalar) (prices : dict (@scalar F)) :
  forall (items : dict F) (acc : dict scalar) (e : exn),
    estimate_shares_loop nav prices fx items acc = Raise e -> computation_error e.
Proof.
  induction items as [|[h w] items IH]; intros acc e; cbn [estimate_shares_loop];
    [discriminate|].
  destruct (py_truediv (py_mul nav (PyFloat w)) fx) as [usd|e1] eqn:E1.
  2:{ intros H; inversion H; subst. apply py_truediv_raises in E1. subst.
      right; now left. }
  cbn [bind Monad_result].
  destruct (getitem prices h) as [p|e2] eqn:E2.
  2:{ intros H; inversion H; subst. apply getitem_raises in E2. subst.
      right; right; eauto. }
  cbn [bind Monad_result].
  destruct (py_truediv usd p) as [s|e3] eqn:E3.
  2:{ intros H; inversion H; subst. apply py_truediv_raises in E3. subst.
      right; now left. }
  cbn [bind Monad_result]. apply IH.
Qed.

Lemma estimate_shares_errors (WEIGHTS : dict F) (nav base fx : scalar)
  (prices : dict scalar) (e : exn) :
  estimate_shares WEIGHTS nav base prices fx = Raise e -> computation_error e.
Proof.
  unfold estimate_shares.
  destruct (py_truediv nav base) as [u|e1] eqn:E1.
  2:{ intros H; inversion H; subst. apply py_truediv_raises in E1. subst.
      right; now left. }
  cbn [bind Monad_result].
  destruct (estimate_shares_loop nav prices fx WEIGHTS []) as [s|e2] eqn:E2;
    [discriminate|].
  intros H; inversion H; subst. now apply estimate_shares_loop_errors in E2.
Qed.

Lemma nav_projector_errors (WEIGHTS : dict F) (shares prices : dict scalar)
  (units fx base : scalar) (e : exn) :
  nav_projector WEIGHTS shares units prices fx base = Raise e -> computation_error e.
Proof.
  unfold nav_projector.
  destruct (nav_terms WEIGHTS shares prices) as [terms|e1] eqn:E1.
  2:{ intros H; inversion H; subst. unfold nav_terms in E1.
      apply (mapM_result_raises _ computation_error) in E1; [exact E1|].
      intros t e'. destruct (getitem shares t) as [s|e2] eqn:E2.
      - cbn [bind Monad_result]. destruct (getitem prices t) as [p|e3] eqn:E3;
          [discriminate|].
        intros H'; inversion H'; subst. apply getitem_raises in E3. subst.
        right; right; eauto.
      - intros H'; inversion H'; subst. apply getitem_raises in E2. subst.
        right; right; eauto. }
  cbn [bind Monad_result].
  destruct (py_truediv _ units) as [est|e2] eqn:E2.
  2:{ intros H; inversion H; subst. apply py_truediv_raises in E2. subst.
      right; now left. }
  cbn [bind Monad_result].
  destruct (py_truediv _ base) as [r|e3] eqn:E3; [discriminate|].
  intros H; inversion H; subst. apply py_truediv_raises in E3. subst.
  right; now left.
Qed.

Lemma format_report_errors (WEIGHTS : dict F) (pb est diff pct pfx lfx : scalar)
  (shares : dict scalar) (e : exn) :
  format_report WEIGHTS pb est diff pct pfx lfx shares = Raise e -> computation_error e.
Proof.
  unfold format_report, report_lines.
  destruct (mapM_result _ (TICKERS WEIGHTS)) as [lines|e1] eqn:E1; [discriminate|].
  intros H; inversion H; subst.
  apply (mapM_result_raises _ computation_error) in E1; [exact E1|].
  intros t e'. destruct (getitem shares t) as [s|e2] eqn:E2; [discriminate|].
  intros H'; inversion H'; subst. apply getitem_raises in E2. subst.
  right; right; eauto.
Qed.

(** X25.  The computation raises nothing but [IndexError],
    [ZeroDivisionError] and [KeyError]. *)
Theorem compute_report_errors (WEIGHTS : dict F) (pb pn : scalar)
  (prices : DataFrame) (fx : list F) (e : exn) :
  compute_report WEIGHTS pb pn prices fx = Raise e ->
  e = IndexError \/ e = ZeroDivisionError \/ exists k, e = KeyError k.
Proof.
  unfold compute_report.
  destruct (iloc_row_back prices 2) as [prev|e1] eqn:E1.
  2:{ intros H; inversion H; subst. left. now apply iloc_row_back_raises in E1. }
  cbn [bind Monad_result].
  destruct (iloc_row_back prices 1) as [last|e2] eqn:E2.
  2:{ intros H; inversion H; subst. left. now apply iloc_row_back_raises in E2. }
  cbn [bind Monad_result].
  destruct (iloc_back fx 2) as [pfx|e3] eqn:E3.
  2:{ intros H; inversion H; subst. left. now apply iloc_back_raises in E3. }
  cbn [bind Monad_result].
  destruct (iloc_back fx 1) as [lfx|e4] eqn:E4.
  2:{ intros H; inversion H; subst. left. now apply iloc_back_raises in E4. }
  cbn [bind Monad_result].
  destruct (estimate_shares WEIGHTS pn pb prev (py_float pfx)) as [[shares units]|e5] eqn:E5.
  2:{ intros H; inversion H; subst. now apply estimate_shares_errors in E5. }
  cbn [bind Monad_result].
  destruct (nav_projector WEIGHTS shares units last (py_float lfx) pb)
    as [[[est diff] pct]|e6] eqn:E6.
  2:{ intros H; inversion H; subst. now apply nav_projector_errors in E6. }
  cbn [bind Monad_result]. apply format_report_errors.
Qed.

End Taxonomy.

Section Success.

Context {F : Type} {AF : Arith F}.

(** A row of a well-formed frame: one NumPy value per column. *)
Lemma iloc_row_back_ok (df : @DataFrame F) (j : nat) :
  frame_wf df -> (1 <= j <= df_len df)%nat ->
  exists row,
    iloc_row_back df j = Ok row
    /\ keys row = keys (df_cols df)
    /\ forall t s, dict_get row t = Some s -> is_np s = true.
Proof.
  intros Hwf Hj. unfold iloc_row_back.
  destruct (Nat.ltb_spec (df_len df) j); [lia|].
  unfold frame_wf in Hwf. induction (df_cols df) as [|c cols IH].
  - exists []. repeat split. intros t s Hs. discriminate Hs.
  - inversion Hwf as [|? ? Hc Hcols]; subst.
    destruct (IH Hcols) as (row & Hrun & Hkeys & Hnp).
    destruct (nth_error (snd c) (df_len df - j)) as [x|] eqn:Ex.
    2:{ apply nth_error_None in Ex. lia. }
    exists ((fst c, NpFloat64 x) :: row). cbn [mapM_result]. rewrite Ex.
    cbn [of_option bind ret Monad_result] in Hrun |- *. rewrite Hrun.
    split; [reflexivity|]. split.
    + cbn [keys map fst]. unfold keys in Hkeys. now rewrite Hkeys.
    + intros t s. cbn [dict_get]. destruct (String.eqb t (fst c)).
      * intros Hs. inversion Hs; subst. reflexivity.
      * apply Hnp.
Qed.

Lemma iloc_back_ok (col : list F) (j : nat) :
  (1 <= j <= List.length col)%nat ->
  exists x, nth_error col (List.length col - j) = Some x
            /\ iloc_back col j = Ok (NpFloat64 x).
Proof.
  intros Hj. unfold iloc_back.
  destruct (Nat.ltb_spec (List.length col) j); [lia|].
  destruct (nth_error col (List.length col - j)) as [x|] eqn:Ex.
  - exists x. split; reflexivity.
  - apply nth_error_None in Ex. lia.
Qed.

Lemma np_row_lookup (row : dict (@scalar F)) (ts : list string) :
  keys row = ts ->
  (forall t s, dict_get row t = Some s -> is_np s = true) ->
  forall t, In t ts -> exists x, dict_get row t = Some (NpFloat64 x).
Proof.
  intros Hkeys Hnp t Ht. rewrite <- Hkeys in Ht.
  destruct (dict_get_of_key row t Ht) as [s Hs]. specialize (Hnp t s Hs).
  destruct s as [x|x]; [discriminate|]. now exists x.
Qed.

Lemma compute_report_ok (WEIGHTS : dict F) (base nav : F)
  (prices : DataFrame) (fx : list F) :
  WEIGHTS <> [] ->
  NoDup (keys WEIGHTS) ->
  frame_wf prices ->
  keys (df_cols prices) = keys WEIGHTS ->
  (2 <= df_len prices)%nat ->
  (2 <= List.length fx)%nat ->
  is_zero base = false ->
  (forall x, nth_error fx (List.length fx - 2) = Some x -> is_zero x = false) ->
  exists report,
    compute_report WEIGHTS (PyFloat base) (PyFloat nav) prices fx = Ok report.
Proof.
  intros Hne Hnd Hwf Hcols Hrows Hfx Hbase Hprev.
  unfold compute_report.
  destruct (iloc_row_back_ok prices 2 Hwf ltac:(lia)) as (prev & -> & Kprev & Nprev).
  destruct (iloc_row_back_ok prices 1 Hwf ltac:(lia)) as (last & -> & Klast & Nlast).
  destruct (iloc_back_ok fx 2 ltac:(lia)) as (x2 & Hx2 & ->).
  destruct (iloc_back_ok fx 1 ltac:(lia)) as (x1 & Hx1 & ->).
  cbn [bind Monad_result py_float raw].
  rewrite Hcols in Kprev, Klast.
  destruct (estimate_shares_ok WEIGHTS nav base x2 prev Hnd Hbase (Hprev x2 Hx2))
    as [shares [Hrun [Hkeys Hval]]].
  { intros h Hh. destruct (np_row_lookup prev _ Kprev Nprev h Hh) as [x Hx].
    exists (NpFloat64 x). split; [exact Hx|now left]. }
  change (py_float (NpFloat64 x2)) with (PyFloat x2).
  change (py_float (NpFloat64 x1)) with (PyFloat x1).
  rewrite Hrun.
  set (sh := fun t => match dict_get shares t with
                      | Some s => raw s | None => fdec 0 0 end).
  set (pr := fun t => match dict_get last t with
                      | Some s => raw s | None => fdec 0 0 end).
  assert (Hshares : forall t, In t (TICKERS WEIGHTS) ->
            exists s, dict_get shares t = Some s /\ raw s = sh t).
  { intros t Ht. unfold TICKERS in Ht. rewrite <- Hkeys in Ht.
    destruct (dict_get_of_key shares t Ht) as [s Hs]. exists s. split; [exact Hs|].
    unfold sh. now rewrite Hs. }
  rewrite (nav_projector_np WEIGHTS shares last _ (PyFloat x1) (PyFloat base) sh pr Hne
             Hshares).
  2:{ intros t Ht. destruct (np_row_lookup last _ Klast Nlast t Ht) as [x Hx].
      unfold pr. now rewrite Hx. }
  cbn [bind Monad_result]. unfold format_report, report_lines.
  rewrite (mapM_result_total _
             (fun t => t +++ ": " +++
                format_float true 1
                  (match dict_get shares t with
                   | Some s => s | None => PyFloat (fdec 0 0) end) +++ "株")).
  - cbn [bind ret Monad_result]. eexists. reflexivity.
  - intros t Ht. destruct (Hshares t Ht) as (s & Hs & _).
    unfold getitem. rewrite Hs. reflexivity.
Qed.

(** X26.  The computation returns a report whenever the table is not
    empty, the price frame is well formed with exactly the held tickers
    as columns, there are at least two rows of prices and of FX rates,
    and the previous base price and the previous FX rate are not zero. *)
Theorem compute_report_succeeds (WEIGHTS : dict F) (base nav : F)
  (prices : DataFrame) (fx : list F) :
  WEIGHTS <> [] ->
  NoDup (keys WEIGHTS) ->
  frame_wf prices ->
  keys (df_cols prices) = keys WEIGHTS ->
  (2 <= df_len prices)%nat ->
  (2 <= List.length fx)%nat ->
  is_zero base = false ->
  (forall x, nth_error fx (List.length fx - 2) = Some x -> is_zero x = false) ->
  exists report,
    compute_report WEIGHTS (PyFloat base) (PyFloat nav) prices fx = Ok report.
Proof. exact (compute_report_ok WEIGHTS base nav prices fx). Qed.

End Success.

(** ** The whole run *)

Section Pipeline.

Context {F : Type} {AF : Arith F}.

Lemma frame_wf_column (df : @DataFrame F) (l : string) (col : list F) :
  frame_wf df -> dict_get (df_cols df) l = Some col -> List.length col = df_len df.
Proof.
  intros Hwf Hget. apply dict_get_Some_In in Hget.
  unfold frame_wf in Hwf. rewrite Forall_forall in Hwf. exact (Hwf (l, col) Hget).
Qed.

Lemma get_prices_and_fx_ok (WEIGHTS : dict F) (w : @World F)
  (close : DataFrame) (rates : list F) :
  download_close w (keys WEIGHTS ++ ["USDJPY=X"%string]) (now w - 7 * 86400) (now w)
    = Ok close ->
  frame_wf close ->
  (forall t, In t (keys WEIGHTS) -> dict_get (df_cols close) t <> None) ->
  dict_get (df_cols close) "USDJPY=X" = Some rates ->
  exists prices,
    get_prices_and_fx WEIGHTS w
    = (Ok (prices, ffill rates),
       [EvDownload (keys WEIGHTS ++ ["USDJPY=X"%string]) (now w - 7 * 86400) (now w)])
    /\ frame_wf prices
    /\ keys (df_cols prices) = keys WEIGHTS
    /\ df_len prices = df_len close.
Proof.
  intros Hd Hwf Hall Hfx.
  unfold get_prices_and_fx, ask, emit, call, lift, TICKERS. cbn [bind ret Monad_M app].
  rewrite Hd, (select_columns_ok close _ Hall). unfold getitem. rewrite Hfx.
  cbn [of_option app]. eexists. split; [reflexivity|].
  unfold ffill_frame, frame_wf. cbn [df_len df_cols]. rewrite map_map. cbn [fst snd].
  split; [|split; [|reflexivity]].
  - apply Forall_forall. intros c Hc. apply in_map_iff in Hc.
    destruct Hc as (l & <- & Hl). cbn [snd].
    unfold ffill. rewrite ffill_from_length.
    unfold column. specialize (Hall l Hl).
    destruct (dict_get (df_cols close) l) as [col|] eqn:El; [|congruence].
    now apply (frame_wf_column close l).
  - unfold keys. rewrite map_map. cbn [fst]. apply map_id.
Qed.

(** X27.  [calculate_today_nav] returns a report, after one request to
    the reference feed and one download, whenever the last reference row
    holds a numeric, non-zero base price and numeric net assets, the
    download is a well-formed frame of at least two rows with a column
    for every held ticker and for [USDJPY=X], and the forward-filled FX
    rate of the day before the last is not zero. *)
Theorem calculate_today_nav_succeeds (WEIGHTS : dict F) (w : @World F)
  (rows : list (dict cell)) (row : dict cell) (base nav : F)
  (close : DataFrame) (rates : list F) :
  WEIGHTS <> [] ->
  NoDup (keys WEIGHTS) ->
  get_csv w (reference_url "3346") = Ok (rows ++ [row]) ->
  dict_get row "基準価額" = Some (CellNum base) ->
  dict_get row "純資産総額" = Some (CellNum nav) ->
  is_zero base = false ->
  download_close w (keys WEIGHTS ++ ["USDJPY=X"%string]) (now w - 7 * 86400) (now w)
    = Ok close ->
  frame_wf close ->
  (2 <= df_len close)%nat ->
  (forall t, In t (keys WEIGHTS) -> dict_get (df_cols close) t <> None) ->
  dict_get (df_cols close) "USDJPY=X" = Some rates ->
  (forall x, nth_error (ffill rates) (df_len close - 2) = Some x -> is_zero x = false) ->
  exists report,
    calculate_today_nav WEIGHTS w
    = (Ok report,
       [EvGet (reference_url "3346");
        EvDownload (keys WEIGHTS ++ ["USDJPY=X"%string]) (now w - 7 * 86400) (now w)]).
Proof.
  intros Hne Hnd Hcsv Hbp Hnav Hbase Hd Hwf Hrows Hall Hfx Hprev.
  pose proof (fetch_daiwa_csv_last_row_run w "3346" rows row Hcsv) as Hrow.
  destruct (get_prices_and_fx_ok WEIGHTS w close rates Hd Hwf Hall Hfx)
    as (prices & Hget & Hpwf & Hkeys & Hlen).
  pose proof (frame_wf_column close _ rates Hwf Hfx) as Hrates.
  assert (Hfl : List.length (ffill rates) = List.length rates)
    by apply ffill_from_length.
  destruct (compute_report_ok WEIGHTS base nav prices (ffill rates) Hne Hnd Hpwf
              Hkeys ltac:(lia) ltac:(lia) Hbase) as [report Hreport].
  { rewrite Hfl, Hrates. exact Hprev. }
  exists report.
  unfold calculate_today_nav, read_inputs. cbn [bind Monad_M]. rewrite Hrow.
  unfold lift, getitem. rewrite Hbp, Hnav.
  cbn [of_option float_of_cell ret Monad_M]. rewrite Hget.
  cbn [fst snd app]. rewrite Hreport. reflexivity.
Qed.

End Pipeline.

(** ** Accuracy of the binary64 estimate *)

Section Accuracy.

Local Open Scope Q_scope.

Lemma Qsum_scale {A} (c : Q) (f : A -> Q) (l : list A) :
  Qsum (map (fun a => c * f a) l) == c * Qsum (map f l).
Proof.
  induction l as [|a l IH]; cbn [map Qsum fold_right].
  - ring.
  - fold (Qsum (map (fun a => c * f a) l)). fold (Qsum (map f l)). rewrite IH. ring.
Qed.

Lemma fold_fadd_approx_terms (g : string -> spec_float)
  (val : string -> spec_float -> Q) (lo hi : Z) :
  (-1074 < lo)%Z ->
  forall (l : dict spec_float) (acc : spec_float) (K : nat) (H : Z) (v : Q),
    (forall h w, In (h, w) l -> approx 4 lo hi (val h w) (g h)) ->
    approx K lo H v acc -> (4 <= K)%nat -> (hi <= H)%Z ->
    (H + 2 * Z.of_nat (List.length l) <= 971)%Z ->
    approx (K + List.length l) lo (H + 2 * Z.of_nat (List.length l))
      (v + Qsum (map (fun hw => val (fst hw) (snd hw)) l))
      (fold_left (SFadd prec64 emax64) (map g (keys l)) acc).
Proof.
  intros Hlo. induction l as [|[h w] l IH]; intros acc K H v Hg Hacc HK HH Hlen.
  - cbn [List.length map keys fold_left Qsum fold_right Z.of_nat].
    apply (approx_weaken K _ lo _ H _ v); [exact Hacc|lia|lia|lia|ring].
  - cbn [List.length map keys fold_left fst] in *.
    pose proof (approx_add K 4 lo H lo hi v (val h w) acc (g h) Hacc
                  (Hg h w (or_introl eq_refl)) Hlo Hlo ltac:(lia)) as Hstep.
    apply (approx_weaken _ (S K) _ lo _ (H + 2) _ (v + val h w)) in Hstep;
      [|lia|lia|lia|reflexivity].
    pose proof (IH _ (S K) (H + 2)%Z _ (fun h' w' Hin => Hg h' w' (or_intror Hin))
                  Hstep ltac:(lia) ltac:(lia) ltac:(lia)) as Hrest.
    apply (approx_weaken _ _ _ _ _ _ _ _ _ Hrest); [lia|lia|lia|].
    cbn [Qsum fold_right map fst snd].
    fold (Qsum (map (fun hw => val (fst hw) (snd hw)) l)). ring.
Qed.

Lemma py_sum_approx_terms (g : string -> spec_float)
  (val : string -> spec_float -> Q) (lo hi : Z) (l : dict spec_float) :
  (-1074 < lo)%Z -> l <> [] ->
  (forall h w, In (h, w) l -> approx 4 lo hi (val h w) (g h)) ->
  (hi + 2 * Z.of_nat (List.length l) <= 973)%Z ->
  approx (3 + List.length l) lo (hi + 2 * Z.of_nat (List.length l))
    (Qsum (map (fun hw => val (fst hw) (snd hw)) l))
    (fold_left (SFadd prec64 emax64) (map g (keys l)) (S754_zero false)).
Proof.
  intros Hlo Hne Hg Hlen. destruct l as [|[h w] l]; [congruence|].
  cbn [List.length map keys fold_left fst] in *.
  pose proof (Hg h w (or_introl eq_refl)) as Hfirst.
  assert (Hstart : SFadd prec64 emax64 (S754_zero false) (g h) = g h).
  { destruct Hfirst as (m & e & -> & _). reflexivity. }
  rewrite Hstart.
  pose proof (fold_fadd_approx_terms g val lo hi Hlo l (g h) 4 hi (val h w)
                (fun h' w' Hin => Hg h' w' (or_intror Hin)) Hfirst
                ltac:(lia) ltac:(lia) ltac:(lia)) as Hrest.
  apply (approx_weaken _ _ _ _ _ _ _ _ _ Hrest); [lia|lia|lia|].
  cbn [Qsum fold_right map fst snd].
  fold (Qsum (map (fun hw => val (fst hw) (snd hw)) l)). ring.
Qed.

Lemma revalued_term_approx (nav fx w p1 p2 : spec_float) :
  moderate nav = true -> moderate fx = true -> moderate w = true ->
  moderate p1 = true -> moderate p2 = true ->
  approx 4 (-554) 454 (B2Q nav / B2Q fx * (B2Q w * (B2Q p2 / B2Q p1)))
    (SFmul prec64 emax64
       (SFdiv prec64 emax64 (SFdiv prec64 emax64 (SFmul prec64 emax64 nav w) fx) p1) p2).
Proof.
  intros Hn Hf Hw Hp1 Hp2.
  apply approx_exact in Hn, Hf, Hw, Hp1, Hp2.
  destruct (approx_pos _ _ _ _ _ Hf) as [Pf _].
  destruct (approx_pos _ _ _ _ _ Hp1) as [Pp _].
  pose proof (approx_mul _ _ _ _ _ _ _ _ _ _ Hn Hw
                ltac:(lia) ltac:(lia) ltac:(lia) ltac:(lia)) as H1.
  pose proof (approx_div _ _ _ _ _ _ _ _ _ _ H1 Hf
                ltac:(lia) ltac:(lia) ltac:(lia) ltac:(lia)) as H2.
  pose proof (approx_div _ _ _ _ _ _ _ _ _ _ H2 Hp1
                ltac:(lia) ltac:(lia) ltac:(lia) ltac:(lia)) as H3.
  pose proof (approx_mul _ _ _ _ _ _ _ _ _ _ H3 Hp2
                ltac:(lia) ltac:(lia) ltac:(lia) ltac:(lia)) as H4.
  apply (approx_weaken _ _ _ _ _ _ _ _ _ H4); [lia|lia|lia|].
  field. split; now apply Qpos_nonzero.
Qed.

(** X28.  In binary64, for a non-empty table of at most 100 distinctly
    named holdings and for net assets, a base price, FX rates, weights
    and prices that are positive normal numbers between [2^-100] and
    [2^101], the estimate is a positive finite number equal to the closed
    form (base price times FX ratio times weighted sum of price ratios,
    read on the exact values of the floats) up to [n + 6] roundings,
    [n] the number of holdings. *)
Theorem estimate_close_to_closed_form (WEIGHTS : dict spec_float)
  (nav base fx1 fx2 : spec_float) (prices1 prices2 : dict scalar)
  (pr1 pr2 : string -> spec_float) :
  WEIGHTS <> [] ->
  NoDup (keys WEIGHTS) ->
  (List.length WEIGHTS <= 100)%nat ->
  moderate nav = true -> moderate base = true ->
  moderate fx1 = true -> moderate fx2 = true ->
  (forall h w, In (h, w) WEIGHTS -> moderate w = true) ->
  (forall h, In h (keys WEIGHTS) ->
     dict_get prices1 h = Some (NpFloat64 (pr1 h)) /\ moderate (pr1 h) = true
     /\ dict_get prices2 h = Some (NpFloat64 (pr2 h)) /\ moderate (pr2 h) = true) ->
  exists shares units est diff pct m e,
    estimate_shares WEIGHTS (PyFloat nav) (PyFloat base) prices1 (PyFloat fx1)
      = Ok (shares, units)
    /\ nav_projector WEIGHTS shares units prices2 (PyFloat fx2) (PyFloat base)
       = Ok (est, diff, pct)
    /\ raw est = S754_finite false m e
    /\ near (List.length WEIGHTS + 6)
         (B2Q base * (B2Q fx2 / B2Q fx1)
          * Qsum (map (fun hw => B2Q (snd hw)
                                 * (B2Q (pr2 (fst hw)) / B2Q (pr1 (fst hw)))) WEIGHTS))
         (B2Q (raw est)).
Proof.
  intros Hne Hnd Hlen Hnav Hbase Hfx1 Hfx2 Hw Hpr.
  destruct (moderate_inv base Hbase) as (mb & eb & Eb & _).
  destruct (moderate_inv fx1 Hfx1) as (mf & ef & Ef & _).
  destruct (estimate_shares_ok WEIGHTS nav base fx1 prices1 Hnd)
    as [shares [Hrun [Hkeys Hval]]].
  { rewrite Eb. apply is_zero_finite_b64. }
  { rewrite Ef. apply is_zero_finite_b64. }
  { intros h Hh. destruct (Hpr h Hh) as [Hget _]. eexists; split; [exact Hget|].
    now left. }
  pose proof (approx_div _ _ _ _ _ _ _ _ _ _ (approx_exact nav Hnav) (approx_exact base Hbase)
                ltac:(lia) ltac:(lia) ltac:(lia) ltac:(lia)) as Hunits.
  set (sh := fun t => match dict_get shares t with
                      | Some s => raw s | None => S754_zero false end).
  pose proof (nav_projector_np WEIGHTS shares prices2 (PyFloat (fdiv nav base))
                (PyFloat fx2) (PyFloat base) sh pr2 Hne) as Hproj.
  cbv zeta in Hproj.
  assert (Hterm : forall h w, In (h, w) WEIGHTS ->
            approx 4 (-554) 454
              (B2Q nav / B2Q fx1 * (B2Q w * (B2Q (pr2 h) / B2Q (pr1 h))))
              (fmul (sh h) (pr2 h))).
  { intros h w Hin.
    assert (Hh : In h (keys WEIGHTS)) by (change h with (fst (h, w)); now apply in_map).
    destruct (Hpr h Hh) as (Hget & Hp1 & _ & Hp2).
    unfold sh. rewrite (Hval h w _ Hin Hget). cbn [is_np raw wrap fmul fdiv Binary64].
    apply revalued_term_approx; eauto. }
  pose proof (py_sum_approx_terms (fun t => fmul (sh t) (pr2 t))
                (fun h w => B2Q nav / B2Q fx1 * (B2Q w * (B2Q (pr2 h) / B2Q (pr1 h))))
                (-554) 454 WEIGHTS ltac:(lia) Hne Hterm ltac:(lia)) as Hsum.
  pose proof (approx_mul _ _ _ _ _ _ _ _ _ _ Hsum (approx_exact fx2 Hfx2)
                ltac:(lia) ltac:(lia) ltac:(lia) ltac:(lia)) as Hjpy.
  pose proof (approx_div _ _ _ _ _ _ _ _ _ _ Hjpy Hunits
                ltac:(lia) ltac:(lia) ltac:(lia) ltac:(lia)) as Hest.
  destruct (approx_pos _ _ _ _ _ (approx_exact nav Hnav)) as [Pn _].
  destruct (approx_pos _ _ _ _ _ (approx_exact fx1 Hfx1)) as [Pf _].
  destruct (approx_pos _ _ _ _ _ (approx_exact base Hbase)) as [Pb _].
  apply (approx_weaken _ (List.length WEIGHTS + 6) _ (-1074) _ 971 _
           (B2Q base * (B2Q fx2 / B2Q fx1)
            * Qsum (map (fun hw => B2Q (snd hw)
                                   * (B2Q (pr2 (fst hw)) / B2Q (pr1 (fst hw)))) WEIGHTS)))
    in Hest; [|lia|lia|lia|].
  - destruct Hest as (m & e & Heq & _ & _ & Hnear).
    do 5 eexists. exists m, e. split; [exact Hrun|]. split.
    + apply Hproj.
      * intros t Ht. unfold TICKERS in Ht. rewrite <- Hkeys in Ht.
        destruct (dict_get_of_key shares t Ht) as [s Hs]. exists s. split; [exact Hs|].
        unfold sh. now rewrite Hs.
      * intros t Ht. now apply Hpr.
    + split; [exact Heq|exact Hnear].
  - rewrite (Qsum_scale (B2Q nav / B2Q fx1)
               (fun hw => B2Q (snd hw) * (B2Q (pr2 (fst hw)) / B2Q (pr1 (fst hw))))).
    field. repeat split; now apply Qpos_nonzero.
Qed.

End Accuracy.

(** ** What the implied holdings are worth *)

Section ImpliedValue.

Local Open Scope Q_scope.

(** X29.  In binary64, for a non-empty table of at most 100 distinctly
    named holdings and for net assets, a base price, an FX rate, weights
    and prices that are positive normal numbers between [2^-100] and
    [2^101]: the share counts [estimate_shares] returns, revalued as
    lines 86-87 do at the prices and the FX rate they were estimated
    from, are worth the previous net assets times the sum of the weights
    up to [n + 4] roundings, [n] the number of holdings. *)
Theorem implied_holdings_value (WEIGHTS : dict spec_float)
  (nav base fx : spec_float) (prices : dict scalar) (pr : string -> spec_float) :
  WEIGHTS <> [] ->
  NoDup (keys WEIGHTS) ->
  (List.length WEIGHTS <= 100)%nat ->
  moderate nav = true -> moderate base = true -> moderate fx = true ->
  (forall h w, In (h, w) WEIGHTS -> moderate w = true) ->
  (forall h, In h (keys WEIGHTS) ->
     dict_get prices h = Some (NpFloat64 (pr h)) /\ moderate (pr h) = true) ->
  exists shares units terms m e,
    estimate_shares WEIGHTS (PyFloat nav) (PyFloat base) prices (PyFloat fx)
      = Ok (shares, units)
    /\ nav_terms WEIGHTS shares prices = Ok terms
    /\ raw (py_mul (py_sum (map snd terms)) (PyFloat fx)) = S754_finite false m e
    /\ near (List.length WEIGHTS + 4)
         (B2Q nav * Qsum (map (fun hw => B2Q (snd hw)) WEIGHTS))
         (B2Q (raw (py_mul (py_sum (map snd terms)) (PyFloat fx)))).
Proof.
  intros Hne Hnd Hlen Hnav Hbase Hfx Hw Hpr.
  destruct (moderate_inv base Hbase) as (mb & eb & Eb & _).
  destruct (moderate_inv fx Hfx) as (mf & ef & Ef & _).
  destruct (estimate_shares_ok WEIGHTS nav base fx prices Hnd)
    as [shares [Hrun [Hkeys Hval]]].
  { rewrite Eb. apply is_zero_finite_b64. }
  { rewrite Ef. apply is_zero_finite_b64. }
  { intros h Hh. destruct (Hpr h Hh) as [Hget _]. eexists; split; [exact Hget|].
    now left. }
  set (sh := fun t => match dict_get shares t with
                      | Some s => raw s | None => S754_zero false end).
  destruct (mapM_terms_ok shares prices sh pr (TICKERS WEIGHTS))
    as [terms [Hterms [_ [Hv _]]]].
  { intros t Ht. unfold TICKERS in Ht. rewrite <- Hkeys in Ht.
    destruct (dict_get_of_key shares t Ht) as [s Hs]. exists s. split; [exact Hs|].
    unfold sh. now rewrite Hs. }
  { intros t Ht. now apply Hpr. }
  assert (Hterm : forall h w, In (h, w) WEIGHTS ->
            approx 4 (-554) 454 (B2Q nav / B2Q fx * B2Q w) (fmul (sh h) (pr h))).
  { intros h w Hin.
    assert (Hh : In h (keys WEIGHTS)) by (change h with (fst (h, w)); now apply in_map).
    destruct (Hpr h Hh) as [Hget Hp].
    unfold sh. rewrite (Hval h w _ Hin Hget). cbn [is_np raw wrap fmul fdiv Binary64].
    apply implied_term_approx; eauto. }
  pose proof (py_sum_approx (fun t => fmul (sh t) (pr t)) (B2Q nav / B2Q fx)
                (-554) 454 WEIGHTS ltac:(lia) Hne Hterm ltac:(lia)) as Hsum.
  pose proof (approx_mul _ _ _ _ _ _ _ _ _ _ Hsum (approx_exact fx Hfx)
                ltac:(lia) ltac:(lia) ltac:(lia) ltac:(lia)) as Hjpy.
  destruct (approx_pos _ _ _ _ _ (approx_exact fx Hfx)) as [Pf _].
  apply (approx_weaken _ (List.length WEIGHTS + 4) _ (-1074) _ 971 _
           (B2Q nav * Qsum (map (fun hw => B2Q (snd hw)) WEIGHTS))) in Hjpy;
    [|lia|lia|lia|].
  2:{ field. now apply Qpos_nonzero. }
  assert (Hraw : raw (py_mul (py_sum (map snd terms)) (PyFloat fx))
                 = SFmul prec64 emax64
                     (fold_left (SFadd prec64 emax64)
                        (map (fun t => fmul (sh t) (pr t)) (keys WEIGHTS))
                        (S754_zero false)) fx).
  { unfold py_mul, py_sum. rewrite raw_wrap, raw_fold_py_add, Hv. reflexivity. }
  destruct Hjpy as (m & e & Heq & _ & _ & Hnear).
  exists shares, (PyFloat (fdiv nav base)), terms, m, e.
  split; [exact Hrun|]. split; [exact Hterms|]. rewrite Hraw.
  split; [exact Heq|exact Hnear].
Qed.

End ImpliedValue.

(** * A feed with fewer than two aligned observations *)

Section ThinFeed.

Context {F : Type} {AF : Arith F}.

(** The values of a row are those of the columns. *)
Lemma iloc_row_back_value (df : @DataFrame F) (j : nat) (row : dict scalar)
  (t : string) (col : list F) :
  iloc_row_back df j = Ok row ->
  dict_get (df_cols df) t = Some col ->
  exists x, nth_error col (df_len df - j) = Some x
            /\ dict_get row t = Some (NpFloat64 x).
Proof.
  unfold iloc_row_back. destruct (df_len df <? j)%nat; [discriminate|].
  generalize (df_len df - j)%nat. intros i. revert row.
  induction (df_cols df) as [|[l c] cols IH]; intros row Hrun Hget; [discriminate|].
  cbn [mapM_result fst snd] in Hrun.
  destruct (nth_error c i) as [x|] eqn:Ex; [|discriminate].
  cbn [of_option bind ret Monad_result] in Hrun.
  destruct (mapM_result _ cols) as [rest|e] eqn:Erest; [|discriminate].
  inversion Hrun; subst row. cbn [dict_get] in Hget |- *.
  destruct (String.eqb t l).
  - inversion Hget; subst. now exists x.
  - now apply IH.
Qed.

Lemma compute_report_formula (WEIGHTS : dict F) (base nav : F)
  (prices : DataFrame) (fx : list F) :
  WEIGHTS <> [] ->
  NoDup (keys WEIGHTS) ->
  frame_wf prices ->
  keys (df_cols prices) = keys WEIGHTS ->
  (2 <= df_len prices)%nat ->
  (2 <= List.length fx)%nat ->
  is_zero base = false ->
  (forall x, nth_error fx (List.length fx - 2) = Some x -> is_zero x = false) ->
  exists prev last x2 x1 shares report,
    iloc_row_back prices 2 = Ok prev
    /\ iloc_row_back prices 1 = Ok last
    /\ nth_error fx (List.length fx - 2) = Some x2
    /\ nth_error fx (List.length fx - 1) = Some x1
    /\ (forall h, In h (keys WEIGHTS) ->
          exists w p q, In (h, w) WEIGHTS
            /\ dict_get prev h = Some (NpFloat64 p)
            /\ dict_get last h = Some (NpFloat64 q)
            /\ dict_get shares h = Some (NpFloat64 (fdiv (fdiv (fmul nav w) x2) p)))
    /\ let sh := fun t => match dict_get shares t with
                          | Some s => raw s | None => fdec 0 0 end in
       let pr := fun t => match dict_get last t with
                          | Some s => raw s | None => fdec 0 0 end in
       let total :=
         fold_left fadd (map (fun t => fmul (sh t) (pr t)) (keys WEIGHTS)) (fdec 0 0) in
       let est := fdiv (fmul total x1) (fdiv nav base) in
       let diff := fsub est base in
       let pct := fmul (fdiv diff base) (fdec 100 0) in
       compute_report WEIGHTS (PyFloat base) (PyFloat nav) prices fx = Ok report
       /\ format_report WEIGHTS (PyFloat base) (NpFloat64 est) (NpFloat64 diff)
            (NpFloat64 pct) (PyFloat x2) (PyFloat x1) shares = Ok report.
Proof.
  intros Hne Hnd Hwf Hcols Hrows Hfx Hbase Hprev.
  destruct (iloc_row_back_ok prices 2 Hwf ltac:(lia)) as (prev & Eprev & Kprev & Nprev).
  destruct (iloc_row_back_ok prices 1 Hwf ltac:(lia)) as (last & Elast & Klast & Nlast).
  destruct (iloc_back_ok fx 2 ltac:(lia)) as (x2 & Hx2 & E2).
  destruct (iloc_back_ok fx 1 ltac:(lia)) as (x1 & Hx1 & E1).
  rewrite Hcols in Kprev, Klast.
  destruct (estimate_shares_ok WEIGHTS nav base x2 prev Hnd Hbase (Hprev x2 Hx2))
    as [shares [Hrun [Hkeys Hval]]].
  { intros h Hh. destruct (np_row_lookup prev _ Kprev Nprev h Hh) as [x Hx].
    exists (NpFloat64 x). split; [exact Hx|now left]. }
  set (sh := fun t => match dict_get shares t with
                      | Some s => raw s | None => fdec 0 0 end).
  set (pr := fun t => match dict_get last t with
                      | Some s => raw s | None => fdec 0 0 end).
  assert (Hshares : forall t, In t (TICKERS WEIGHTS) ->
            exists s, dict_get shares t = Some s /\ raw s = sh t).
  { intros t Ht. unfold TICKERS in Ht. rewrite <- Hkeys in Ht.
    destruct (dict_get_of_key shares t Ht) as [s Hs]. exists s. split; [exact Hs|].
    unfold sh. now rewrite Hs. }
  pose proof (nav_projector_np WEIGHTS shares last (PyFloat (fdiv nav base)) (PyFloat x1)
                (PyFloat base) sh pr Hne Hshares) as Hproj.
  cbv zeta in Hproj.
  assert (Hlines : mapM_result
            (fun t => s <- getitem shares t ;;
                      ret (t +++ ": " +++ format_float true 1 s +++ "株"))
            (TICKERS WEIGHTS)
          = Ok (map (fun t => t +++ ": " +++
                       format_float true 1
                         (match dict_get shares t with
                          | Some s => s | None => PyFloat (fdec 0 0) end) +++ "株")
                  (TICKERS WEIGHTS))).
  { apply mapM_result_total. intros t Ht. destruct (Hshares t Ht) as (s & Hs & _).
    unfold getitem. rewrite Hs. reflexivity. }
  exists prev, last, x2, x1, shares. eexists.
  split; [exact Eprev|]. split; [exact Elast|]. split; [exact Hx2|]. split; [exact Hx1|].
  split.
  - intros h Hh.
    destruct (np_row_lookup prev _ Kprev Nprev h Hh) as [p Hp].
    destruct (np_row_lookup last _ Klast Nlast h Hh) as [q Hq].
    destruct (dict_get_of_key WEIGHTS h Hh) as [w Hw].
    apply dict_get_Some_In in Hw.
    exists w, p, q. split; [exact Hw|]. split; [exact Hp|]. split; [exact Hq|].
    now rewrite (Hval h w _ Hw Hp).
  - cbv zeta. fold sh pr. unfold compute_report.
    rewrite Eprev, Elast, E2, E1. cbn [bind Monad_result].
    change (py_float (NpFloat64 x2)) with (PyFloat x2).
    change (py_float (NpFloat64 x1)) with (PyFloat x1).
    rewrite Hrun. cbn [bind Monad_result].
    rewrite Hproj.
    2:{ intros t Ht. destruct (np_row_lookup last _ Klast Nlast t Ht) as [x Hx].
        unfold pr. now rewrite Hx. }
    cbn [bind Monad_result raw].
    unfold format_report, report_lines. rewrite Hlines.
    cbn [bind ret Monad_result]. split; reflexivity.
Qed.

End ThinFeed.

Section ThinFeedBinary.

Lemma is_nan_b64 (x : spec_float) : is_nan x = true -> x = S754_nan.
Proof.
  unfold is_nan. cbn [fview Binary64].
  destruct x as [s|s| |s m e]; cbn [view_b64]; try discriminate; [reflexivity|].
  destruct e; discriminate.
Qed.

Lemma SFdiv_nan_r (x : spec_float) : SFdiv prec64 emax64 x S754_nan = S754_nan.
Proof. now destruct x. Qed.

(** C7, as amended.  When fewer than two aligned observations are left
    after forward filling, the run raises no error of a class of its own
    (the script defines none).  If the price table or the FX series has
    fewer than two rows, [calculate_today_nav] fails with the [IndexError]
    of positional indexing.  If both have at least two rows but one of the
    last two observations is missing (a held ticker or the FX series has
    NaN there), then, for a well-formed table of the held tickers and a
    non-zero base price and previous FX rate, nothing is raised: the
    report is rendered with NaN for the estimated base price, the change
    and the percentage. *)
Theorem fewer_than_two_observations (WEIGHTS : dict spec_float) (w : World)
  (pb pn : scalar) (prices : DataFrame) (fx : list spec_float) (t : list event) :
  read_inputs WEIGHTS w = (Ok (pb, pn, prices, fx), t) ->
  ((df_len prices < 2 \/ List.length fx < 2)%nat ->
   calculate_today_nav WEIGHTS w = (Raise IndexError, t)
   /\ exc_name IndexError <> "InsufficientDataError"%string)
  /\ (forall base nav : spec_float,
        pb = PyFloat base -> pn = PyFloat nav ->
        WEIGHTS <> [] -> NoDup (keys WEIGHTS) ->
        frame_wf prices -> keys (df_cols prices) = keys WEIGHTS ->
        is_zero base = false ->
        (forall x, nth_error fx (List.length fx - 2) = Some x -> is_zero x = false) ->
        (2 <= df_len prices)%nat -> (2 <= List.length fx)%nat ->
        observation_missing prices fx 2 \/ observation_missing prices fx 1 ->
        exists report shares pfx lfx,
          calculate_today_nav WEIGHTS w = (Ok report, t)
          /\ format_report WEIGHTS pb (NpFloat64 S754_nan) (NpFloat64 S754_nan)
               (NpFloat64 S754_nan) pfx lfx shares = Ok report).
Proof.
  intros Hin.
  assert (Hcalc : calculate_today_nav WEIGHTS w
                  = (compute_report WEIGHTS pb pn prices fx, t)).
  { unfold calculate_today_nav. rewrite (run_bind_ok _ _ w _ t Hin).
    unfold lift. cbn [fst snd]. now rewrite app_nil_r. }
  split.
  - intros Hshort. split; [|discriminate].
    now rewrite Hcalc, (compute_report_too_short WEIGHTS pb pn prices fx Hshort).
  - intros base nav -> -> Hne Hnd Hwf Hcols Hbase Hprev Hrows Hfx Hgap.
    destruct (compute_report_formula WEIGHTS base nav prices fx Hne Hnd Hwf Hcols
                Hrows Hfx Hbase Hprev)
      as (prev & last & x2 & x1 & shares & report & Eprev & Elast & Hx2 & Hx1
          & Hrow & Hrep).
    cbv zeta in Hrep. destruct Hrep as [Hrun Hform].
    exists report, shares, (PyFloat x2), (PyFloat x1).
    split; [now rewrite Hcalc, Hrun|].
    set (sh := fun t => match dict_get shares t with
                        | Some s => raw s | None => fdec 0 0 end).
    set (pr := fun t => match dict_get last t with
                        | Some s => raw s | None => fdec 0 0 end).
    assert (Hjpy : fmul (fold_left fadd
                           (map (fun t => fmul (sh t) (pr t)) (keys WEIGHTS)) (fdec 0 0))
                     x1 = S754_nan).
    { assert (Hterm : forall h, In h (keys WEIGHTS) ->
                sh h = S754_nan \/ pr h = S754_nan ->
                fmul (fold_left fadd
                        (map (fun t => fmul (sh t) (pr t)) (keys WEIGHTS)) (fdec 0 0))
                  x1 = S754_nan).
      { intros h Hh Hbad. cbn [fadd fmul Binary64].
        rewrite fold_fadd_nan_term; [reflexivity|].
        apply in_map_iff. exists h. split; [|exact Hh].
        destruct Hbad as [-> | ->]; [reflexivity|apply SFmul_nan_r]. }
      destruct Hgap as [[(h & col & x & Hcol & Hx & Hnan)|(x & Hx & Hnan)]
                       |[(h & col & x & Hcol & Hx & Hnan)|(x & Hx & Hnan)]];
        apply is_nan_b64 in Hnan; subst x.
      - assert (Hh : In h (keys WEIGHTS)).
        { rewrite <- Hcols. apply dict_get_Some_In in Hcol.
          change h with (fst (h, col)). now apply in_map. }
        destruct (iloc_row_back_value prices 2 prev h col Eprev Hcol) as (x & Hx' & Hp).
        rewrite Hx in Hx'. inversion Hx'; subst x.
        destruct (Hrow h Hh) as (wt & p & q & _ & Hp' & _ & Hs).
        rewrite Hp in Hp'. inversion Hp'; subst p.
        apply (Hterm h Hh). left. unfold sh. rewrite Hs. cbn [raw fdiv Binary64].
        apply SFdiv_nan_r.
      - rewrite Hx2 in Hx. inversion Hx; subst x2.
        destruct WEIGHTS as [|[h wt] rest] eqn:EW; [congruence|]. rewrite <- EW in *.
        assert (Hh : In h (keys WEIGHTS)) by (rewrite EW; now left).
        destruct (Hrow h Hh) as (wt' & p & q & _ & _ & _ & Hs).
        apply (Hterm h Hh). left. unfold sh. rewrite Hs. cbn [raw fdiv Binary64].
        rewrite SFdiv_nan_r. reflexivity.
      - assert (Hh : In h (keys WEIGHTS)).
        { rewrite <- Hcols. apply dict_get_Some_In in Hcol.
          change h with (fst (h, col)). now apply in_map. }
        destruct (iloc_row_back_value prices 1 last h col Elast Hcol) as (x & Hx' & Hq).
        rewrite Hx in Hx'. inversion Hx'; subst x.
        apply (Hterm h Hh). right. unfold pr. now rewrite Hq.
      - rewrite Hx1 in Hx. inversion Hx; subst x1. cbn [fmul Binary64].
        apply SFmul_nan_r. }
    unfold sh, pr in Hjpy. cbv beta in Hjpy. rewrite Hjpy in Hform. exact Hform.
Qed.

End ThinFeedBinary.

(** * The further properties at concrete inputs *)

Section FurtherEvaluation.

Import Sample.
Import Cases.

Local Ltac each_ticker H tac :=
  cbn in H; repeat (destruct H as [<- | H]; [tac|]); try contradiction.

Lemma fetch_daiwa_csv_last_row_last_witness :
  fetch_daiwa_csv_last_row "3346" good_world
  = (Ok reference_row, [EvGet (reference_url "3346")]).
Proof.
  apply (fetch_daiwa_csv_last_row_last good_world "3346" [] reference_row).
  reflexivity.
Defined.

Lemma fetch_daiwa_csv_last_row_empty_witness :
  fetch_daiwa_csv_last_row "3346" (world (Ok []) (Raise offline) credentials)
  = (Raise IndexError, [EvGet (reference_url "3346")]).
Proof.
  apply (fetch_daiwa_csv_last_row_empty (world (Ok []) (Raise offline) credentials) "3346").
  reflexivity.
Defined.

Lemma get_prices_and_fx_missing_column_witness :
  exists k,
    fst (get_prices_and_fx WEIGHTS
           (world (Ok [reference_row]) (Ok (price_frame [b64 100 0; b64 101 0]))
              credentials))
    = Raise (KeyError k).
Proof.
  apply (get_prices_and_fx_missing_column WEIGHTS
           (world (Ok [reference_row]) (Ok (price_frame [b64 100 0; b64 101 0]))
              credentials)
           (price_frame [b64 100 0; b64 101 0])).
  - reflexivity.
  - right. reflexivity.
Defined.

Lemma get_prices_and_fx_frame_witness :
  exists prices,
    fst (get_prices_and_fx WEIGHTS good_world)
    = Ok (prices, ffill [b64 150 0; b64 151 0])
    /\ df_len prices
       = df_len (close_frame [b64 100 0; b64 101 0] [b64 150 0; b64 151 0])
    /\ keys (df_cols prices) = keys (@WEIGHTS spec_float _)
    /\ forall t col, In t (keys (@WEIGHTS spec_float _)) ->
         dict_get (df_cols (close_frame [b64 100 0; b64 101 0] [b64 150 0; b64 151 0])) t
           = Some col ->
         dict_get (df_cols prices) t = Some (ffill col).
Proof.
  apply (get_prices_and_fx_frame WEIGHTS good_world
           (close_frame [b64 100 0; b64 101 0] [b64 150 0; b64 151 0])
           [b64 150 0; b64 151 0]).
  - reflexivity.
  - intros t Ht. each_ticker Ht ltac:(discriminate).
  - reflexivity.
Defined.

Lemma ffill_carries_last_quote_witness :
  nth_error
    (ffill ([S754_nan] ++ b64 100 0 :: [S754_nan; S754_nan] ++ [b64 101 0]))
    (List.length [S754_nan] + 2)
  = Some (b64 100 0).
Proof.
  apply (ffill_carries_last_quote [S754_nan] [S754_nan; S754_nan] [b64 101 0]
           (b64 100 0) 2).
  - vm_compute. reflexivity.
  - repeat constructor.
  - simpl. lia.
Defined.

Lemma ffill_leading_gap_witness :
  ffill ([S754_nan; S754_nan] ++ [b64 100 0; S754_nan])
  = [S754_nan; S754_nan] ++ ffill [b64 100 0; S754_nan].
Proof.
  apply (ffill_leading_gap [S754_nan; S754_nan] [b64 100 0; S754_nan]).
  repeat constructor.
Defined.

Lemma ffill_no_gap_after_quote_witness :
  exists tail,
    ffill ([S754_nan] ++ b64 100 0 :: [S754_nan; b64 101 0; S754_nan])
    = ffill [S754_nan] ++ b64 100 0 :: tail
    /\ List.length tail = List.length [S754_nan; b64 101 0; S754_nan]
    /\ Forall (fun y => is_nan y = false) tail.
Proof.
  apply (ffill_no_gap_after_quote [S754_nan] [S754_nan; b64 101 0; S754_nan] (b64 100 0)).
  vm_compute. reflexivity.
Defined.

Lemma estimate_shares_reads_held_prices_witness :
  estimate_shares WEIGHTS nav base (flat_row (b64 100 0)) usdjpy
  = estimate_shares WEIGHTS nav base
      (("TSLA"%string, NpFloat64 (b64 250 0)) :: flat_row (b64 100 0)) usdjpy.
Proof.
  apply (estimate_shares_reads_held_prices WEIGHTS nav base usdjpy
           (flat_row (b64 100 0))
           (("TSLA"%string, NpFloat64 (b64 250 0)) :: flat_row (b64 100 0))).
  intros h Hh. each_ticker Hh ltac:(reflexivity).
Defined.

Lemma estimate_shares_missing_price_witness :
  estimate_shares ([("A"%string, b64 5 1)] ++ ("B"%string, b64 5 1) :: [])
    (PyFloat (b64 1000 0)) (PyFloat (b64 10000 0))
    [("A"%string, NpFloat64 (b64 100 0))] (PyFloat (b64 150 0))
  = Raise (KeyError "B").
Proof.
  apply (estimate_shares_missing_price [("A"%string, b64 5 1)] [] "B" (b64 5 1)
           (b64 1000 0) (b64 10000 0) (b64 150 0)
           [("A"%string, NpFloat64 (b64 100 0))]).
  - reflexivity.
  - reflexivity.
  - intros h Hh. cbn in Hh. destruct Hh as [<-|[]].
    eexists. split; [reflexivity|]. left. reflexivity.
  - reflexivity.
Defined.

Lemma nav_projector_never_divides_by_zero_witness :
  nav_projector two_holdings (two_prices (b64 1 0) (b64 1 0)) (PyFloat (b64 0 0))
    (two_prices (b64 100 0) (b64 200 0)) (PyFloat (b64 150 0)) (PyFloat (b64 0 0))
  = Ok (NpFloat64 (S754_infinity false), NpFloat64 (S754_infinity false),
        NpFloat64 (S754_infinity false)).
Proof.
  rewrite (nav_projector_never_divides_by_zero two_holdings
             (two_prices (b64 1 0) (b64 1 0)) (two_prices (b64 100 0) (b64 200 0))
             (PyFloat (b64 0 0)) (PyFloat (b64 150 0)) (PyFloat (b64 0 0))
             (fun _ => b64 1 0)
             (fun t => if String.eqb t "A" then b64 100 0 else b64 200 0)).
  - vm_compute. reflexivity.
  - discriminate.
  - intros t Ht. cbn in Ht. destruct Ht as [<-|[<-|[]]]; eexists; split; reflexivity.
  - intros t Ht. cbn in Ht. destruct Ht as [<-|[<-|[]]]; reflexivity.
Defined.

Lemma estimate_close_to_closed_form_witness :
  exists shares units est diff pct m e,
    estimate_shares WEIGHTS (PyFloat (b64 1000000000 0)) (PyFloat (b64 10000 0))
      (flat_row (b64 100 0)) (PyFloat (b64 150 0)) = Ok (shares, units)
    /\ nav_projector WEIGHTS shares units (flat_row (b64 110 0)) (PyFloat (b64 151 0))
         (PyFloat (b64 10000 0)) = Ok (est, diff, pct)
    /\ raw est = S754_finite false m e
    /\ near (List.length (@WEIGHTS spec_float _) + 6)
         (B2Q (b64 10000 0) * (B2Q (b64 151 0) / B2Q (b64 150 0))
          * Qsum (map (fun hw => B2Q (snd hw)
                                 * (B2Q (b64 110 0) / B2Q (b64 100 0))) WEIGHTS))%Q
         (B2Q (raw est)).
Proof.
  apply (estimate_close_to_closed_form WEIGHTS (b64 1000000000 0) (b64 10000 0)
           (b64 150 0) (b64 151 0) (flat_row (b64 100 0)) (flat_row (b64 110 0))
           (fun _ => b64 100 0) (fun _ => b64 110 0)).
  - discriminate.
  - apply WEIGHTS_keys_NoDup.
  - cbn. lia.
  - vm_compute. reflexivity.
  - vm_compute. reflexivity.
  - vm_compute. reflexivity.
  - vm_compute. reflexivity.
  - intros h w Hin.
    assert (Hall : forallb (fun hw => moderate (snd hw)) (@WEIGHTS spec_float _) = true)
      by (vm_compute; reflexivity).
    rewrite forallb_forall in Hall. exact (Hall (h, w) Hin).
  - intros h Hh.
    each_ticker Hh ltac:(repeat split; try reflexivity; vm_compute; reflexivity).
Defined.

Lemma nav_projector_nan_witness :
  nav_projector two_holdings (two_prices (b64 1 0) (b64 1 0)) (PyFloat (b64 3 0))
    (two_prices (b64 100 0) S754_nan) (PyFloat (b64 150 0)) (PyFloat (b64 10000 0))
  = Ok (NpFloat64 S754_nan, NpFloat64 S754_nan, NpFloat64 S754_nan).
Proof.
  apply (nav_projector_nan two_holdings (two_prices (b64 1 0) (b64 1 0))
           (two_prices (b64 100 0) S754_nan) (PyFloat (b64 3 0)) (PyFloat (b64 150 0))
           (PyFloat (b64 10000 0)) (fun _ => b64 1 0)
           (fun t => if String.eqb t "A" then b64 100 0 else S754_nan)).
  - discriminate.
  - intros t Ht. cbn in Ht. destruct Ht as [<-|[<-|[]]]; eexists; split; reflexivity.
  - intros t Ht. cbn in Ht. destruct Ht as [<-|[<-|[]]]; reflexivity.
  - left. exists "B"%string. split; [cbn; auto|right; reflexivity].
Defined.

Lemma zero_assets_give_nan_witness :
  exists shares units,
    estimate_shares WEIGHTS (PyFloat (S754_zero false)) (PyFloat (b64 10000 0))
      (flat_row (b64 100 0)) (PyFloat (b64 150 0)) = Ok (shares, units)
    /\ nav_projector WEIGHTS shares units (flat_row (b64 110 0)) (PyFloat (b64 151 0))
         (PyFloat (b64 10000 0))
       = Ok (NpFloat64 S754_nan, NpFloat64 S754_nan, NpFloat64 S754_nan).
Proof.
  apply (zero_assets_give_nan WEIGHTS (b64 10000 0) (b64 150 0) (b64 151 0)
           (flat_row (b64 100 0)) (flat_row (b64 110 0))
           (fun _ => b64 100 0) (fun _ => b64 110 0)).
  - discriminate.
  - apply WEIGHTS_keys_NoDup.
  - vm_compute. reflexivity.
  - vm_compute. reflexivity.
  - vm_compute. reflexivity.
  - intros h w Hin.
    assert (Hall : forallb (fun hw => pos_finite (snd hw)) (@WEIGHTS spec_float _) = true)
      by (vm_compute; reflexivity).
    rewrite forallb_forall in Hall. exact (Hall (h, w) Hin).
  - intros h Hh.
    each_ticker Hh ltac:(repeat split; try reflexivity; vm_compute; reflexivity).
Defined.

Lemma estimate_shares_nonneg_witness :
  exists shares units,
    estimate_shares WEIGHTS (PyFloat (b64 1000000000 0)) (PyFloat (b64 10000 0))
      (flat_row (b64 100 0)) (PyFloat (b64 150 0)) = Ok (shares, units)
    /\ nonneg (raw units) = true
    /\ forall h s, dict_get shares h = Some s -> nonneg (raw s) = true.
Proof.
  apply (estimate_shares_nonneg WEIGHTS (b64 1000000000 0) (b64 10000 0) (b64 150 0)
           (flat_row (b64 100 0)) (fun _ => b64 100 0)).
  - apply WEIGHTS_keys_NoDup.
  - vm_compute. reflexivity.
  - vm_compute. reflexivity.
  - vm_compute. reflexivity.
  - intros h w Hin.
    assert (Hall : forallb (fun hw => pos_finite (snd hw)) (@WEIGHTS spec_float _) = true)
      by (vm_compute; reflexivity).
    rewrite forallb_forall in Hall. exact (Hall (h, w) Hin).
  - intros h Hh.
    each_ticker Hh ltac:(split; [reflexivity|vm_compute; reflexivity]).
Defined.

Lemma compute_report_last_two_rows_witness :
  compute_report WEIGHTS base nav
    (with_older_rows 1 (fun _ => [b64 90 0]) (price_frame [b64 100 0; b64 101 0]))
    ([b64 140 0] ++ [b64 150 0; b64 151 0])
  = compute_report WEIGHTS base nav (price_frame [b64 100 0; b64 101 0])
      [b64 150 0; b64 151 0].
Proof.
  apply (compute_report_last_two_rows WEIGHTS base nav
           (price_frame [b64 100 0; b64 101 0]) [b64 150 0; b64 151 0] [b64 140 0]
           1 (fun _ => [b64 90 0])).
  - reflexivity.
  - cbn. lia.
  - cbn. lia.
Defined.

Lemma compute_report_errors_witness :
  compute_report WEIGHTS base nav (price_frame [b64 100 0]) [b64 150 0; b64 151 0]
  = Raise IndexError
  /\ (IndexError = IndexError \/ IndexError = ZeroDivisionError
      \/ exists k, IndexError = KeyError k).
Proof.
  split; [vm_compute; reflexivity|].
  apply (compute_report_errors WEIGHTS base nav (price_frame [b64 100 0])
           [b64 150 0; b64 151 0] IndexError).
  vm_compute. reflexivity.
Defined.

Lemma compute_report_succeeds_witness :
  exists report,
    compute_report WEIGHTS (PyFloat (b64 10000 0)) (PyFloat (b64 1000000000 0))
      (price_frame [b64 100 0; b64 101 0]) [b64 150 0; b64 151 0] = Ok report.
Proof.
  apply (compute_report_succeeds WEIGHTS (b64 10000 0) (b64 1000000000 0)
           (price_frame [b64 100 0; b64 101 0]) [b64 150 0; b64 151 0]).
  - discriminate.
  - apply WEIGHTS_keys_NoDup.
  - repeat constructor.
  - reflexivity.
  - cbn. lia.
  - cbn. lia.
  - reflexivity.
  - intros x Hx. cbn in Hx. inversion Hx; subst x. reflexivity.
Defined.

Lemma calculate_today_nav_missing_column_witness :
  calculate_today_nav WEIGHTS
    (world (Ok [[("純資産総額"%string, CellNum (b64 1000000000 0))]]) (Raise offline)
       credentials)
  = (Raise (KeyError "基準価額"), [EvGet (reference_url "3346")]).
Proof.
  apply (calculate_today_nav_missing_column WEIGHTS
           (world (Ok [[("純資産総額"%string, CellNum (b64 1000000000 0))]])
              (Raise offline) credentials)
           [] [("純資産総額"%string, CellNum (b64 1000000000 0))] "基準価額").
  - reflexivity.
  - left. split; reflexivity.
Defined.

Lemma calculate_today_nav_bad_number_witness :
  calculate_today_nav WEIGHTS
    (world (Ok [[("基準価額"%string, CellStr "10,000")]]) (Raise offline) credentials)
  = (Raise ValueError, [EvGet (reference_url "3346")]).
Proof.
  apply (calculate_today_nav_bad_number WEIGHTS
           (world (Ok [[("基準価額"%string, CellStr "10,000")]]) (Raise offline)
              credentials)
           [] [("基準価額"%string, CellStr "10,000")] "10,000").
  - reflexivity.
  - reflexivity.
  - reflexivity.
Defined.

Lemma calculate_today_nav_succeeds_witness :
  exists report,
    calculate_today_nav WEIGHTS good_world
    = (Ok report,
       [EvGet (reference_url "3346");
        EvDownload (keys (@WEIGHTS spec_float _) ++ ["USDJPY=X"%string])
          (now good_world - 7 * 86400) (now good_world)]).
Proof.
  apply (calculate_today_nav_succeeds WEIGHTS good_world [] reference_row
           (b64 10000 0) (b64 1000000000 0)
           (close_frame [b64 100 0; b64 101 0] [b64 150 0; b64 151 0])
           [b64 150 0; b64 151 0]).
  - discriminate.
  - apply WEIGHTS_keys_NoDup.
  - reflexivity.
  - reflexivity.
  - reflexivity.
  - reflexivity.
  - reflexivity.
  - repeat constructor.
  - cbn. lia.
  - intros t Ht. each_ticker Ht ltac:(discriminate).
  - reflexivity.
  - intros x Hx. vm_compute in Hx. inversion Hx; subst x. reflexivity.
Defined.

Lemma send_line_message_posts_witness :
  send_line_message "hello" good_world
  = (Ok tt,
     [EvPost push_url (push_headers "token") "{...}";
      EvPrint ("LINE API レスポンス: " +++ str_of_Z 200 +++ " " +++ "{}")]).
Proof.
  apply (send_line_message_posts "hello" "token" "user" good_world).
  - reflexivity.
  - discriminate.
  - reflexivity.
  - discriminate.
Defined.

Lemma main_endpoint_down_witness :
  main WEIGHTS down_world
  = (Raise offline,
     snd (calculate_today_nav WEIGHTS down_world)
     ++ [ EvPrint report;
          EvPost push_url (push_headers "token") "{...}";
          EvPrint (error_marker +++ format_exc down_world offline);
          EvPost push_url (push_headers "token") "{...}" ]).
Proof.
  apply (main_endpoint_down WEIGHTS down_world report "token" "user"
           (snd (calculate_today_nav WEIGHTS down_world)) offline).
  - vm_compute. reflexivity.
  - reflexivity.
  - discriminate.
  - reflexivity.
  - discriminate.
  - intros url headers data. reflexivity.
Defined.

Lemma main_delivers_report_witness :
  main WEIGHTS good_world
  = (Ok tt,
     snd (calculate_today_nav WEIGHTS good_world)
     ++ [ EvPrint report;
          EvPost push_url (push_headers "token") "{...}";
          EvPrint ("LINE API レスポンス: " +++ str_of_Z 200 +++ " " +++ "{}") ]).
Proof.
  apply (main_delivers_report WEIGHTS good_world report "token" "user"
           (snd (calculate_today_nav WEIGHTS good_world)) (200, "{}"%string)).
  - vm_compute. reflexivity.
  - reflexivity.
  - discriminate.
  - reflexivity.
  - discriminate.
  - reflexivity.
Defined.

Lemma fewer_than_two_observations_witness :
  (calculate_today_nav WEIGHTS thin_world
     = (Raise IndexError, snd (read_inputs WEIGHTS thin_world))
   /\ exc_name IndexError <> "InsufficientDataError"%string)
  /\ exists report shares pfx lfx,
       calculate_today_nav WEIGHTS gap_world
         = (Ok report, snd (read_inputs WEIGHTS gap_world))
       /\ format_report WEIGHTS base (NpFloat64 S754_nan) (NpFloat64 S754_nan)
            (NpFloat64 S754_nan) pfx lfx shares = Ok report.
Proof.
  split.
  - edestruct (fewer_than_two_observations WEIGHTS thin_world) as [Hshort _];
      [vm_compute; reflexivity|].
    apply Hshort. left. cbn. lia.
  - edestruct (fewer_than_two_observations WEIGHTS gap_world) as [_ Hgap];
      [vm_compute; reflexivity|].
    apply (Hgap (b64 10000 0) (b64 1000000000 0)).
    + reflexivity.
    + reflexivity.
    + discriminate.
    + apply WEIGHTS_keys_NoDup.
    + repeat constructor.
    + reflexivity.
    + reflexivity.
    + intros x Hx. vm_compute in Hx. inversion Hx; subst x. reflexivity.
    + cbn. lia.
    + cbn. lia.
    + left. left. exists "CRWD"%string, [S754_nan; b64 101 0], S754_nan.
      split; [reflexivity|]. split; reflexivity.
Defined.

Lemma implied_holdings_value_witness :
  exists shares units terms m e,
    estimate_shares WEIGHTS (PyFloat (b64 1000000000 0)) (PyFloat (b64 10000 0))
      (flat_row (b64 100 0)) (PyFloat (b64 150 0)) = Ok (shares, units)
    /\ nav_terms WEIGHTS shares (flat_row (b64 100 0)) = Ok terms
    /\ raw (py_mul (py_sum (map snd terms)) (PyFloat (b64 150 0)))
       = S754_finite false m e
    /\ near (List.length (@WEIGHTS spec_float _) + 4)
         (B2Q (b64 1000000000 0) * Qsum (map (fun hw => B2Q (snd hw)) WEIGHTS))%Q
         (B2Q (raw (py_mul (py_sum (map snd terms)) (PyFloat (b64 150 0))))).
Proof.
  apply (implied_holdings_value WEIGHTS (b64 1000000000 0) (b64 10000 0) (b64 150 0)
           (flat_row (b64 100 0)) (fun _ => b64 100 0)).
  - discriminate.
  - apply WEIGHTS_keys_NoDup.
  - cbn. lia.
  - vm_compute. reflexivity.
  - vm_compute. reflexivity.
  - vm_compute. reflexivity.
  - intros h w Hin.
    assert (Hall : forallb (fun hw => moderate (snd hw)) (@WEIGHTS spec_float _) = true)
      by (vm_compute; reflexivity).
    rewrite forallb_forall in Hall. exact (Hall (h, w) Hin).
  - intros h Hh. each_ticker Hh ltac:(split; [reflexivity|vm_compute; reflexivity]).
Defined.

End FurtherEvaluation.
